(** * BullaEND: role reconciliation, ranking and points commands

    A shallow embedding of the Discord bot in [src/index.ts] (and of its
    earlier revision, which has the same CSV and leaderboard code with two
    teams only).  The User Store (Supabase) is a list of rows in the store's
    own order, and its answer to a query ordered by points is an argument of
    the function that runs the query, since the store alone decides the order
    of rows with equal points; the guild is a finite map from member ids to
    the role ids the member holds; the Membership Gateway may refuse a role
    grant, which the source handles with a [try]/[catch] around every
    member. *)

From stdpp Require Import gmap strings list sorting pretty.
From Stdlib Require Import ZArith Lia.

Local Open Scope string_scope.

(** ** Data model *)

Inductive Team := bullas | beras.

Global Instance Team_eq_dec : EqDecision Team.
Proof. solve_decision. Defined.

(** A row of the [users] table.  [discord_id] is the table's text key;
    [address] and [team] are nullable; [points] is an integer with no
    enforced floor. *)
Record User := mkUser {
  discord_id : string;
  address : option string;
  points : Z;
  team : option Team;
}.

(** [{ added: 0, existing: 0 }] and the [roleUpdateLog] of [updateRoles]. *)
Record Counter := mkCounter { added : nat; existing : nat }.

Record RoleUpdateLog := mkLog {
  whitelist : Counter;
  moolalist : Counter;
  freemint : Counter;
}.

(** The part of a [Guild] the bot reads: [guild.roles.cache] (role ids) and,
    for every member the gateway can resolve, [member.roles.cache]. *)
Record Guild := mkGuild {
  guild_roles : gset string;
  guild_members : gmap string (gset string);
}.

(** What the Membership Gateway answers to a mutation or a batched fetch.
    [add_ok id role] tells whether [member.roles.add(role)] resolves for the
    member [id] (it rejects on missing permissions, role hierarchy, a member
    who left, a rate limit); [batch_ok ids] whether
    [guild.members.fetch({ user: ids })] resolves. *)
Record Gateway := mkGateway {
  add_ok : string → string → bool;
  batch_ok : list string → bool;
}.

(** ** Role constants *)

Definition WHITELIST_ROLE_ID : string := "1263470313300295751".
Definition MOOLALIST_ROLE_ID : string := "1263470568536014870".
Definition FREE_MINT_ROLE_ID : string := "1328473525710884864".
Definition FREE_MINT_WINNER_ROLE_ID : string := "1263470790314164325".
Definition WL_WINNER_ROLE_ID : string := "1264963781419597916".
Definition ML_WINNER_ROLE_ID : string := "1267532607491407933".

(** JavaScript truthiness of a string: only the empty string is falsy. *)
Definition truthy (s : string) : bool := negb (String.eqb s "").

(** ** Team points *)

(** Modelled from the spec: the [sum_points_for_team] stored procedure lives
    in the database and not in the repository; the spec gives it as "a
    team-sum aggregate (sum of points for a given team label)". *)
Definition sum_points_for_team (db : list User) (team_name : Team) : Z :=
  foldr (λ u acc, if decide (team u = Some team_name) then (points u + acc)%Z else acc)
        0%Z db.

Record TeamPoints := mkTeamPoints { tp_bullas : Z; tp_beras : Z }.

Definition getTeamPoints (db : list User) : TeamPoints :=
  {| tp_bullas := sum_points_for_team db bullas;
     tp_beras := sum_points_for_team db beras |}.

(** [teamPoints.bullas > teamPoints.beras ? "bullas" : "beras"], shared by
    [updateRoles] and the [/snapshot] handler. *)
Definition winningTeam (teamPoints : TeamPoints) : Team :=
  if (tp_beras teamPoints <? tp_bullas teamPoints)%Z then bullas else beras.


Inductive TeamType := winning | losing.

Definition targetTeam (teamType : TeamType) (teamPoints : TeamPoints) : Team :=
  match teamType with
  | winning => winningTeam teamPoints
  | losing => match winningTeam teamPoints with bullas => beras | beras => bullas end
  end.

(** [supabase.from("users").select(...).eq("team", t)]: rows in store order. *)
Definition select_team (db : list User) (t : Team) : list User :=
  filter (λ u, team u = Some t) db.

(** ** The reconciliation run

    The body of the [for] loop mutates the log and the guild and may throw;
    a throw keeps every mutation made so far.  [Run] is that state and
    exception monad. *)

Record RunState := mkRunState { rs_guild : Guild; rs_log : RoleUpdateLog }.

Inductive Outcome (A : Type) := Returned (a : A) | Thrown.
Arguments Returned {A} a.
Arguments Thrown {A}.

Definition Run (A : Type) : Type := RunState → Outcome A * RunState.

Global Instance Run_ret : MRet Run := λ A a s, (Returned a, s).

Global Instance Run_bind : MBind Run := λ A B f m s,
  match m s with
  | (Returned a, s') => f a s'
  | (Thrown, s') => (Thrown, s')
  end.

(** [try { m } catch (err) { console.error(...) }] *)
Definition try_catch (m : Run ()) : Run () := λ s,
  match m s with
  | (Thrown, s') => (Returned (), s')
  | r => r
  end.

(** [await guild.members.fetch(id)]: rejects for an unknown member. *)
Definition members_fetch (id : string) : Run string := λ s,
  match guild_members (rs_guild s) !! id with
  | Some _ => (Returned id, s)
  | None => (Thrown, s)
  end.

(** [member.roles.cache.has(role)] *)
Definition roles_cache_has (member role : string) : Run bool := λ s,
  (Returned (bool_decide (role ∈ default ∅ (guild_members (rs_guild s) !! member))), s).

Definition grant (member role : string) (g : Guild) : Guild :=
  {| guild_roles := guild_roles g;
     guild_members := alter (λ rs, {[role]} ∪ rs) member (guild_members g) |}.

(** [await member.roles.add(role)] *)
Definition roles_add (gw : Gateway) (member role : string) : Run () := λ s,
  if add_ok gw member role
  then (Returned (), {| rs_guild := grant member role (rs_guild s); rs_log := rs_log s |})
  else (Thrown, s).

Definition modify_log (f : RoleUpdateLog → RoleUpdateLog) : Run () := λ s,
  (Returned (), {| rs_guild := rs_guild s; rs_log := f (rs_log s) |}).

Definition incr_added (c : Counter) : Counter :=
  {| added := S (added c); existing := existing c |}.
Definition incr_existing (c : Counter) : Counter :=
  {| added := added c; existing := S (existing c) |}.

Definition on_whitelist (f : Counter → Counter) (l : RoleUpdateLog) : RoleUpdateLog :=
  {| whitelist := f (whitelist l); moolalist := moolalist l; freemint := freemint l |}.
Definition on_moolalist (f : Counter → Counter) (l : RoleUpdateLog) : RoleUpdateLog :=
  {| whitelist := whitelist l; moolalist := f (moolalist l); freemint := freemint l |}.
Definition on_freemint (f : Counter → Counter) (l : RoleUpdateLog) : RoleUpdateLog :=
  {| whitelist := whitelist l; moolalist := moolalist l; freemint := f (freemint l) |}.

(** One of the three threshold blocks of the loop body:
<<
  if (player.points >= threshold) {
    if (!member.roles.cache.has(BASE) && !member.roles.cache.has(WINNER)) {
      if (!isSimulation) { await member.roles.add(baseRole); }
      roleUpdateLog.<category>.added++;
    } else {
      roleUpdateLog.<category>.existing++;
    }
  }
>> *)
Definition threshold_block (gw : Gateway) (isSimulation : bool)
    (player : User) (member : string) (threshold : Z) (BASE WINNER : string)
    (category : (Counter → Counter) → RoleUpdateLog → RoleUpdateLog) : Run () :=
  if bool_decide (threshold ≤ points player)%Z then
    hasBase ← roles_cache_has member BASE;
    hasWinner ← roles_cache_has member WINNER;
    if negb hasBase && negb hasWinner then
      (if negb isSimulation then roles_add gw member BASE else mret ());;
      modify_log (category incr_added)
    else
      modify_log (category incr_existing)
  else mret ().

(** The loop body for one player, inside its [try]/[catch]. *)
Definition process_player (gw : Gateway) (isSimulation : bool)
    (wlThreshold mlThreshold freemintThreshold : Z) (player : User) : Run () :=
  if truthy (discord_id player) then
    try_catch (
      member ← members_fetch (discord_id player);
      threshold_block gw isSimulation player member wlThreshold
        WHITELIST_ROLE_ID WL_WINNER_ROLE_ID on_whitelist;;
      threshold_block gw isSimulation player member mlThreshold
        MOOLALIST_ROLE_ID ML_WINNER_ROLE_ID on_moolalist;;
      threshold_block gw isSimulation player member freemintThreshold
        FREE_MINT_ROLE_ID FREE_MINT_WINNER_ROLE_ID on_freemint)
  else mret ().

(** [for (const player of players) { ... }] *)
Fixpoint for_players (body : User → Run ()) (players : list User) : Run () :=
  match players with
  | [] => mret ()
  | player :: rest => body player;; for_players body rest
  end.

Definition empty_log : RoleUpdateLog :=
  {| whitelist := {| added := 0; existing := 0 |};
     moolalist := {| added := 0; existing := 0 |};
     freemint := {| added := 0; existing := 0 |} |}.

Definition all_roles_cached (guild : Guild) : bool :=
  bool_decide (WHITELIST_ROLE_ID ∈ guild_roles guild)
  && bool_decide (MOOLALIST_ROLE_ID ∈ guild_roles guild)
  && bool_decide (FREE_MINT_ROLE_ID ∈ guild_roles guild)
  && bool_decide (WL_WINNER_ROLE_ID ∈ guild_roles guild)
  && bool_decide (ML_WINNER_ROLE_ID ∈ guild_roles guild)
  && bool_decide (FREE_MINT_WINNER_ROLE_ID ∈ guild_roles guild).

(** The players [updateRoles] iterates over. *)
Definition target_players (db : list User) (teamType : TeamType) : list User :=
  select_team db (targetTeam teamType (getTeamPoints db)).

(** [updateRoles]: the returned log, and the guild as the run leaves it.
    A granted role is in the member's role cache from then on.  The store is
    taken to answer the players query (the [error] branch returns the empty
    log in either mode). *)
Definition updateRoles (gw : Gateway) (db : list User) (guild : Guild)
    (teamType : TeamType) (wlThreshold mlThreshold freemintThreshold : Z)
    (isSimulation : bool) : RoleUpdateLog * Guild :=
  if negb (all_roles_cached guild) then (empty_log, guild)
  else
    let players := target_players db teamType in
    let '(_, s) :=
      for_players (process_player gw isSimulation wlThreshold mlThreshold freemintThreshold)
        players {| rs_guild := guild; rs_log := empty_log |} in
    (rs_log s, rs_guild s).

(** ** The reconciler as the spec words it

    Three categories, each with a base role and a winner variant; a member
    whose points meet the threshold is "added" when holding neither role and
    "existing" when holding either. *)

Inductive Category := Whitelist | Moolalist | Freemint.
Inductive Verdict := Added | Existing.

Global Instance Verdict_eq_dec : EqDecision Verdict.
Proof. solve_decision. Defined.

Definition base_role (c : Category) : string :=
  match c with
  | Whitelist => WHITELIST_ROLE_ID
  | Moolalist => MOOLALIST_ROLE_ID
  | Freemint => FREE_MINT_ROLE_ID
  end.

Definition winner_role (c : Category) : string :=
  match c with
  | Whitelist => WL_WINNER_ROLE_ID
  | Moolalist => ML_WINNER_ROLE_ID
  | Freemint => FREE_MINT_WINNER_ROLE_ID
  end.

Definition verdict (roles : gset string) (pts threshold : Z) (c : Category)
    : option Verdict :=
  if bool_decide (threshold ≤ pts)%Z then
    if bool_decide (base_role c ∈ roles ∨ winner_role c ∈ roles)
    then Some Existing else Some Added
  else None.

(** The verdict for a player of the target team: none when the id is empty
    or the membership cannot be resolved. *)
Definition member_verdict (g : Guild) (threshold : Z) (c : Category) (p : User)
    : option Verdict :=
  if truthy (discord_id p) then
    roles ← guild_members g !! discord_id p;
    verdict roles (points p) threshold c
  else None.

Definition count_verdict (g : Guild) (threshold : Z) (c : Category) (v : Verdict)
    (players : list User) : nat :=
  length (filter (λ p, member_verdict g threshold c p = Some v) players).

Definition spec_counter (g : Guild) (threshold : Z) (c : Category)
    (players : list User) : Counter :=
  {| added := count_verdict g threshold c Added players;
     existing := count_verdict g threshold c Existing players |}.

Definition spec_log (g : Guild) (wl ml fm : Z) (players : list User) : RoleUpdateLog :=
  {| whitelist := spec_counter g wl Whitelist players;
     moolalist := spec_counter g ml Moolalist players;
     freemint := spec_counter g fm Freemint players |}.

Definition tally (v : option Verdict) (c : Counter) : Counter :=
  match v with
  | Some Added => incr_added c
  | Some Existing => incr_existing c
  | None => c
  end.

Definition spec_step (g : Guild) (wl ml fm : Z) (log : RoleUpdateLog) (p : User)
    : RoleUpdateLog :=
  {| whitelist := tally (member_verdict g wl Whitelist p) (whitelist log);
     moolalist := tally (member_verdict g ml Moolalist p) (moolalist log);
     freemint := tally (member_verdict g fm Freemint p) (freemint log) |}.

(** Every grant the real run can issue for these players is accepted. *)
Definition grants_accepted (gw : Gateway) (players : list User) : Prop :=
  ∀ p role, p ∈ players → add_ok gw (discord_id p) role = true.

(** The threshold of a category. *)
Definition threshold_of (wl ml fm : Z) (c : Category) : Z :=
  match c with Whitelist => wl | Moolalist => ml | Freemint => fm end.

(** Every grant the real run issues is accepted.  The run issues
    [roles.add(base)] for a player and a category when the verdict, read
    against the guild [g] the run starts from, is "added"; what the gateway
    would answer to any other grant is left open. *)
Definition issued_grants_accepted (gw : Gateway) (g : Guild) (wl ml fm : Z)
    (players : list User) : Prop :=
  ∀ p c, p ∈ players →
    member_verdict g (threshold_of wl ml fm c) c p = Some Added →
    add_ok gw (discord_id p) (base_role c) = true.

(** Role sets only grow from [g] to [g']. *)
Definition roles_kept (g g' : Guild) : Prop :=
  ∀ id roles, guild_members g !! id = Some roles →
    ∃ roles', guild_members g' !! id = Some roles' ∧ roles ⊆ roles'.

(** [g'] is [g] everywhere except, possibly, at the member [id]. *)
Definition same_off (id : string) (g g' : Guild) : Prop :=
  ∀ id', id' ≠ id → guild_members g' !! id' = guild_members g !! id'.

(** ** User Store queries *)

Definition EXCLUDED_USER_IDS : list string :=
  [ "649377665496776724"; "534027215973646346"; "144683637718122496" ].

(** The [team] option of [/leaderboard]: ["all"], ["bullas"] or ["beras"].
    The earlier revision offers the two teams only. *)
Inductive TeamOption := team_all | team_only (t : Team).

(** [.order("points", { ascending: false })]: the store returns the rows
    sorted by points, highest first. *)
Definition points_desc (a b : User) : Prop := (points b ≤ points a)%Z.

Global Instance points_desc_dec a b : Decision (points_desc a b).
Proof. unfold points_desc. apply _. Defined.

(** No query of the bot names a second sort key, so which of two rows of
    equal points comes first is the store's choice, and the store may choose
    differently every time a query is run.  An [Ordering] is the store's
    answer to one ordered query, as a function from the rows the filters match
    to the sequence returned; [orders_by_points] is what the store promises of
    it.  Every function that runs an ordered query takes the answer as an
    argument, one [Ordering] for each query it runs. *)
Definition Ordering : Type := list User → list User.

Definition orders_by_points (order : Ordering) : Prop :=
  ∀ rows, order rows ≡ₚ rows ∧ StronglySorted points_desc (order rows).

(** [.not("discord_id", "in", `(${EXCLUDED_USER_IDS.join(",")})`)] *)
Definition not_excluded (rows : list User) : list User :=
  filter (λ u, discord_id u ∉ EXCLUDED_USER_IDS) rows.

(** [if (teamOption !== "all") { query = query.eq("team", teamOption); }] *)
Definition eq_team_option (teamOption : TeamOption) (rows : list User) : list User :=
  match teamOption with
  | team_all => rows
  | team_only t => filter (λ u, team u = Some t) rows
  end.

(** The query both [rankQuery] and [query] build: the exclusion-free,
    team-filtered population, points descending. *)
Definition rank_query (order : Ordering) (db : list User) (teamOption : TeamOption)
    : list User :=
  order (eq_team_option teamOption (not_excluded db)).


(** [{ count: "exact" }]: the number of rows the filters match, whatever the
    range. *)
Definition exact_count (db : list User) (teamOption : TeamOption) : Z :=
  Z.of_nat (length (eq_team_option teamOption (not_excluded db))).

(** [query.range(from, to)]: rows [from..to] of the ordered result of that
    query, both ends included; the store answers a negative offset with an
    error.  Past the last row there is nothing to serve. *)
Definition range (from to : Z) (rows : list User) : option (list User) :=
  if (from <? 0)%Z then None
  else Some (take (Z.to_nat (to - from + 1)) (drop (Z.to_nat from) rows)).

(** [Array.prototype.findIndex]: the first index whose element satisfies the
    predicate, [-1] when there is none. *)
Fixpoint findIndex_from {A} (P : A → bool) (l : list A) (i : Z) : Z :=
  match l with
  | [] => (-1)%Z
  | x :: rest => if P x then i else findIndex_from P rest (i + 1)%Z
  end.

Definition findIndex {A} (P : A → bool) (l : list A) : Z := findIndex_from P l 0.

(** [arr[i]] for an integer [i]: [undefined] out of range, also at [-1]. *)
Definition js_index {A} (l : list A) (i : Z) : option A :=
  if (i <? 0)%Z then None else l !! Z.to_nat i.

(** [Math.ceil(n / d)] on integers, [d] positive. *)
Definition Math_ceil_div (n d : Z) : Z := (- ((- n) / d))%Z.

(** ** /leaderboard *)

Definition itemsPerPage : Z := 10.

(** What the embed and its buttons show. *)
Record Board := mkBoard {
  your_rank : option (Z * User);     (* the "Your Rank" field: [userRank + 1], [userData] *)
  entries : list (Z * User);         (* [position], [entry] for every line *)
  footer_page : Z;                   (* "Page p/t" *)
  footer_total : Z;
  prev_disabled : bool;
  next_disabled : bool;
}.

Inductive LeaderboardReply :=
  | NoUsersFound
  | LeaderboardError
  | NotYourButtons
  | ShowBoard (b : Board).

(** The part the command and the button handler share, from the rank query to
    the buttons, for the page to show.  [rankOrder] is the store's answer to
    [rankQuery]; [leaderboardData] comes from the second query, [query] with
    its range. *)
Definition render_board (rankOrder : Ordering) (db : list User) (caller : string)
    (teamOption : TeamOption) (page : Z) (leaderboardData : list User) : Board :=
  let skip := ((page - 1) * itemsPerPage)%Z in
  let allUsers := rank_query rankOrder db teamOption in
  let userRank := findIndex (λ user, bool_decide (discord_id user = caller)) allUsers in
  let userData := js_index allUsers userRank in
  let count := exact_count db teamOption in
  let totalPages := Math_ceil_div count itemsPerPage in
  {| your_rank :=
       match userData with
       | Some u => if bool_decide (userRank ≠ (-1)%Z) then Some ((userRank + 1)%Z, u) else None
       | None => None
       end;
     entries := imap (λ index entry, ((skip + Z.of_nat index + 1)%Z, entry)) leaderboardData;
     footer_page := page;
     footer_total := totalPages;
     prev_disabled := bool_decide (page ≤ 1)%Z;
     next_disabled := bool_decide (page >= totalPages)%Z |}.

(** [interaction.options.getInteger("page") || 1] *)
Definition page_or_first (page : option Z) : Z :=
  match page with
  | Some p => if (p =? 0)%Z then 1%Z else p
  | None => 1%Z
  end.

(** The [/leaderboard] command.  It runs two ordered queries, [rankQuery] for
    the caller's rank and [query] for the page; [rankOrder] and [pageOrder]
    are the store's answers to them. *)
Definition leaderboard (rankOrder pageOrder : Ordering) (db : list User) (caller : string)
    (teamOption : TeamOption) (pageOption : option Z) : LeaderboardReply :=
  let page := page_or_first pageOption in
  let skip := ((page - 1) * itemsPerPage)%Z in
  match range skip (skip + itemsPerPage - 1)%Z (rank_query pageOrder db teamOption) with
  | None => LeaderboardError
  | Some leaderboardData =>
      if bool_decide (length leaderboardData = 0) then NoUsersFound
      else ShowBoard (render_board rankOrder db caller teamOption page leaderboardData)
  end.

Inductive PageAction := prev | next.

(** The [prev_...] / [next_...] button handler; [owner] ran the command.  The
    handler runs the same two queries again. *)
Definition leaderboard_button (rankOrder pageOrder : Ordering) (db : list User)
    (caller owner : string) (action : PageAction) (teamOption : TeamOption)
    (currentPage : Z) : LeaderboardReply :=
  if bool_decide (owner ≠ caller) then NotYourButtons
  else
    let newPage := match action with next => (currentPage + 1)%Z | prev => (currentPage - 1)%Z end in
    let skip := ((newPage - 1) * itemsPerPage)%Z in
    match range skip (skip + itemsPerPage - 1)%Z (rank_query pageOrder db teamOption) with
    | None => LeaderboardError
    | Some leaderboardData =>
        ShowBoard (render_board rankOrder db caller teamOption newPage leaderboardData)
    end.

(** The entries the command serves for a page (none when it serves no board). *)
Definition served_entries (rankOrder pageOrder : Ordering) (db : list User)
    (caller : string) (teamOption : TeamOption) (page : Z) : list (Z * User) :=
  match leaderboard rankOrder pageOrder db caller teamOption (Some page) with
  | ShowBoard b => entries b
  | _ => []
  end.

(** ** CSV *)

(** The line feed of ["\n"]. *)
Definition NL : string := String (Ascii.ascii_of_nat 10) EmptyString.

(** A template-literal hole filled with a nullable text column. *)
Definition js_text (s : option string) : string := default "null" s.

(** [guild.members.fetch({ user: batch })]: the members of the batch the guild
    still has; a rejected call leaves the map as it is. *)
Definition fetch_batch (gw : Gateway) (guild : Guild) (membersMap : gmap string (gset string))
    (batch : list string) : gmap string (gset string) :=
  if batch_ok gw batch then
    foldl (λ m id, match guild_members guild !! id with
                   | Some roles => <[id := roles]> m
                   | None => m
                   end) membersMap batch
  else membersMap.

(** [for (let i = 0; i < memberIds.length; i += 50)]: at most one round per id. *)
Fixpoint fetch_batches (fuel : nat) (gw : Gateway) (guild : Guild)
    (membersMap : gmap string (gset string)) (memberIds : list string)
    : gmap string (gset string) :=
  match fuel, memberIds with
  | S fuel', _ :: _ =>
      fetch_batches fuel' gw guild (fetch_batch gw guild membersMap (take 50 memberIds))
        (drop 50 memberIds)
  | _, _ => membersMap
  end.

(** [member?.roles.cache.has(role)] *)
Definition member_has (member : option (gset string)) (role : string) : bool :=
  match member with
  | Some roles => bool_decide (role ∈ roles)
  | None => false
  end.

Definition yes_no (b : bool) : string := if b then "Y" else "N".

Definition csv_row (includeDiscordId : bool) (membersMap : gmap string (gset string))
    (user : User) : string :=
  let member := membersMap !! discord_id user in
  let hasWL := yes_no (member_has member WHITELIST_ROLE_ID || member_has member WL_WINNER_ROLE_ID) in
  let hasML := yes_no (member_has member MOOLALIST_ROLE_ID || member_has member ML_WINNER_ROLE_ID) in
  let hasFreeMint :=
    yes_no (member_has member FREE_MINT_ROLE_ID || member_has member FREE_MINT_WINNER_ROLE_ID) in
  if includeDiscordId then
    discord_id user +:+ "," +:+ js_text (address user) +:+ "," +:+ pretty (points user)
      +:+ "," +:+ hasWL +:+ "," +:+ hasML +:+ "," +:+ hasFreeMint
  else
    js_text (address user) +:+ "," +:+ pretty (points user)
      +:+ "," +:+ hasWL +:+ "," +:+ hasML +:+ "," +:+ hasFreeMint.

Definition csv_members (gw : Gateway) (guild : Guild) (data : list User)
    : gmap string (gset string) :=
  let memberIds := filter (λ id, truthy id = true) (discord_id <$> data) in
  fetch_batches (length memberIds) gw guild ∅ memberIds.

Definition createCSV (gw : Gateway) (data : list User) (includeDiscordId : bool)
    (guild : Guild) : string :=
  let header :=
    if includeDiscordId
    then "discord_id,address,points,wl_role,ml_role,free_mint_role" +:+ NL
    else "address,points,wl_role,ml_role,free_mint_role" +:+ NL in
  let membersMap := csv_members gw guild data in
  let rows := csv_row includeDiscordId membersMap <$> data in
  header +:+ String.concat NL rows.

(** The CSV as the spec words it: a header line, then one line per row, each
    the comma-joined field values with the three flags as Y or N. *)
Record RoleFlags := mkFlags { wl_role : bool; ml_role : bool; free_mint_role : bool }.

Definition spec_header (includeId : bool) : string :=
  if includeId then "discord_id,address,points,wl_role,ml_role,free_mint_role"
  else "address,points,wl_role,ml_role,free_mint_role".

(** A flag as the spec has it in a line: [Y] when it is set, [N] when not. *)
Definition flag_letter (flag : bool) : string :=
  match flag with true => "Y" | false => "N" end.

Definition spec_line (includeId : bool) (flags : User → RoleFlags) (u : User) : string :=
  String.concat ","
    ((if includeId then [discord_id u] else [])
     ++ [ js_text (address u); pretty (points u);
          flag_letter (wl_role (flags u)); flag_letter (ml_role (flags u));
          flag_letter (free_mint_role (flags u)) ]).

(** The flags [createCSV] resolves for a row. *)
Definition resolved_flags (membersMap : gmap string (gset string)) (u : User) : RoleFlags :=
  let roles := default ∅ (membersMap !! discord_id u) in
  {| wl_role := bool_decide (WHITELIST_ROLE_ID ∈ roles ∨ WL_WINNER_ROLE_ID ∈ roles);
     ml_role := bool_decide (MOOLALIST_ROLE_ID ∈ roles ∨ ML_WINNER_ROLE_ID ∈ roles);
     free_mint_role := bool_decide (FREE_MINT_ROLE_ID ∈ roles ∨ FREE_MINT_WINNER_ROLE_ID ∈ roles) |}.

(** ** /snapshot: which team is which *)



(** ** /fine and /transfer

    Both handlers read the rows they need before they write; their embedding
    returns the reply and the writes issued, in order.  The store is taken to
    answer every read and to apply every write: the [senderUpdateError],
    [receiverUpdateError] and [updateError] branches, which only change the
    reply, are left out.  [new Decimal(n)], [minus], [plus], [lessThan] and
    [toNumber] are exact on integers. *)

(** A single-row update of [points], set-absolute:
    [.update({ points: v }).eq("discord_id", id)]. *)
Record StoreWrite := mkWrite { write_id : string; write_points : Z }.

Definition apply_write (db : list User) (w : StoreWrite) : list User :=
  (λ u, if decide (discord_id u = write_id w)
        then {| discord_id := discord_id u; address := address u;
                points := write_points w; team := team u |}
        else u) <$> db.

Definition apply_writes (db : list User) (ws : list StoreWrite) : list User :=
  foldl apply_write db ws.

(** [.eq("discord_id", id).single()]: the row, or an error unless exactly one
    row matches. *)
Definition select_single (db : list User) (id : string) : option User :=
  match filter (λ u, discord_id u = id) db with
  | [u] => Some u
  | _ => None
  end.

(** What a command does: its reply and the store writes it issues, in order. *)
Record CommandResult := mkResult { reply : string; writes : list StoreWrite }.

(** [!amount] for [interaction.options.get("amount")?.value as number]. *)
Definition falsy_amount (amount : option Z) : bool :=
  match amount with
  | Some a => (a =? 0)%Z
  | None => true
  end.

Definition amount_value (amount : option Z) : Z := default 0%Z amount.

(** [/fine] *)
Definition fine (db : list User) (isAdmin : bool) (targetUser : option string)
    (amount : option Z) : CommandResult :=
  if negb isAdmin then
    {| reply := "You don't have permission to use this command."; writes := [] |}
  else
    match targetUser with
    | None => {| reply := "Please provide a valid user and a positive amount."; writes := [] |}
    | Some target =>
        if falsy_amount amount || (amount_value amount <=? 0)%Z then
          {| reply := "Please provide a valid user and a positive amount."; writes := [] |}
        else
          match select_single db target with
          | None => {| reply := "User not found or an error occurred."; writes := [] |}
          | Some userData =>
              let currentPoints := points userData in
              let fineAmount := amount_value amount in
              if (currentPoints <? fineAmount)%Z then
                {| reply := "The user doesn't have enough points for this fine.";
                   writes := [] |}
              else
                let updatedPoints := (currentPoints - fineAmount)%Z in
                {| reply := "Successfully fined <@" +:+ target +:+ "> "
                            +:+ pretty fineAmount +:+ " points. Their new balance is "
                            +:+ pretty updatedPoints +:+ " points.";
                   writes := [ {| write_id := target; write_points := updatedPoints |} ] |}
          end
    end.

(** [/transfer].  [.single()] answers no row with an error, so the
    "does not exist" reply behind [!receiverData] is never reached. *)
Definition transfer (db : list User) (isAdmin : bool) (userId : string)
    (targetUser : option string) (amount : option Z) : CommandResult :=
  if negb isAdmin then
    {| reply := "You don't have permission to use this command."; writes := [] |}
  else
    match targetUser with
    | None => {| reply := "Please provide a valid user and amount."; writes := [] |}
    | Some target =>
        if falsy_amount amount then
          {| reply := "Please provide a valid user and amount."; writes := [] |}
        else
          match select_single db userId with
          | None => {| reply := "An error occurred while fetching the sender."; writes := [] |}
          | Some senderData =>
              if (points senderData <? amount_value amount)%Z then
                {| reply := "Insufficient points to transfer."; writes := [] |}
              else
                match select_single db target with
                | None =>
                    {| reply := "An error occurred while fetching the receiver.";
                       writes := [] |}
                | Some receiverData =>
                    let updatedSenderPoints := (points senderData - amount_value amount)%Z in
                    let updatedReceiverPoints := (points receiverData + amount_value amount)%Z in
                    {| reply := "Successfully transferred " +:+ pretty (amount_value amount)
                                +:+ " points to <@" +:+ target +:+ ">.";
                       writes := [ {| write_id := userId; write_points := updatedSenderPoints |};
                                   {| write_id := target; write_points := updatedReceiverPoints |} ] |}
                end
          end
    end.

(** The balance of the row with this id, if there is exactly one. *)
Definition balance (db : list User) (id : string) : option Z :=
  points <$> select_single db id.

Definition counter_plus (a b : Counter) : Counter :=
  {| added := added a + added b; existing := existing a + existing b |}.

Definition log_plus (a b : RoleUpdateLog) : RoleUpdateLog :=
  {| whitelist := counter_plus (whitelist a) (whitelist b);
     moolalist := counter_plus (moolalist a) (moolalist b);
     freemint := counter_plus (freemint a) (freemint b) |}.

(** Every run of [m] takes the guild to an [R]-related one. *)
Definition preserves {A} (R : relation Guild) (m : Run A) : Prop :=
  ∀ s, R (rs_guild s) (rs_guild (m s).2).

(** ** Sample data *)

Definition six_roles : gset string :=
  {[ WHITELIST_ROLE_ID; MOOLALIST_ROLE_ID; FREE_MINT_ROLE_ID;
     WL_WINNER_ROLE_ID; ML_WINNER_ROLE_ID; FREE_MINT_WINNER_ROLE_ID ]}.

(** A gateway that accepts every call, and one that refuses every grant. *)
Definition gateway_up : Gateway := {| add_ok := λ _ _, true; batch_ok := λ _, true |}.
Definition gateway_refusing : Gateway := {| add_ok := λ _ _, false; batch_ok := λ _, true |}.

(** A gateway that refuses the free mint role and accepts every other grant. *)
Definition gateway_without_free_mint : Gateway :=
  {| add_ok := λ _ role, negb (String.eqb role FREE_MINT_ROLE_ID); batch_ok := λ _, true |}.

(** The spec's reconcile scenario: two members of one team, no roles held. *)
Definition scenario_db : list User :=
  [ mkUser "a" None 150 (Some bullas); mkUser "b" None 50 (Some bullas) ].
Definition scenario_guild : Guild :=
  {| guild_roles := six_roles; guild_members := {[ "a" := ∅; "b" := ∅ ]} |}.

(** One member who already holds the moolalist role. *)
Definition holder_db : list User := [ mkUser "a" None 150 (Some bullas) ].
Definition holder_guild : Guild :=
  {| guild_roles := six_roles;
     guild_members := {[ "a" := {[ MOOLALIST_ROLE_ID ]} ]} |}.


(** The caller's own rank as the spec words it: the 1-based position of the
    caller's id in the whole ranked sequence, with the row found there. *)
Definition own_rank (ranked : list User) (caller : string) : option (Z * User) :=
  (λ found, ((Z.of_nat found.1 + 1)%Z, found.2))
    <$> list_find (λ u, discord_id u = caller) ranked.

(** The rows [10 * k .. 10 * k + 9] of a sequence: its page [k + 1]. *)
Definition page_rows {A} (k : nat) (l : list A) : list A := take 10 (drop (10 * k) l).


(** Twenty-five bullas, none of them excluded. *)
Definition db25 : list User :=
  (λ i : nat, mkUser (pretty i) None (Z.of_nat (i * 3 mod 7)) (Some bullas)) <$> seq 0 25.

(** Two answers a store may give to an ordered query: rows of equal points as
    a merge sort of the matched rows leaves them, and as a merge sort of the
    same rows read backwards leaves them. *)
Definition merge_order : Ordering := merge_sort points_desc.
Definition merge_order_backwards : Ordering :=
  λ rows, merge_sort points_desc (reverse rows).



(** Twelve rows, no two with the same points. *)
Definition ladder_db : list User :=
  (λ i : nat, mkUser (pretty i) None (100 - Z.of_nat i) (Some bullas)) <$> seq 0 12.

(** No two different rows have the same points. *)
Definition tie_free (rows : list User) : Prop :=
  ∀ u v, u ∈ rows → v ∈ rows → points u = points v → u = v.

(** The population of a ranking as the spec words it: the rows of the store
    whose id is not on the exclusion list and, unless all teams are asked
    for, whose team is the one asked for. *)
Definition in_population (teamOption : TeamOption) (u : User) : Prop :=
  (discord_id u ∉ EXCLUDED_USER_IDS)
  ∧ match teamOption with team_all => True | team_only t => team u = Some t end.

Global Instance in_population_dec teamOption u : Decision (in_population teamOption u).
Proof. unfold in_population. destruct teamOption; apply _. Defined.

Definition population (db : list User) (teamOption : TeamOption) : list User :=
  filter (in_population teamOption) db.

(** How many of the rows have more points than [u], and how many have at
    least as many. *)
Definition count_above (rows : list User) (u : User) : Z :=
  Z.of_nat (length (filter (λ v, (points u < points v)%Z) rows)).
Definition count_not_below (rows : list User) (u : User) : Z :=
  Z.of_nat (length (filter (λ v, (points u ≤ points v)%Z) rows)).

(** The spec's CSV scenario: one linked row, its member without roles. *)
Definition csv_scenario_data : list User := [ mkUser "1" (Some "0xABC") 10 None ].
Definition csv_scenario_guild : Guild :=
  {| guild_roles := six_roles; guild_members := {[ "1" := ∅ ]} |}.

(** The same row, its member holding the whitelist role and the moolalist
    winner role. *)
Definition csv_holder_guild : Guild :=
  {| guild_roles := six_roles;
     guild_members := {[ "1" := {[ WHITELIST_ROLE_ID; ML_WINNER_ROLE_ID ]} ]} |}.

(** The spec's fine scenario: a balance of 30. *)
Definition fine_scenario_db : list User := [ mkUser "u" (Some "0xABC") 30 (Some bullas) ].

(** An admin with 100 points and a receiver with 50. *)
Definition transfer_db : list User :=
  [ mkUser "admin" None 100 (Some bullas); mkUser "v" None 50 (Some beras) ].

(** ** What a run may change

    From [g] to [g']: the role cache and the set of members are the same;
    each member loses at most roles of [minus] and gains at most roles of
    [plus]; a member whose id is not in [ids] holds exactly what it held. *)
Definition changed_within (ids : list string) (plus minus : gset string)
    (g g' : Guild) : Prop :=
  guild_roles g' = guild_roles g
  ∧ ∀ id,
      match guild_members g !! id, guild_members g' !! id with
      | Some roles, Some roles' =>
          roles ∖ minus ⊆ roles' ∧ roles' ⊆ roles ∪ plus ∧ (id ∉ ids → roles' = roles)
      | None, None => True
      | _, _ => False
      end.

(** The three roles [updateRoles] grants. *)
Definition base_roles : gset string :=
  {[ WHITELIST_ROLE_ID; MOOLALIST_ROLE_ID; FREE_MINT_ROLE_ID ]}.

(** The roles a member holds after its threshold block for [c]: the base role
    is new when the verdict is "added". *)
Definition after_block (c : Category) (pts threshold : Z) (roles : gset string)
    : gset string :=
  match verdict roles pts threshold c with
  | Some Added => {[ base_role c ]} ∪ roles
  | _ => roles
  end.

(** The roles a member holds after its three blocks, all grants accepted. *)
Definition reconciled_roles (wl ml fm pts : Z) (roles : gset string) : gset string :=
  after_block Freemint pts fm (after_block Moolalist pts ml (after_block Whitelist pts wl roles)).

(** What a real run with every grant accepted leaves at a player's id. *)
Definition expected_member (wl ml fm : Z) (p : User) (g : Guild) : option (gset string) :=
  if truthy (discord_id p)
  then reconciled_roles wl ml fm (points p) <$> guild_members g !! discord_id p
  else guild_members g !! discord_id p.

(** Counter by counter, [a] reports at most what [b] reports. *)
Definition counter_le (a b : Counter) : Prop :=
  (added a ≤ added b)%nat ∧ (existing a ≤ existing b)%nat.

Definition log_le (a b : RoleUpdateLog) : Prop :=
  counter_le (whitelist a) (whitelist b)
  ∧ counter_le (moolalist a) (moolalist b)
  ∧ counter_le (freemint a) (freemint b).

(** ** More role constants *)

Definition MOOTARD_ROLE_ID : string := "1281979123534925967".
Definition NEW_WANKME_ROLE_ID : string := "1328471474947883120".
Definition BULL_ROLE_ID : string := "1230207362145452103".
Definition BEAR_ROLE_ID : string := "1230207106896892006".

Definition ADMIN_ROLE_IDS : list string :=
  [ "1230906668066406481"; "1230195803877019718";
    "1230906465334853785"; "1234239721165815818" ].

(** [hasAdminRole(member)]: [None] stands for [null] and for a member object
    without a role manager; otherwise the member's role cache. *)
Definition hasAdminRole (member : option (gset string)) : bool :=
  match member with
  | Some roles => bool_decide (Exists (λ role, role ∈ ADMIN_ROLE_IDS) (elements roles))
  | None => false
  end.

(** ** /alreadywanked *)

(** [addedCount], [existingCount], [errorCount]. *)
Record Tally := mkTally { addedCount : nat; existingCount : nat; errorCount : nat }.

Definition no_tally : Tally := {| addedCount := 0; existingCount := 0; errorCount := 0 |}.

Definition tally_added (t : Tally) : Tally :=
  {| addedCount := S (addedCount t); existingCount := existingCount t;
     errorCount := errorCount t |}.
Definition tally_existing (t : Tally) : Tally :=
  {| addedCount := addedCount t; existingCount := S (existingCount t);
     errorCount := errorCount t |}.
Definition tally_error (t : Tally) : Tally :=
  {| addedCount := addedCount t; existingCount := existingCount t;
     errorCount := S (errorCount t) |}.

(** [await guild.members.fetch(id)] as a value: the member's roles, or nothing
    when the fetch rejects.  An empty id names no member. *)
Definition resolve_member (g : Guild) (id : string) : option (gset string) :=
  if truthy id then guild_members g !! id else None.

(** [.from("users").select("discord_id").not("address", "is", null)] *)
Definition verified_ids (db : list User) : list string :=
  discord_id <$> filter (λ u, is_Some (address u)) db.

(** The loop body of the later revision:
<<
  try {
    const member = await guild.members.fetch(user.discord_id);
    if (member) {
      if (!member.roles.cache.has(NEW_WANKME_ROLE_ID)) {
        await member.roles.add(newRole); addedCount++;
      } else { existingCount++; }
    }
  } catch (err) { errorCount++; }
>> *)
Definition wanked_user (gw : Gateway) (st : Guild * Tally) (id : string) : Guild * Tally :=
  match resolve_member st.1 id with
  | None => (st.1, tally_error st.2)
  | Some roles =>
      if negb (bool_decide (NEW_WANKME_ROLE_ID ∈ roles)) then
        if add_ok gw id NEW_WANKME_ROLE_ID
        then (grant id NEW_WANKME_ROLE_ID st.1, tally_added st.2)
        else (st.1, tally_error st.2)
      else (st.1, tally_existing st.2)
  end.

Inductive WankedReply :=
  | WankedNoPermission
  | WankedNoRole
  | WankedComplete (counts : Tally) (processed : nat).

(** [/alreadywanked], later revision: one pass over the verified users in
    store order; the embed reports the three counters and
    [verifiedUsers.length]. *)
Definition alreadywanked (gw : Gateway) (db : list User) (g : Guild) (isAdmin : bool)
    : WankedReply * Guild :=
  if negb isAdmin then (WankedNoPermission, g)
  else if negb (bool_decide (NEW_WANKME_ROLE_ID ∈ guild_roles g)) then (WankedNoRole, g)
  else
    let verifiedUsers := verified_ids db in
    let st := foldl (wanked_user gw) (g, no_tally) verifiedUsers in
    (WankedComplete st.2 (length verifiedUsers), st.1).

(** The loop body of the earlier revision:
<<
  if (!user?.discord_id) { totalErrors++; continue; }
  try {
    const member = await guild.members.fetch(user.discord_id).catch(() => null);
    if (member) {
      if (!member.roles.cache.has(NEW_WANKME_ROLE_ID)) {
        await member.roles.add(newRole); totalAdded++;
      } else { totalExisting++; }
    } else { totalErrors++; }
  } catch (err) { totalErrors++; }
>> *)
Definition wanked_user_paged (gw : Gateway) (st : Guild * Tally) (id : string)
    : Guild * Tally :=
  if negb (truthy id) then (st.1, tally_error st.2)
  else
    match guild_members st.1 !! id with
    | Some roles =>
        if negb (bool_decide (NEW_WANKME_ROLE_ID ∈ roles)) then
          if add_ok gw id NEW_WANKME_ROLE_ID
          then (grant id NEW_WANKME_ROLE_ID st.1, tally_added st.2)
          else (st.1, tally_error st.2)
        else (st.1, tally_existing st.2)
    | None => (st.1, tally_error st.2)
    end.

(** [.order('discord_id', { ascending: true })] *)
Definition id_ascending (a b : string) : Prop := String.leb a b = true.

Global Instance id_ascending_dec a b : Decision (id_ascending a b).
Proof. unfold id_ascending. apply _. Defined.

Definition verified_ids_ordered (db : list User) : list string :=
  merge_sort id_ascending (verified_ids db).

(** The state of the paged run: guild, counters and [processedTotal]. *)
Record PagedRun := mkPagedRun {
  pr_guild : Guild;
  pr_counts : Tally;
  processedTotal : nat;
}.

(** [for (let i = 0; i < verifiedUsers.length; i += batchSize)], batches of
    100; after each batch [processedTotal += batch.length]. *)
Fixpoint wanked_batches (fuel : nat) (gw : Gateway) (verifiedUsers : list string)
    (i : nat) (run : PagedRun) : PagedRun :=
  match fuel with
  | 0 => run
  | S fuel' =>
      if bool_decide (i < length verifiedUsers)%nat then
        let batch := take 100 (drop i verifiedUsers) in
        let st := foldl (wanked_user_paged gw) (pr_guild run, pr_counts run) batch in
        wanked_batches fuel' gw verifiedUsers (i + 100)
          {| pr_guild := st.1; pr_counts := st.2;
             processedTotal := processedTotal run + length batch |}
      else run
  end.

(** [while (hasMore)]: read the next 1000 ordered ids from [processedTotal]
    on; stop at an empty chunk. *)
Fixpoint wanked_chunks (fuel : nat) (gw : Gateway) (ordered : list string)
    (run : PagedRun) : PagedRun :=
  match fuel with
  | 0 => run
  | S fuel' =>
      let verifiedUsers := take 1000 (drop (processedTotal run) ordered) in
      if bool_decide (length verifiedUsers = 0)%nat then run
      else
        wanked_chunks fuel' gw ordered
          (wanked_batches (length verifiedUsers) gw verifiedUsers 0 run)
  end.

(** [/alreadywanked], earlier revision; the final embed reports the three
    totals and [processedTotal].  One round of the outer loop per verified
    user, and one more, is enough. *)
Definition alreadywanked_paged (gw : Gateway) (db : list User) (g : Guild) (isAdmin : bool)
    : WankedReply * Guild :=
  if negb isAdmin then (WankedNoPermission, g)
  else if negb (bool_decide (NEW_WANKME_ROLE_ID ∈ guild_roles g)) then (WankedNoRole, g)
  else
    let ordered := verified_ids_ordered db in
    let run := wanked_chunks (S (length ordered)) gw ordered
                 {| pr_guild := g; pr_counts := no_tally; processedTotal := 0 |} in
    (WankedComplete (pr_counts run) (processedTotal run), pr_guild run).

(** ** /purgezerobalance *)

(** [.eq("points", 0).or("team.eq.bullas,team.eq.beras")] *)
Definition zero_balance_users (db : list User) : list User :=
  filter (λ u, points u = 0%Z ∧ (team u = Some bullas ∨ team u = Some beras)) db.

Definition revoke (member role : string) (g : Guild) : Guild :=
  {| guild_roles := guild_roles g;
     guild_members := alter (λ rs, rs ∖ {[role]}) member (guild_members g) |}.

(** The loop body; [remove_ok id role] tells whether
    [member.roles.remove(role)] resolves.
<<
  try {
    const member = await interaction.guild?.members.fetch(user.discord_id);
    if (member) {
      if (user.team === "bullas" && member.roles.cache.has(BULL_ROLE_ID)) {
        await member.roles.remove(BULL_ROLE_ID); removedCount++;
      } else if (user.team === "beras" && member.roles.cache.has(BEAR_ROLE_ID)) {
        await member.roles.remove(BEAR_ROLE_ID); removedCount++;
      }
    }
  } catch (roleRemoveErr) { ... }
>> *)
Definition purge_user (remove_ok : string → string → bool) (st : Guild * nat) (user : User)
    : Guild * nat :=
  match resolve_member st.1 (discord_id user) with
  | None => st
  | Some roles =>
      if bool_decide (team user = Some bullas) && bool_decide (BULL_ROLE_ID ∈ roles) then
        if remove_ok (discord_id user) BULL_ROLE_ID
        then (revoke (discord_id user) BULL_ROLE_ID st.1, S st.2)
        else st
      else if bool_decide (team user = Some beras) && bool_decide (BEAR_ROLE_ID ∈ roles) then
        if remove_ok (discord_id user) BEAR_ROLE_ID
        then (revoke (discord_id user) BEAR_ROLE_ID st.1, S st.2)
        else st
      else st
  end.

(** [/purgezerobalance]: [None] for the permission reply, else [removedCount];
    and the guild as the command leaves it. *)
Definition purgezerobalance (remove_ok : string → string → bool) (db : list User) (g : Guild)
    (isAdmin : bool) : option nat * Guild :=
  if negb isAdmin then (None, g)
  else
    let st := foldl (purge_user remove_ok) (g, 0) (zero_balance_users db) in
    (Some st.2, st.1).

(** The team role a zero-balance row loses. *)
Definition team_role (t : Team) : string :=
  match t with bullas => BULL_ROLE_ID | beras => BEAR_ROLE_ID end.

(** How many of the ids resolve to a member of the guild, and how many do not. *)
Definition count_resolved (g : Guild) (ids : list string) : nat :=
  length (filter (λ id, is_Some (resolve_member g id)) ids).
Definition count_unresolved (g : Guild) (ids : list string) : nat :=
  length (filter (λ id, ¬ is_Some (resolve_member g id)) ids).

(** A guild of three members: one holds the new role already, one is a
    bulla, one a bera; and a store that also names a member who left. *)
Definition wanked_guild : Guild :=
  {| guild_roles := {[ NEW_WANKME_ROLE_ID; BULL_ROLE_ID; BEAR_ROLE_ID ]};
     guild_members := {[ "1" := {[ NEW_WANKME_ROLE_ID ]};
                         "2" := {[ BULL_ROLE_ID ]};
                         "3" := {[ BEAR_ROLE_ID; NEW_WANKME_ROLE_ID ]} ]} |}.
Definition wanked_db : list User :=
  [ mkUser "1" (Some "0xA") 5 (Some bullas);
    mkUser "2" (Some "0xB") 0 (Some bullas);
    mkUser "3" (Some "0xC") 0 (Some beras);
    mkUser "4" (Some "0xD") 0 (Some beras);
    mkUser "5" None 7 None ].

Definition removal_up : string → string → bool := λ _ _, true.

(** ** Button ids

    The commands put their arguments in the [customId] of the buttons they
    show; the button handler takes them back with [split("_")] and
    [parseInt]. *)

(** [s.split("_")] for a one-character separator. *)
Fixpoint js_split (sep : Ascii.ascii) (s : string) : list string :=
  match s with
  | EmptyString => [EmptyString]
  | String c rest =>
      if Ascii.eqb c sep then EmptyString :: js_split sep rest
      else match js_split sep rest with
           | piece :: pieces => String c piece :: pieces
           | [] => [String c EmptyString]
           end
  end.

Definition underscore : Ascii.ascii := Ascii.ascii_of_nat 95.

Definition digit_of (c : Ascii.ascii) : option N :=
  let n := Ascii.N_of_ascii c in
  if bool_decide (48 ≤ n ≤ 57)%N then Some (n - 48)%N else None.

(** The decimal digits at the head of a string, read left to right; [None]
    when there is none. *)
Fixpoint parse_digits (acc : option N) (s : string) : option N :=
  match s with
  | String c rest =>
      match digit_of c with
      | Some d => parse_digits (Some (10 * default 0%N acc + d)%N) rest
      | None => acc
      end
  | EmptyString => acc
  end.

(** [parseInt(s)] on the strings the bot builds: an optional sign and decimal
    digits; [None] is [NaN].  (Leading white space and the [0x] prefix, which
    [parseInt] also accepts, do not occur in them.) *)
Definition parseInt (s : string) : option Z :=
  match s with
  | String c rest =>
      if Ascii.eqb c (Ascii.ascii_of_nat 45) then (λ n, (- Z.of_N n)%Z) <$> parse_digits None rest
      else if Ascii.eqb c (Ascii.ascii_of_nat 43) then Z.of_N <$> parse_digits None rest
      else Z.of_N <$> parse_digits None s
  | EmptyString => None
  end.

Definition team_type_string (t : TeamType) : string :=
  match t with winning => "winning" | losing => "losing" end.

(** [teamType === "winning" ? ... : ...] in [updateRoles]: any other string
    takes the branch of the losing team. *)
Definition team_type_of_string (s : string) : TeamType :=
  if String.eqb s "winning" then winning else losing.

(** [`confirm_update_${team}_${wlThreshold}_${mlThreshold}_${freemintThreshold}`] *)
Definition confirm_custom_id (t : TeamType) (wl ml fm : Z) : string :=
  "confirm_update_" +:+ team_type_string t +:+ "_" +:+ pretty wl
    +:+ "_" +:+ pretty ml +:+ "_" +:+ pretty fm.

(** What [/updateroles] shows: the simulation log and the id of the
    "Proceed with Update" button; [None] for the permission reply. *)
Definition updateroles_command (gw : Gateway) (db : list User) (g : Guild) (isAdmin : bool)
    (t : TeamType) (wl ml fm : Z) : option (RoleUpdateLog * string) :=
  if negb isAdmin then None
  else
    let simulationLog := (updateRoles gw db g t wl ml fm true).1 in
    Some (simulationLog, confirm_custom_id t wl ml fm).

(** The "Proceed with Update" button:
    [const [, , team, wl, ml, freemint] = interaction.customId.split("_")], then
    [updateRoles(guild, team, parseInt(wl), parseInt(ml), parseInt(freemint), false)].
    [None] for the permission reply, and for an id with a piece missing or not
    a number, which the bot does not build. *)
Definition confirm_update (gw : Gateway) (db : list User) (g : Guild) (isAdmin : bool)
    (customId : string) : option (RoleUpdateLog * Guild) :=
  if negb isAdmin then None
  else
    match js_split underscore customId with
    | _ :: _ :: team :: wl :: ml :: freemint :: _ =>
        match parseInt wl, parseInt ml, parseInt freemint with
        | Some wlThreshold, Some mlThreshold, Some freemintThreshold =>
            Some (updateRoles gw db g (team_type_of_string team)
                    wlThreshold mlThreshold freemintThreshold false)
        | _, _, _ => None
        end
    | _ => None
    end.

Definition team_option_string (t : TeamOption) : string :=
  match t with
  | team_all => "all"
  | team_only bullas => "bullas"
  | team_only beras => "beras"
  end.

Definition team_option_of_string (s : string) : option TeamOption :=
  if String.eqb s "all" then Some team_all
  else if String.eqb s "bullas" then Some (team_only bullas)
  else if String.eqb s "beras" then Some (team_only beras)
  else None.

(** [`prev_${teamOption}_${page}`] and [`next_${teamOption}_${page}`] *)
Definition page_custom_id (action : PageAction) (teamOption : TeamOption) (page : Z) : string :=
  match action with prev => "prev_" | next => "next_" end
    +:+ team_option_string teamOption +:+ "_" +:+ pretty page.

(** The leaderboard buttons, from the id clicked:
    [const [action, teamOption, currentPage] = interaction.customId.split("_")];
    [None] when the id is not one of theirs. *)
Definition leaderboard_click (rankOrder pageOrder : Ordering) (db : list User)
    (caller owner : string) (customId : string) : option LeaderboardReply :=
  match js_split underscore customId with
  | action :: teamOption :: currentPage :: _ =>
      match (if String.eqb action "prev" then Some prev
             else if String.eqb action "next" then Some next else None),
            team_option_of_string teamOption, parseInt currentPage with
      | Some act, Some t, Some page =>
          Some (leaderboard_button rankOrder pageOrder db caller owner act t page)
      | _, _, _ => None
      end
  | _ => None
  end.

(** Whether the character occurs in the string. *)
Fixpoint contains_char (c : Ascii.ascii) (s : string) : bool :=
  match s with
  | EmptyString => false
  | String c' rest => Ascii.eqb c' c || contains_char c rest
  end.

(** The points of all rows together. *)
Definition total_points (db : list User) : Z := foldr (λ u acc, (points u + acc)%Z) 0%Z db.

(** ** [maskAddress]

    [address.slice(0, n)] and [address.slice(-n)], on the characters of the
    string. *)
Definition slice_head (n : nat) (s : string) : string :=
  String.string_of_list_ascii (take n (String.list_ascii_of_string s)).

Definition slice_tail (n : nat) (s : string) : string :=
  String.string_of_list_ascii
    (drop (length (String.list_ascii_of_string s) - n) (String.list_ascii_of_string s)).

Definition maskAddress (address : string) : string :=
  if bool_decide (String.length address < 8)%nat then address
  else slice_head 6 address +:+ "..." +:+ slice_tail 4 address.

(** ** /updatewhitelistminimum

    The reply and the value of [WHITELIST_MINIMUM] after the command. *)
Definition updatewhitelistminimum (isAdmin : bool) (minimum : option Z)
    (WHITELIST_MINIMUM : Z) : string * Z :=
  if negb isAdmin then ("You don't have permission to use this command.", WHITELIST_MINIMUM)
  else if falsy_amount minimum || (amount_value minimum <=? 0)%Z then
    ("Please provide a valid positive integer for the new minimum.", WHITELIST_MINIMUM)
  else
    ("Whitelist minimum updated to " +:+ pretty (amount_value minimum) +:+ " MOOLA.",
     amount_value minimum).

(** [let WHITELIST_MINIMUM = 100], then the commands in the order they come. *)
Definition whitelist_minimum_after (commands : list (bool * option Z)) : Z :=
  foldl (λ current command, (updatewhitelistminimum command.1 command.2 current).2)
        100%Z commands.

(** ** /wankme and /updatewallet: link tokens *)

Record Token := mkToken { token : string; token_discord_id : string; used : bool }.

Inductive LinkReply :=
  | RoleRestored
  | AlreadyLinked (masked : string)
  | NeedLinkFirst
  | LinkSent (url : string).

(** [/updatewallet]; [uuid] is the fresh [v4()], [VERCEL_URL] the configured
    site.  The store is taken to accept the insert. *)
Definition updatewallet (VERCEL_URL : string) (db : list User) (tokens : list Token)
    (userId uuid : string) : LinkReply * list Token :=
  match select_single db userId with
  | None => (NeedLinkFirst, tokens)
  | Some _ =>
      (LinkSent (VERCEL_URL +:+ "/update-wallet?token=" +:+ uuid +:+ "&discord=" +:+ userId),
       (tokens ++ [ {| token := uuid; token_discord_id := userId; used := false |} ])%list)
  end.

(** [member.roles.cache.has(role)] for the member as the guild has it. *)
Definition holds_role (g : Guild) (member role : string) : bool :=
  bool_decide (role ∈ default ∅ (guild_members g !! member)).

(** What the timer of [/wankme] does once a read finds the caller's row:
<<
  clearInterval(checkInterval);
  try {
    const member = interaction.member as GuildMember;
    const newRole = interaction.guild?.roles.cache.get(NEW_WANKME_ROLE_ID);
    if (member && newRole && !member.roles.cache.has(NEW_WANKME_ROLE_ID)) {
      await member.roles.add(newRole);
    }
    const mootardRole = interaction.guild?.roles.cache.get(MOOTARD_ROLE_ID);
    if (member && mootardRole && member.roles.cache.has(MOOTARD_ROLE_ID)) {
      await member.roles.remove(mootardRole);
    }
    await interaction.followUp(...);
  } catch (error) { ... }
>>
    [remove_ok id role] tells whether [member.roles.remove(role)] resolves; a
    refused grant throws past the removal. *)
Definition verified_roles (gw : Gateway) (remove_ok : string → string → bool)
    (g : Guild) (userId : string) : Guild :=
  match guild_members g !! userId with
  | None => g
  | Some _ =>
      let added :=
        if bool_decide (NEW_WANKME_ROLE_ID ∈ guild_roles g)
           && negb (holds_role g userId NEW_WANKME_ROLE_ID) then
          if add_ok gw userId NEW_WANKME_ROLE_ID
          then Some (grant userId NEW_WANKME_ROLE_ID g)
          else None
        else Some g in
      match added with
      | None => g
      | Some g1 =>
          if bool_decide (MOOTARD_ROLE_ID ∈ guild_roles g1)
             && holds_role g1 userId MOOTARD_ROLE_ID then
            if remove_ok userId MOOTARD_ROLE_ID
            then revoke userId MOOTARD_ROLE_ID g1
            else g1
          else g1
      end
  end.

(** The timer: [setInterval(..., 5000)], cleared after five minutes.  Every
    tick reads the caller's row; [polls] are the states of the store the
    successive reads find, one for each tick the timer lives to make (sixty
    at most), each read answered before the next tick.  The first read that
    finds the row clears the timer and updates the roles. *)
Fixpoint wankme_poll (gw : Gateway) (remove_ok : string → string → bool)
    (polls : list (list User)) (g : Guild) (userId : string) : Guild :=
  match polls with
  | [] => g
  | db :: later =>
      match select_single db userId with
      | Some _ => verified_roles gw remove_ok g userId
      | None => wankme_poll gw remove_ok later g userId
      end
  end.

(** [/wankme]: its reply, the tokens, and the guild as the command and its
    timer leave it.  A linked user gets the new role back if it is missing (a
    refused grant falls through to the "already linked" reply); an unlinked
    user gets a token and a link, and the timer is started. *)
Definition wankme (gw : Gateway) (remove_ok : string → string → bool) (VERCEL_URL : string)
    (db : list User) (polls : list (list User)) (tokens : list Token)
    (g : Guild) (userId uuid : string) : LinkReply * list Token * Guild :=
  match select_single db userId with
  | Some userData =>
      let already := AlreadyLinked (js_text (maskAddress <$> address userData)) in
      match guild_members g !! userId with
      | Some roles =>
          if bool_decide (NEW_WANKME_ROLE_ID ∈ guild_roles g)
             && negb (bool_decide (NEW_WANKME_ROLE_ID ∈ roles)) then
            if add_ok gw userId NEW_WANKME_ROLE_ID
            then (RoleRestored, tokens, grant userId NEW_WANKME_ROLE_ID g)
            else (already, tokens, g)
          else (already, tokens, g)
      | None => (already, tokens, g)
      end
  | None =>
      (LinkSent (VERCEL_URL +:+ "/game?token=" +:+ uuid +:+ "&discord=" +:+ userId),
       (tokens ++ [ {| token := uuid; token_discord_id := userId; used := false |} ])%list,
       wankme_poll gw remove_ok polls g userId)
  end.

(** A guild whose one member holds the unverified role, and the store before
    and after that member has linked. *)
Definition newcomer_guild : Guild :=
  {| guild_roles := {[ NEW_WANKME_ROLE_ID; MOOTARD_ROLE_ID ]};
     guild_members := {[ "n" := {[ MOOTARD_ROLE_ID ]} ]} |}.
Definition newcomer_linked_db : list User := [ mkUser "n" (Some "0xN") 0 None ].

(** * Theorems *)

(** ** What a run does to the guild *)

Section preserves.
Context (R : relation Guild) `{!PreOrder R}.

Lemma preserves_ret {A} (a : A) : preserves R (mret a).
Proof. intros s. simpl. reflexivity. Qed.

Lemma preserves_bind {A B} (m : Run A) (f : A → Run B) :
  preserves R m → (∀ a, preserves R (f a)) → preserves R (m ≫= f).
Proof.
  intros Hm Hf s. unfold mbind, Run_bind.
  specialize (Hm s). destruct (m s) as [[a|] s1]; simpl in *; [|done].
  etrans; [exact Hm|]. apply Hf.
Qed.

Lemma preserves_try_catch (m : Run ()) : preserves R m → preserves R (try_catch m).
Proof.
  intros Hm s. unfold try_catch. specialize (Hm s).
  by destruct (m s) as [[[]|] s1].
Qed.

Lemma preserves_members_fetch id : preserves R (members_fetch id).
Proof.
  intros s. unfold members_fetch.
  destruct (guild_members (rs_guild s) !! id); simpl; reflexivity.
Qed.

Lemma preserves_roles_cache_has member role : preserves R (roles_cache_has member role).
Proof. intros s. simpl. reflexivity. Qed.

Lemma preserves_modify_log f : preserves R (modify_log f).
Proof. intros s. simpl. reflexivity. Qed.

Lemma preserves_roles_add gw member role :
  (∀ g, R g (grant member role g)) → preserves R (roles_add gw member role).
Proof.
  intros Hg s. unfold roles_add. destruct (add_ok gw member role); simpl; [apply Hg|reflexivity].
Qed.

Lemma preserves_threshold_block gw sim p member thr B W cat :
  (∀ g, R g (grant member B g)) →
  preserves R (threshold_block gw sim p member thr B W cat).
Proof.
  intros Hg. unfold threshold_block. case_bool_decide; [|apply preserves_ret].
  apply preserves_bind; [apply preserves_roles_cache_has|intros hb].
  apply preserves_bind; [apply preserves_roles_cache_has|intros hw].
  destruct (negb hb && negb hw); [|apply preserves_modify_log].
  apply preserves_bind; [|intros _; apply preserves_modify_log].
  destruct (negb sim); [by apply preserves_roles_add|apply preserves_ret].
Qed.

Lemma preserves_fetch_bind {B} id (f : string → Run B) :
  preserves R (f id) → preserves R (members_fetch id ≫= f).
Proof.
  intros Hf s. unfold mbind, Run_bind, members_fetch.
  destruct (guild_members (rs_guild s) !! id); simpl; [apply Hf|reflexivity].
Qed.

Lemma preserves_process_player gw sim wl ml fm p :
  (∀ role g, R g (grant (discord_id p) role g)) →
  preserves R (process_player gw sim wl ml fm p).
Proof.
  intros Hg. unfold process_player. destruct (truthy _); [|apply preserves_ret].
  apply preserves_try_catch, preserves_fetch_bind.
  repeat (apply preserves_bind; [|intros _]);
    by apply preserves_threshold_block.
Qed.

Lemma preserves_for_players body players :
  (∀ p, p ∈ players → preserves R (body p)) → preserves R (for_players body players).
Proof.
  induction players as [|p rest IH]; intros Hbody; simpl; [apply preserves_ret|].
  apply preserves_bind; [apply Hbody; left|intros _].
  apply IH. intros q Hq. apply Hbody. by right.
Qed.
End preserves.

Global Instance roles_kept_preorder : PreOrder roles_kept.
Proof.
  split.
  - intros g id roles Hid. eauto.
  - intros g1 g2 g3 H12 H23 id roles Hid.
    destruct (H12 _ _ Hid) as (r2 & H2 & Hsub2).
    destruct (H23 _ _ H2) as (r3 & H3 & Hsub3).
    exists r3. split; [done|set_solver].
Qed.

Global Instance same_off_preorder id : PreOrder (same_off id).
Proof.
  split.
  - by intros g id' Hne.
  - intros g1 g2 g3 H12 H23 id' Hne. by rewrite H23, H12.
Qed.

Lemma grant_roles_kept member role g : roles_kept g (grant member role g).
Proof.
  intros id roles Hid. unfold grant; simpl.
  destruct (decide (id = member)) as [->|Hne].
  - exists ({[role]} ∪ roles). rewrite lookup_alter_eq, Hid. split; [done|set_solver].
  - exists roles. by rewrite lookup_alter_ne.
Qed.

Lemma grant_same_off member role g : same_off member g (grant member role g).
Proof. intros id Hne. unfold grant; simpl. by rewrite lookup_alter_ne. Qed.

Lemma for_players_roles_kept gw sim wl ml fm players s :
  roles_kept (rs_guild s)
    (rs_guild (for_players (process_player gw sim wl ml fm) players s).2).
Proof.
  apply (preserves_for_players roles_kept). intros p _.
  apply preserves_process_player; [apply _|]. intros. apply grant_roles_kept.
Qed.

Lemma process_player_same_off gw sim wl ml fm p s :
  same_off (discord_id p) (rs_guild s)
    (rs_guild (process_player gw sim wl ml fm p s).2).
Proof.
  apply (preserves_process_player (same_off (discord_id p))).
  intros. apply grant_same_off.
Qed.

(** ** The log of a run *)

Lemma verdict_stable roles roles' pts thr c :
  roles ⊆ roles' →
  (∀ r, r ∈ roles' → r ∉ roles → r ≠ base_role c ∧ r ≠ winner_role c) →
  verdict roles' pts thr c = verdict roles pts thr c.
Proof.
  intros Hsub Hnew. unfold verdict. case_bool_decide; [|done].
  assert (base_role c ∈ roles' ∨ winner_role c ∈ roles'
          ↔ base_role c ∈ roles ∨ winner_role c ∈ roles) as Hiff.
  { split; [|intros [?|?]; [left|right]; by apply Hsub]. intros [Hin|Hin].
    - destruct (decide (base_role c ∈ roles)); [by left|]. by destruct (Hnew _ Hin).
    - destruct (decide (winner_role c ∈ roles)); [by right|]. by destruct (Hnew _ Hin). }
  by rewrite (bool_decide_ext _ _ Hiff).
Qed.

Lemma threshold_block_run gw sim p member thr c cat s roles :
  guild_members (rs_guild s) !! member = Some roles →
  (sim = false → verdict roles (points p) thr c = Some Added →
   add_ok gw member (base_role c) = true) →
  ∃ s' roles',
    threshold_block gw sim p member thr (base_role c) (winner_role c) cat s
      = (Returned (), s')
    ∧ rs_log s' = match verdict roles (points p) thr c with
                  | Some Added => cat incr_added (rs_log s)
                  | Some Existing => cat incr_existing (rs_log s)
                  | None => rs_log s
                  end
    ∧ guild_members (rs_guild s') !! member = Some roles'
    ∧ roles ⊆ roles'
    ∧ (∀ r, r ∈ roles' → r ∉ roles → r = base_role c).
Proof.
  intros Hm Hok. unfold threshold_block, verdict.
  case_bool_decide as Hthr.
  2:{ exists s, roles. simpl. split_and!; [done..|by intros r ? ?]. }
  unfold mbind, Run_bind, roles_cache_has. rewrite Hm. simpl.
  destruct (decide (base_role c ∈ roles)) as [Hb|Hb].
  { rewrite (bool_decide_eq_true_2 _ Hb). simpl.
    rewrite bool_decide_eq_true_2 by (by left).
    eexists _, roles. split_and!; [done..|by intros r ? ?]. }
  rewrite (bool_decide_eq_false_2 _ Hb). simpl.
  destruct (decide (winner_role c ∈ roles)) as [Hw|Hw].
  { rewrite (bool_decide_eq_true_2 _ Hw). simpl.
    rewrite bool_decide_eq_true_2 by (by right).
    eexists _, roles. split_and!; [done..|by intros r ? ?]. }
  rewrite (bool_decide_eq_false_2 _ Hw). simpl.
  rewrite bool_decide_eq_false_2 by tauto.
  destruct sim; simpl.
  { eexists _, roles. split_and!; [done..|by intros r ? ?]. }
  unfold roles_add. rewrite Hok; [|done|].
  2:{ unfold verdict. rewrite bool_decide_eq_true_2 by done.
      by rewrite bool_decide_eq_false_2 by tauto. }
  simpl.
  eexists _, ({[base_role c]} ∪ roles). split_and!; [done|done| |apply union_subseteq_r|].
  2:{ intros r [Hr%elem_of_singleton|Hr]%elem_of_union Hnr; done. }
  unfold grant; simpl. by rewrite lookup_alter_eq, Hm.
Qed.

Lemma process_player_returns gw sim wl ml fm p s :
  (process_player gw sim wl ml fm p s).1 = Returned ().
Proof.
  unfold process_player. destruct (truthy _); [|done].
  unfold try_catch.
  by destruct ((members_fetch (discord_id p) ≫= _) s) as [[[]|] s'].
Qed.

Lemma spec_step_none g wl ml fm log p :
  (∀ c thr, member_verdict g thr c p = None) → spec_step g wl ml fm log p = log.
Proof. intros H. unfold spec_step. rewrite !H. by destruct log. Qed.

(** One player: the log moves by the spec's step, read against the guild the
    step starts from, when every grant the step issues is accepted. *)
Lemma process_player_log gw sim wl ml fm p s :
  (sim = false → ∀ c,
     member_verdict (rs_guild s) (threshold_of wl ml fm c) c p = Some Added →
     add_ok gw (discord_id p) (base_role c) = true) →
  rs_log (process_player gw sim wl ml fm p s).2
  = spec_step (rs_guild s) wl ml fm (rs_log s) p.
Proof.
  intros Hok. unfold process_player.
  destruct (truthy (discord_id p)) eqn:Hid.
  2:{ simpl. symmetry. apply spec_step_none. intros. unfold member_verdict. by rewrite Hid. }
  unfold try_catch, mbind at 1, Run_bind at 1, members_fetch.
  destruct (guild_members (rs_guild s) !! discord_id p) as [roles|] eqn:Hm.
  2:{ simpl. symmetry. apply spec_step_none. intros. unfold member_verdict.
      by rewrite Hid, Hm. }
  assert (∀ c, sim = false → verdict roles (points p) (threshold_of wl ml fm c) c = Some Added →
               add_ok gw (discord_id p) (base_role c) = true) as Hok'.
  { intros c Hsim Hv. apply (Hok Hsim c). unfold member_verdict. by rewrite Hid, Hm. }
  destruct (threshold_block_run gw sim p (discord_id p) wl Whitelist on_whitelist s roles)
    as (s1 & r1 & E1 & L1 & M1 & S1 & N1); [done|apply (Hok' Whitelist)|].
  assert (verdict r1 (points p) ml Moolalist = verdict roles (points p) ml Moolalist) as V1.
  { apply verdict_stable; [done|]. intros r Hr Hnr. rewrite (N1 r Hr Hnr). by split. }
  destruct (threshold_block_run gw sim p (discord_id p) ml Moolalist on_moolalist s1 r1)
    as (s2 & r2 & E2 & L2 & M2 & S2 & N2); [done|rewrite V1; apply (Hok' Moolalist)|].
  assert (verdict r2 (points p) fm Freemint = verdict roles (points p) fm Freemint) as V2.
  { apply verdict_stable; [set_solver|].
    intros r Hr Hnr. destruct (decide (r ∈ r1)) as [Hr1|Hr1].
    + rewrite (N1 r Hr1 Hnr). by split.
    + rewrite (N2 r Hr Hr1). by split. }
  destruct (threshold_block_run gw sim p (discord_id p) fm Freemint on_freemint s2 r2)
    as (s3 & r3 & E3 & L3 & M3 & S3 & N3); [done|rewrite V2; apply (Hok' Freemint)|].
  simpl in E1, E2, E3.
  unfold mbind, Run_bind. rewrite E1, E2, E3. simpl.
  rewrite L3, L2, L1, V2, V1.
  unfold spec_step, member_verdict. rewrite Hid, Hm. simpl.
  destruct (rs_log s) as [w m f].
  by destruct (verdict roles _ wl _) as [[]|], (verdict roles _ ml _) as [[]|],
    (verdict roles _ fm _) as [[]|].
Qed.

Lemma member_verdict_same g g' thr c p :
  guild_members g' !! discord_id p = guild_members g !! discord_id p →
  member_verdict g' thr c p = member_verdict g thr c p.
Proof. intros H. unfold member_verdict. by rewrite H. Qed.

Lemma spec_step_same g g' wl ml fm log p :
  guild_members g' !! discord_id p = guild_members g !! discord_id p →
  spec_step g' wl ml fm log p = spec_step g wl ml fm log p.
Proof. intros H. unfold spec_step. by rewrite !(member_verdict_same g g' _ _ p H). Qed.

Lemma foldl_spec_step_same g g' wl ml fm players log :
  (∀ p, p ∈ players → guild_members g' !! discord_id p = guild_members g !! discord_id p) →
  foldl (spec_step g' wl ml fm) log players = foldl (spec_step g wl ml fm) log players.
Proof.
  revert log. induction players as [|p rest IH]; intros log H; simpl; [done|].
  rewrite (spec_step_same g g') by (apply H; left).
  apply IH. intros q Hq. apply H. by right.
Qed.

(** A dry run leaves the guild as it is. *)
Lemma process_player_dry_run gw wl ml fm p s :
  rs_guild (process_player gw true wl ml fm p s).2 = rs_guild s.
Proof.
  symmetry. revert s. change (preserves eq (process_player gw true wl ml fm p)).
  unfold process_player. destruct (truthy _); [|apply preserves_ret; apply _].
  apply preserves_try_catch, preserves_fetch_bind; [apply _..|].
  repeat (apply preserves_bind; [apply _| |intros _]);
    unfold threshold_block; case_bool_decide; try (apply preserves_ret; apply _);
    (apply preserves_bind; [apply _|apply preserves_roles_cache_has; apply _|intros hb]);
    (apply preserves_bind; [apply _|apply preserves_roles_cache_has; apply _|intros hw]);
    destruct (negb hb && negb hw); try (apply preserves_modify_log; apply _);
    (apply preserves_bind; [apply _|apply preserves_ret; apply _|intros _]);
    apply preserves_modify_log; apply _.
Qed.

Lemma for_players_dry_run gw wl ml fm players s :
  rs_guild (for_players (process_player gw true wl ml fm) players s).2 = rs_guild s.
Proof.
  symmetry. apply (preserves_for_players eq). intros p _ s'.
  symmetry. apply process_player_dry_run.
Qed.

(** The log of the loop, from any state: the fold of the spec's step over the
    players, read against the guild the loop starts from. *)
Lemma for_players_log gw sim wl ml fm players s :
  (sim = false →
     NoDup (discord_id <$> players)
     ∧ issued_grants_accepted gw (rs_guild s) wl ml fm players) →
  rs_log (for_players (process_player gw sim wl ml fm) players s).2
  = foldl (spec_step (rs_guild s) wl ml fm) (rs_log s) players.
Proof.
  revert s. induction players as [|p rest IH]; intros s Hreal; [done|].
  simpl. unfold mbind, Run_bind.
  pose proof (process_player_returns gw sim wl ml fm p s) as Hret.
  pose proof (process_player_log gw sim wl ml fm p s) as Hlog.
  pose proof (process_player_same_off gw sim wl ml fm p s) as Hoff.
  destruct (process_player gw sim wl ml fm p s) as [o s1] eqn:Hs1. simpl in *. subst o.
  assert (∀ q, q ∈ rest →
            guild_members (rs_guild s1) !! discord_id q
            = guild_members (rs_guild s) !! discord_id q) as Hrest.
  { intros q Hq. destruct sim.
    + pose proof (process_player_dry_run gw wl ml fm p s) as Hdry.
      rewrite Hs1 in Hdry. simpl in Hdry. by rewrite Hdry.
    + destruct Hreal as [Hnd _]; [done|]. apply Hoff.
      apply NoDup_cons in Hnd as [Hnin _].
      intros Heq. apply Hnin. rewrite <- Heq. by apply list_elem_of_fmap_2. }
  rewrite IH, Hlog.
  - by apply foldl_spec_step_same.
  - intros ->. intros c. destruct Hreal as [_ Hok]; [done|]. apply Hok. left.
  - intros ->. destruct Hreal as [Hnd Hok]; [done|]. split.
    + by apply NoDup_cons in Hnd as [_ ?].
    + intros q c Hq Hv. apply Hok; [by right|].
      by rewrite <- (member_verdict_same (rs_guild s) (rs_guild s1)) by (by apply Hrest).
Qed.

Lemma tally_counter g thr c p rest cnt :
  counter_plus (tally (member_verdict g thr c p) cnt) (spec_counter g thr c rest)
  = counter_plus cnt (spec_counter g thr c (p :: rest)).
Proof.
  unfold spec_counter, count_verdict, counter_plus. rewrite !filter_cons.
  destruct (member_verdict g thr c p) as [[]|]; repeat case_decide; try done;
    simpl; f_equal; lia.
Qed.

Lemma foldl_spec_step_counts g wl ml fm players log :
  foldl (spec_step g wl ml fm) log players
  = log_plus log (spec_log g wl ml fm players).
Proof.
  revert log. induction players as [|p rest IH]; intros log; simpl.
  - destruct log as [[] [] []]. unfold log_plus, counter_plus; simpl.
    by rewrite !Nat.add_0_r.
  - rewrite IH. unfold log_plus, spec_step, spec_log; simpl.
    by rewrite !tally_counter.
Qed.

Lemma log_plus_empty log : log_plus empty_log log = log.
Proof. by destruct log as [[] [] []]. Qed.

(** Accepting every grant is accepting the ones that are issued. *)
Lemma grants_accepted_issued gw g wl ml fm players :
  grants_accepted gw players → issued_grants_accepted gw g wl ml fm players.
Proof. intros Hok p c Hp _. by apply Hok. Qed.

(** The log [updateRoles] returns when the six roles are cached: the spec's
    counts over the target players, read against the guild as it was. *)
Lemma updateRoles_log_issued gw db g teamType wl ml fm sim :
  all_roles_cached g = true →
  (sim = false →
     NoDup (discord_id <$> target_players db teamType)
     ∧ issued_grants_accepted gw g wl ml fm (target_players db teamType)) →
  (updateRoles gw db g teamType wl ml fm sim).1
  = spec_log g wl ml fm (target_players db teamType).
Proof.
  intros Hroles Hreal. unfold updateRoles. rewrite Hroles. simpl.
  pose proof (for_players_log gw sim wl ml fm (target_players db teamType)
                {| rs_guild := g; rs_log := empty_log |} Hreal) as Hlog.
  destruct (for_players _ _ _) as [o s]. simpl in *.
  by rewrite Hlog, foldl_spec_step_counts, log_plus_empty.
Qed.

Lemma updateRoles_log gw db g teamType wl ml fm sim :
  all_roles_cached g = true →
  (sim = false →
     NoDup (discord_id <$> target_players db teamType)
     ∧ grants_accepted gw (target_players db teamType)) →
  (updateRoles gw db g teamType wl ml fm sim).1
  = spec_log g wl ml fm (target_players db teamType).
Proof.
  intros Hroles Hreal. apply updateRoles_log_issued; [done|].
  intros Hsim. destruct (Hreal Hsim) as [Hnd Hok].
  split; [done|]. by apply grants_accepted_issued.
Qed.

Lemma updateRoles_dry_run_guild gw db g teamType wl ml fm :
  (updateRoles gw db g teamType wl ml fm true).2 = g.
Proof.
  unfold updateRoles. destruct (negb (all_roles_cached g)); simpl; [done|].
  pose proof (for_players_dry_run gw wl ml fm (target_players db teamType)
                {| rs_guild := g; rs_log := empty_log |}) as Hdry.
  by destruct (for_players _ _ _) as [o s].
Qed.

(** ** What a real run leaves at a player's id *)

Lemma after_block_subseteq c pts thr roles : roles ⊆ after_block c pts thr roles.
Proof. unfold after_block. destruct (verdict _ _ _ _) as [[]|]; set_solver. Qed.

Lemma after_block_other c c' pts thr thr' roles :
  c ≠ c' →
  verdict (after_block c pts thr roles) pts thr' c' = verdict roles pts thr' c'.
Proof.
  intros Hne. apply verdict_stable; [apply after_block_subseteq|].
  intros r Hr Hnr. unfold after_block in Hr.
  destruct (verdict roles pts thr c) as [[]|]; try done.
  apply elem_of_union in Hr as [->%elem_of_singleton|?]; [|done].
  destruct c, c'; done.
Qed.

Lemma threshold_block_real_lookup gw p member thr c cat s roles :
  guild_members (rs_guild s) !! member = Some roles →
  (verdict roles (points p) thr c = Some Added → add_ok gw member (base_role c) = true) →
  ∃ s',
    threshold_block gw false p member thr (base_role c) (winner_role c) cat s
      = (Returned (), s')
    ∧ guild_members (rs_guild s') !! member = Some (after_block c (points p) thr roles).
Proof.
  intros Hm Hok. unfold threshold_block, after_block. unfold verdict in *.
  case_bool_decide as Hthr; [|by exists s].
  unfold mbind, Run_bind, roles_cache_has. rewrite Hm. simpl.
  destruct (decide (base_role c ∈ roles)) as [Hb|Hb].
  { rewrite (bool_decide_eq_true_2 _ Hb). simpl.
    rewrite bool_decide_eq_true_2 by (by left). by eexists. }
  rewrite (bool_decide_eq_false_2 _ Hb). simpl.
  destruct (decide (winner_role c ∈ roles)) as [Hw|Hw].
  { rewrite (bool_decide_eq_true_2 _ Hw). simpl.
    rewrite bool_decide_eq_true_2 by (by right). by eexists. }
  rewrite (bool_decide_eq_false_2 _ Hw). simpl.
  rewrite bool_decide_eq_false_2 in Hok by tauto.
  rewrite bool_decide_eq_false_2 by tauto.
  unfold roles_add. rewrite Hok by done. simpl.
  eexists. split; [done|]. unfold grant; simpl. by rewrite lookup_alter_eq, Hm.
Qed.

Lemma process_player_real_lookup_issued gw wl ml fm p s :
  (∀ c, member_verdict (rs_guild s) (threshold_of wl ml fm c) c p = Some Added →
        add_ok gw (discord_id p) (base_role c) = true) →
  guild_members (rs_guild (process_player gw false wl ml fm p s).2) !! discord_id p
  = expected_member wl ml fm p (rs_guild s).
Proof.
  intros Hok. unfold process_player, expected_member.
  destruct (truthy (discord_id p)) eqn:Hid; [|done].
  unfold try_catch, mbind at 1, Run_bind at 1, members_fetch.
  destruct (guild_members (rs_guild s) !! discord_id p) as [roles|] eqn:Hm; [|simpl; by rewrite Hm].
  assert (∀ c, verdict roles (points p) (threshold_of wl ml fm c) c = Some Added →
               add_ok gw (discord_id p) (base_role c) = true) as Hok'.
  { intros c Hv. apply (Hok c). unfold member_verdict. by rewrite Hid, Hm. }
  destruct (threshold_block_real_lookup gw p (discord_id p) wl Whitelist on_whitelist s roles)
    as (s1 & E1 & M1); [done|apply (Hok' Whitelist)|].
  destruct (threshold_block_real_lookup gw p (discord_id p) ml Moolalist on_moolalist s1 _ M1)
    as (s2 & E2 & M2); [rewrite after_block_other by done; apply (Hok' Moolalist)|].
  destruct (threshold_block_real_lookup gw p (discord_id p) fm Freemint on_freemint s2 _ M2)
    as (s3 & E3 & M3); [rewrite !after_block_other by done; apply (Hok' Freemint)|].
  simpl in E1, E2, E3. unfold mbind, Run_bind. rewrite E1, E2, E3. simpl.
  by rewrite M3.
Qed.

(** The loop leaves alone every id that is not the id of one of its players. *)
Lemma for_players_outside gw sim wl ml fm players s id :
  id ∉ discord_id <$> players →
  guild_members (rs_guild (for_players (process_player gw sim wl ml fm) players s).2) !! id
  = guild_members (rs_guild s) !! id.
Proof.
  revert s. induction players as [|p rest IH]; intros s Hid; [done|].
  rewrite fmap_cons in Hid. apply not_elem_of_cons in Hid as [Hne Hid].
  simpl. unfold mbind, Run_bind.
  pose proof (process_player_returns gw sim wl ml fm p s) as Hret.
  pose proof (process_player_same_off gw sim wl ml fm p s) as Hoff.
  destruct (process_player gw sim wl ml fm p s) as [o s1]. simpl in *. subst o.
  rewrite IH by done. by apply Hoff.
Qed.

(** After a real run over players with distinct ids, every issued grant
    accepted, each player's id holds what its own step left there. *)
Lemma for_players_real_lookup_issued gw wl ml fm players s p :
  NoDup (discord_id <$> players) →
  issued_grants_accepted gw (rs_guild s) wl ml fm players →
  p ∈ players →
  guild_members (rs_guild (for_players (process_player gw false wl ml fm) players s).2)
    !! discord_id p
  = expected_member wl ml fm p (rs_guild s).
Proof.
  revert s. induction players as [|q rest IH]; intros s Hnd Hok Hp.
  { by apply elem_of_nil in Hp. }
  apply NoDup_cons in Hnd as [Hq Hnd].
  simpl. unfold mbind, Run_bind.
  pose proof (process_player_returns gw false wl ml fm q s) as Hret.
  pose proof (process_player_real_lookup_issued gw wl ml fm q s) as Hstep.
  pose proof (process_player_same_off gw false wl ml fm q s) as Hoff.
  pose proof (for_players_outside gw false wl ml fm rest
                (process_player gw false wl ml fm q s).2 (discord_id q) Hq) as Hout.
  destruct (process_player gw false wl ml fm q s) as [o s1]. simpl in *. subst o.
  assert (∀ r, r ∈ rest →
            guild_members (rs_guild s1) !! discord_id r
            = guild_members (rs_guild s) !! discord_id r) as Hrest.
  { intros r Hr. apply Hoff. intros Heq. apply Hq. rewrite <- Heq.
    by apply list_elem_of_fmap_2. }
  apply elem_of_cons in Hp as [->|Hp].
  - rewrite Hout. apply Hstep. intros c. apply Hok. left.
  - rewrite IH; [|done| |done].
    + unfold expected_member. by rewrite Hrest.
    + intros r c Hr Hv. apply Hok; [by right|].
      by rewrite <- (member_verdict_same (rs_guild s) (rs_guild s1)) by (by apply Hrest).
Qed.

Lemma updateRoles_real_lookup_issued gw db g teamType wl ml fm p :
  all_roles_cached g = true →
  NoDup (discord_id <$> target_players db teamType) →
  issued_grants_accepted gw g wl ml fm (target_players db teamType) →
  p ∈ target_players db teamType →
  guild_members (updateRoles gw db g teamType wl ml fm false).2 !! discord_id p
  = expected_member wl ml fm p g.
Proof.
  intros Hroles Hnd Hok Hp. unfold updateRoles. rewrite Hroles. simpl.
  pose proof (for_players_real_lookup_issued gw wl ml fm (target_players db teamType)
                {| rs_guild := g; rs_log := empty_log |} p Hnd Hok Hp) as Hrun.
  by destruct (for_players _ _ _) as [outcome s].
Qed.

(** The roles left by the three blocks keep what was held and hold the base
    role of every category whose verdict was "added". *)
Lemma reconciled_roles_granted wl ml fm pts roles c :
  roles ⊆ reconciled_roles wl ml fm pts roles
  ∧ (verdict roles pts (threshold_of wl ml fm c) c = Some Added →
     base_role c ∈ reconciled_roles wl ml fm pts roles).
Proof.
  unfold reconciled_roles. split.
  { etrans; [|apply after_block_subseteq]. etrans; apply after_block_subseteq. }
  intros Hv.
  assert (∀ c' thr r, verdict r pts thr c' = Some Added →
            base_role c' ∈ after_block c' pts thr r) as Hone.
  { intros c' thr r Hr. unfold after_block. rewrite Hr. set_solver. }
  destruct c; simpl in Hv.
  - apply after_block_subseteq, after_block_subseteq. by apply Hone.
  - apply after_block_subseteq. apply Hone. by rewrite after_block_other.
  - apply Hone. by rewrite !after_block_other.
Qed.

(** ** Threshold Reconciler *)

(** C1 (as amended).  When the gateway accepts every grant the real run
    issues, that is, the grant of the base role for each target player and
    category whose verdict is "added", and the discord ids of the target
    players are distinct, [updateRoles] returns the same counters with
    [isSimulation = true] as with [isSimulation = false] on the same store and
    guild.  What the gateway would answer to a grant the run does not issue
    plays no part. *)
Theorem updateRoles_dry_run_equivalence gw db g teamType wl ml fm :
  NoDup (discord_id <$> target_players db teamType) →
  issued_grants_accepted gw g wl ml fm (target_players db teamType) →
  (updateRoles gw db g teamType wl ml fm true).1
  = (updateRoles gw db g teamType wl ml fm false).1.
Proof.
  intros Hnd Hok. destruct (all_roles_cached g) eqn:Hroles.
  - rewrite !updateRoles_log_issued; done.
  - unfold updateRoles. by rewrite Hroles.
Qed.

Lemma updateRoles_dry_run_equivalence_witness :
  add_ok gateway_without_free_mint "a" FREE_MINT_ROLE_ID = false
  ∧ (updateRoles gateway_without_free_mint scenario_db scenario_guild winning 100 200 500 true).1
    = (updateRoles gateway_without_free_mint scenario_db scenario_guild winning 100 200 500 false).1.
Proof.
  split; [reflexivity|].
  apply updateRoles_dry_run_equivalence.
  - apply (bool_decide_unpack _). vm_compute. exact I.
  - intros p c Hp Hv.
    change (target_players scenario_db winning) with scenario_db in Hp.
    unfold scenario_db in Hp.
    repeat (apply elem_of_cons in Hp as [->|Hp]); [..|by apply elem_of_nil in Hp];
      destruct c; first [reflexivity | (vm_compute in Hv; discriminate Hv)].
Defined.

(** C1 as stated fails: with a gateway that refuses the grant, the dry run
    counts one whitelist addition and the real run counts none. *)
Lemma updateRoles_dry_run_differs_on_refused_grant :
  (updateRoles gateway_refusing scenario_db scenario_guild winning 100 200 500 true).1
  = mkLog (mkCounter 1 0) (mkCounter 0 0) (mkCounter 0 0)
  ∧ (updateRoles gateway_refusing scenario_db scenario_guild winning 100 200 500 false).1
  = mkLog (mkCounter 0 0) (mkCounter 0 0) (mkCounter 0 0)
  ∧ (updateRoles gateway_refusing scenario_db scenario_guild winning 100 200 500 true).1
  ≠ (updateRoles gateway_refusing scenario_db scenario_guild winning 100 200 500 false).1.
Proof. vm_compute. split_and!; [done|done|discriminate]. Qed.

(** The distinct ids matter to the embedding: with the same id on two rows
    the real run finds, at the second row, the role it granted at the first. *)
Remark updateRoles_same_id_twice :
  let db := [ mkUser "a" None 150 (Some bullas); mkUser "a" None 150 (Some bullas) ] in
  (updateRoles gateway_up db scenario_guild winning 100 200 500 true).1
  = mkLog (mkCounter 2 0) (mkCounter 0 0) (mkCounter 0 0)
  ∧ (updateRoles gateway_up db scenario_guild winning 100 200 500 false).1
  = mkLog (mkCounter 1 1) (mkCounter 0 0) (mkCounter 0 0).
Proof. vm_compute. done. Qed.

(** C2.  A run of [updateRoles], simulated or real, whatever the gateway
    answers, removes no role: a member who held a set of roles before the run
    is still a member after it and holds a superset of them. *)
Theorem updateRoles_never_removes_a_role gw db g teamType wl ml fm sim id roles :
  guild_members g !! id = Some roles →
  ∃ roles',
    guild_members (updateRoles gw db g teamType wl ml fm sim).2 !! id = Some roles'
    ∧ roles ⊆ roles'.
Proof.
  intros Hbefore. unfold updateRoles.
  destruct (negb (all_roles_cached g)); simpl; [by exists roles|].
  pose proof (for_players_roles_kept gw sim wl ml fm (target_players db teamType)
                {| rs_guild := g; rs_log := empty_log |}) as Hkept.
  destruct (for_players _ _ _) as [outcome s]. simpl in *.
  exact (Hkept id roles Hbefore).
Qed.

Lemma updateRoles_never_removes_a_role_witness :
  guild_members holder_guild !! "a" = Some {[ MOOLALIST_ROLE_ID ]}
  ∧ ∃ roles',
      guild_members (updateRoles gateway_up holder_db holder_guild winning 100 100 500 false).2
        !! "a" = Some roles'
      ∧ {[ MOOLALIST_ROLE_ID ]} ⊆ roles'.
Proof.
  split; [reflexivity|].
  apply (updateRoles_never_removes_a_role gateway_up holder_db holder_guild
           winning 100 100 500 false "a"). reflexivity.
Defined.

(** C3 (as amended).  When the six roles are cached and, in a real run, the
    ids of the target players are distinct and every grant the run issues is
    accepted, each counter of the returned log is the number of target players
    with that verdict, where a player has a verdict in a category when the id
    is non-empty, the membership resolves and the points meet the threshold:
    "added" exactly when the member holds neither the base nor the winner
    role, "existing" when the member holds either.  A member counted as
    "added" in a category holds that category's base role after a real run,
    on top of the roles held before, and holds what it held after a dry run.
    In the spec's scenario the log is whitelist 1/0, moolalist 0/0, free mint
    0/0, simulated or real. *)
Theorem updateRoles_counts_by_verdict :
  (∀ gw db g teamType wl ml fm sim,
     all_roles_cached g = true →
     (sim = false →
        NoDup (discord_id <$> target_players db teamType)
        ∧ issued_grants_accepted gw g wl ml fm (target_players db teamType)) →
     (updateRoles gw db g teamType wl ml fm sim).1
     = spec_log g wl ml fm (target_players db teamType)
     ∧ ∀ p c roles,
         p ∈ target_players db teamType →
         guild_members g !! discord_id p = Some roles →
         member_verdict g (threshold_of wl ml fm c) c p = Some Added →
         if sim
         then guild_members (updateRoles gw db g teamType wl ml fm sim).2 !! discord_id p
              = Some roles
         else ∃ roles',
                guild_members (updateRoles gw db g teamType wl ml fm sim).2 !! discord_id p
                = Some roles'
                ∧ base_role c ∈ roles' ∧ roles ⊆ roles')
  ∧ (∀ g threshold c p roles,
       truthy (discord_id p) = true →
       guild_members g !! discord_id p = Some roles →
       (threshold ≤ points p)%Z →
       (member_verdict g threshold c p = Some Added
          ↔ (base_role c ∉ roles) ∧ (winner_role c ∉ roles))
       ∧ (member_verdict g threshold c p = Some Existing
          ↔ base_role c ∈ roles ∨ winner_role c ∈ roles))
  ∧ (∀ sim,
       (updateRoles gateway_up scenario_db scenario_guild winning 100 200 500 sim).1
       = mkLog (mkCounter 1 0) (mkCounter 0 0) (mkCounter 0 0)).
Proof.
  split_and!.
  - intros gw db g teamType wl ml fm sim Hroles Hreal.
    split; [by apply updateRoles_log_issued|].
    intros p c roles Hp Hm Hv. destruct sim.
    + by rewrite updateRoles_dry_run_guild.
    + destruct Hreal as [Hnd Hok]; [done|].
      rewrite updateRoles_real_lookup_issued by done.
      unfold expected_member. unfold member_verdict in Hv.
      destruct (truthy (discord_id p)); [|done].
      rewrite Hm in *. simpl in *.
      destruct (reconciled_roles_granted wl ml fm (points p) roles c) as [Hsub Hgranted].
      eexists. split; [done|]. split; [by apply Hgranted|done].
  - intros g thr c p roles Hid Hm Hthr. unfold member_verdict, verdict.
    rewrite Hid, Hm. simpl. rewrite bool_decide_eq_true_2 by done.
    case_bool_decide; split; split; try done; tauto.
  - intros []; vm_compute; reflexivity.
Qed.

Lemma updateRoles_counts_by_verdict_witness :
  (updateRoles gateway_without_free_mint holder_db holder_guild winning 100 100 500 false).1
  = spec_log holder_guild 100 100 500 (target_players holder_db winning)
  ∧ (∃ roles',
       guild_members
         (updateRoles gateway_without_free_mint holder_db holder_guild winning 100 100 500 false).2
         !! "a" = Some roles'
       ∧ WHITELIST_ROLE_ID ∈ roles' ∧ {[ MOOLALIST_ROLE_ID ]} ⊆ roles')
  ∧ (member_verdict holder_guild 100 Whitelist (mkUser "a" None 150 (Some bullas)) = Some Added
     ↔ (base_role Whitelist ∉ ({[ MOOLALIST_ROLE_ID ]} : gset string))
       ∧ (winner_role Whitelist ∉ ({[ MOOLALIST_ROLE_ID ]} : gset string))).
Proof.
  destruct updateRoles_counts_by_verdict as (Hrun & Hverdict & _).
  destruct (Hrun gateway_without_free_mint holder_db holder_guild winning
              100%Z 100%Z 500%Z false) as [Hlog Hgrant].
  { reflexivity. }
  { intros _. split.
    - apply (bool_decide_unpack _). vm_compute. exact I.
    - intros p c Hp Hv.
      change (target_players holder_db winning) with holder_db in Hp.
      unfold holder_db in Hp.
      repeat (apply elem_of_cons in Hp as [->|Hp]); [..|by apply elem_of_nil in Hp];
        destruct c; first [reflexivity | (vm_compute in Hv; discriminate Hv)]. }
  split_and!.
  - exact Hlog.
  - apply (Hgrant (mkUser "a" None 150 (Some bullas)) Whitelist {[ MOOLALIST_ROLE_ID ]}).
    + change (target_players holder_db winning) with holder_db. left.
    + reflexivity.
    + vm_compute. reflexivity.
  - apply (Hverdict holder_guild 100%Z Whitelist (mkUser "a" None 150 (Some bullas)));
      [reflexivity|reflexivity|simpl; lia].
Defined.

(** C3 as stated fails: the member holds the moolalist role and neither
    whitelist role, and meets both thresholds, yet after the refused whitelist
    grant the real run counts neither the addition nor the existing role. *)
Lemma updateRoles_refused_grant_counts_nothing :
  member_verdict holder_guild 100 Whitelist (mkUser "a" None 150 (Some bullas)) = Some Added
  ∧ member_verdict holder_guild 100 Moolalist (mkUser "a" None 150 (Some bullas)) = Some Existing
  ∧ (updateRoles gateway_refusing holder_db holder_guild winning 100 100 500 false).1
    = mkLog (mkCounter 0 0) (mkCounter 0 0) (mkCounter 0 0)
  ∧ (updateRoles gateway_refusing holder_db holder_guild winning 100 100 500 false).1
    ≠ spec_log holder_guild 100 100 500 (target_players holder_db winning).
Proof. vm_compute. split_and!; [done|done|done|discriminate]. Qed.


(** ** Ranking Service *)

Global Instance points_desc_transitive : Transitive points_desc.
Proof. intros a b c. unfold points_desc. lia. Qed.

Global Instance points_desc_total : Total points_desc.
Proof. intros a b. unfold points_desc. lia. Qed.

Global Instance points_desc_reflexive : Reflexive points_desc.
Proof. intros a. unfold points_desc. lia. Qed.

(** The sample answers are answers a store may give. *)
Lemma merge_order_sound : orders_by_points merge_order.
Proof.
  intros rows. split; [apply merge_sort_Permutation|].
  apply StronglySorted_merge_sort; apply _.
Qed.

Lemma merge_order_backwards_sound : orders_by_points merge_order_backwards.
Proof.
  intros rows. unfold merge_order_backwards. split.
  - rewrite merge_sort_Permutation. apply reverse_Permutation.
  - apply StronglySorted_merge_sort; apply _.
Qed.


(** The rows the filters of the two queries match are the population as the
    spec words it. *)
Lemma filters_population db teamOption :
  eq_team_option teamOption (not_excluded db) = population db teamOption.
Proof.
  unfold population, not_excluded, in_population. destruct teamOption as [|t]; simpl.
  - apply list_filter_iff. tauto.
  - rewrite list_filter_filter. apply list_filter_iff. tauto.
Qed.

Lemma population_elem_of db teamOption u :
  u ∈ population db teamOption
  ↔ u ∈ db ∧ (discord_id u ∉ EXCLUDED_USER_IDS)
    ∧ match teamOption with team_all => True | team_only t => team u = Some t end.
Proof. unfold population, in_population. rewrite list_elem_of_filter. tauto. Qed.

Lemma exact_count_population db teamOption :
  exact_count db teamOption = Z.of_nat (length (population db teamOption)).
Proof. unfold exact_count. by rewrite filters_population. Qed.

Lemma rank_query_sorted order db teamOption :
  orders_by_points order → StronglySorted points_desc (rank_query order db teamOption).
Proof. intros Horder. apply Horder. Qed.

Lemma rank_query_permutation order db teamOption :
  orders_by_points order → rank_query order db teamOption ≡ₚ population db teamOption.
Proof. intros Horder. unfold rank_query. rewrite filters_population. apply Horder. Qed.

Lemma rank_query_length order db teamOption :
  orders_by_points order →
  Z.of_nat (length (rank_query order db teamOption)) = exact_count db teamOption.
Proof.
  intros Horder. rewrite exact_count_population.
  by rewrite (rank_query_permutation order db teamOption Horder).
Qed.

Lemma StronglySorted_lookup_le {A} (R : relation A) `{!Reflexive R} (l : list A) (i j : nat) x y :
  StronglySorted R l → (i ≤ j)%nat → l !! i = Some x → l !! j = Some y → R x y.
Proof.
  intros Hs. revert i j. induction Hs as [|z l Hs IH Hall]; intros i j Hij Hi Hj; [done|].
  destruct i as [|i], j as [|j]; simplify_eq/=; [done| |lia|].
  - rewrite Forall_forall in Hall. apply Hall. by eapply list_elem_of_lookup_2.
  - apply (IH i j); [lia|done..].
Qed.



Lemma NoDup_points_tie_free rows : NoDup (points <$> rows) → tie_free rows.
Proof.
  intros Hnd u v Hu Hv Heq.
  apply list_elem_of_lookup in Hu as [i Hi]. apply list_elem_of_lookup in Hv as [j Hj].
  assert (i = j) as ->; [|congruence].
  apply (NoDup_lookup (points <$> rows) i j (points u) Hnd).
  - by rewrite list_lookup_fmap, Hi.
  - by rewrite list_lookup_fmap, Hj; simpl; rewrite Heq.
Qed.



Lemma Math_ceil_div_bounds n :
  (10 * (Math_ceil_div n 10 - 1) < n ≤ 10 * Math_ceil_div n 10)%Z.
Proof. unfold Math_ceil_div. Z.to_euclidean_division_equations. lia. Qed.

Lemma range_page (k : nat) (rows : list User) :
  range ((Z.of_nat (S k) - 1) * itemsPerPage)%Z
        ((Z.of_nat (S k) - 1) * itemsPerPage + itemsPerPage - 1)%Z rows
  = Some (page_rows k rows).
Proof.
  unfold range, itemsPerPage, page_rows.
  destruct (Z.ltb_spec ((Z.of_nat (S k) - 1) * 10) 0); [exfalso; lia|].
  f_equal. f_equal; [lia|f_equal; lia].
Qed.

(** The entries the command serves for page [k + 1] are the rows
    [10 k .. 10 k + 9] of the page query's answer, numbered from [10 k + 1]. *)
Lemma served_entries_page rankOrder pageOrder db caller teamOption (k : nat) :
  served_entries rankOrder pageOrder db caller teamOption (Z.of_nat (S k))
  = imap (λ index u, ((Z.of_nat (10 * k + index) + 1)%Z, u))
      (page_rows k (rank_query pageOrder db teamOption)).
Proof.
  unfold served_entries, leaderboard.
  replace (page_or_first (Some (Z.of_nat (S k)))) with (Z.of_nat (S k))
    by (unfold page_or_first; destruct (Z.eqb_spec (Z.of_nat (S k)) 0); [exfalso; lia|done]).
  rewrite range_page. case_bool_decide as Hempty.
  - apply nil_length_inv in Hempty. by rewrite Hempty.
  - unfold render_board; simpl. apply imap_ext. intros i u _. f_equal.
    unfold itemsPerPage. lia.
Qed.

Lemma findIndex_from_list_find {A} (P : A → Prop) `{∀ x, Decision (P x)} (l : list A) (i : Z) :
  findIndex_from (λ x, bool_decide (P x)) l i
  = match list_find P l with
    | Some found => (i + Z.of_nat found.1)%Z
    | None => (-1)%Z
    end.
Proof.
  revert i. induction l as [|x l IH]; intros i; simpl; [done|].
  case_bool_decide; rewrite ?decide_True, ?decide_False by done; simpl; [lia|].
  rewrite IH. destruct (list_find P l) as [[k y]|]; simpl; [lia|done].
Qed.

(** The "Your Rank" field is the caller's position in the whole answer of the
    rank query. *)
Lemma render_board_your_rank rankOrder db caller teamOption page leaderboardData :
  your_rank (render_board rankOrder db caller teamOption page leaderboardData)
  = own_rank (rank_query rankOrder db teamOption) caller.
Proof.
  unfold render_board, own_rank, findIndex; simpl.
  rewrite (findIndex_from_list_find (λ u, discord_id u = caller)).
  destruct (list_find _ (rank_query rankOrder db teamOption)) as [[k u]|] eqn:Hfind; simpl.
  - apply list_find_Some in Hfind as (Hk & _ & _).
    unfold js_index. destruct (Z.ltb_spec (0 + Z.of_nat k) 0); [exfalso; lia|].
    replace (Z.to_nat (0 + Z.of_nat k)) with k by lia. rewrite Hk.
    rewrite bool_decide_eq_true_2 by lia. do 2 f_equal.
  - done.
Qed.



Lemma own_rank_None ranked caller :
  own_rank ranked caller = None ↔ ∀ u, u ∈ ranked → discord_id u ≠ caller.
Proof.
  unfold own_rank. rewrite fmap_None, list_find_None, Forall_forall. done.
Qed.

Lemma own_rank_Some ranked caller r u :
  own_rank ranked caller = Some (r, u) →
  (1 ≤ r)%Z ∧ ranked !! Z.to_nat (r - 1) = Some u ∧ discord_id u = caller
  ∧ ∀ (j : nat) v, ranked !! j = Some v → (Z.of_nat j < r - 1)%Z → discord_id v ≠ caller.
Proof.
  unfold own_rank. intros ([k w] & Hfind & Heq)%fmap_Some. simpl in Heq.
  injection Heq as -> ->.
  apply list_find_Some in Hfind as (Hk & Hid & Hfirst).
  replace (Z.to_nat (Z.of_nat k + 1 - 1)) with k by lia.
  split_and!; [lia|done|done|].
  intros j v Hj Hlt. apply (Hfirst j v Hj). lia.
Qed.

(** Where a row stands in a sequence sorted by points: after the rows with
    more points, and among the rows with at least as many. *)
Lemma filter_length_all {A} (P : A → Prop) `{∀ x, Decision (P x)} (l : list A) :
  Forall P l → length (filter P l) = length l.
Proof.
  induction 1 as [|x l Hx Hl IH]; [done|].
  rewrite filter_cons_True by done. simpl. by rewrite IH.
Qed.

Lemma filter_length_none {A} (P : A → Prop) `{∀ x, Decision (P x)} (l : list A) :
  Forall (λ x, ¬ P x) l → length (filter P l) = 0%nat.
Proof.
  induction 1 as [|x l Hx Hl IH]; [done|].
  by rewrite filter_cons_False by done.
Qed.

Lemma sorted_position_bounds (l : list User) (i : nat) u :
  StronglySorted points_desc l → l !! i = Some u →
  (count_above l u ≤ Z.of_nat i < count_not_below l u)%Z.
Proof.
  intros Hsorted Hi. unfold count_above, count_not_below.
  pose proof (lookup_lt_Some _ _ _ Hi) as Hlt.
  rewrite <- (take_drop_middle l i u Hi), !filter_app, !length_app.
  assert (Forall (λ v, (points u ≤ points v)%Z) (take i l)) as Hbefore.
  { apply Forall_lookup. intros j v Hj.
    apply lookup_take_Some in Hj as [Hj Hji].
    apply (StronglySorted_lookup_le points_desc l j i v u); [done|lia|done|done]. }
  assert (Forall (λ v, ¬ (points u < points v)%Z) (drop (S i) l)) as Hafter.
  { apply Forall_lookup. intros j v Hj. rewrite lookup_drop in Hj.
    pose proof (StronglySorted_lookup_le points_desc l i (S i + j) u v Hsorted) as Hle.
    unfold points_desc in Hle. specialize (Hle ltac:(lia) Hi Hj). lia. }
  rewrite (filter_length_all _ _ Hbefore).
  rewrite (filter_cons_True (λ v, (points u ≤ points v)%Z)) by lia.
  rewrite (filter_cons_False (λ v, (points u < points v)%Z)) by lia.
  rewrite (filter_length_none _ _ Hafter).
  pose proof (length_filter (λ v, (points u < points v)%Z) (take i l)) as Hle.
  rewrite length_take in *. simpl. lia.
Qed.

Lemma count_above_permutation l k u : l ≡ₚ k → count_above l u = count_above k u.
Proof. intros Hperm. unfold count_above. by rewrite Hperm. Qed.

Lemma count_not_below_permutation l k u :
  l ≡ₚ k → count_not_below l u = count_not_below k u.
Proof. intros Hperm. unfold count_not_below. by rewrite Hperm. Qed.

(** A row of a store's answer stands, counted from 1, after the rows of the
    population with more points and among those with at least as many. *)
Lemma rank_query_position order db teamOption (i : nat) u :
  orders_by_points order →
  rank_query order db teamOption !! i = Some u →
  (count_above (population db teamOption) u < Z.of_nat i + 1
   ≤ count_not_below (population db teamOption) u)%Z.
Proof.
  intros Horder Hi.
  pose proof (rank_query_permutation order db teamOption Horder) as Hperm.
  rewrite <- (count_above_permutation _ _ u Hperm).
  rewrite <- (count_not_below_permutation _ _ u Hperm).
  pose proof (sorted_position_bounds _ i u (rank_query_sorted order db teamOption Horder) Hi).
  lia.
Qed.




Lemma render_board_facts rankOrder db caller teamOption page data :
  let b := render_board rankOrder db caller teamOption page data in
  let count := Z.of_nat (length (population db teamOption)) in
  footer_page b = page
  ∧ footer_total b = Math_ceil_div count 10
  ∧ (10 * (footer_total b - 1) < count ≤ 10 * footer_total b)%Z
  ∧ (prev_disabled b = true ↔ (page ≤ 1)%Z)
  ∧ (next_disabled b = true ↔ (footer_total b ≤ page)%Z).
Proof.
  unfold render_board. cbn [footer_page footer_total prev_disabled next_disabled].
  rewrite exact_count_population.
  split; [done|]. split; [done|]. split; [apply Math_ceil_div_bounds|]. split.
  - apply bool_decide_eq_true.
  - rewrite bool_decide_eq_true. unfold itemsPerPage. lia.
Qed.

(** C5.  Pages are numbered from 1 and hold ten rows: page [k + 1] serves rows
    [10 k .. 10 k + 9] of the answer to its query, a rearrangement of the
    population, numbered from [10 k + 1].  On every board, from the command
    or from a button, the footer's total is [ceil(count / 10)] where the
    count is the number of rows of the store that are not excluded and are of
    the team asked for; "Previous" is disabled exactly when the page is at
    most 1 and "Next" exactly when the page is at least the total.  With 25
    such rows the total is 3, page 3 shows 5 entries and page 4 is not
    served. *)
Theorem leaderboard_pagination rankOrder pageOrder db caller teamOption :
  orders_by_points pageOrder →
  let everyone := population db teamOption in
  let matchingCount := Z.of_nat (length everyone) in
  itemsPerPage = 10%Z
  ∧ (∀ u, u ∈ everyone
          ↔ u ∈ db ∧ (discord_id u ∉ EXCLUDED_USER_IDS)
            ∧ match teamOption with team_all => True | team_only t => team u = Some t end)
  ∧ exact_count db teamOption = matchingCount
  ∧ rank_query pageOrder db teamOption ≡ₚ everyone
  ∧ (∀ k : nat,
       served_entries rankOrder pageOrder db caller teamOption (Z.of_nat (S k))
       = imap (λ index u, ((Z.of_nat (10 * k + index) + 1)%Z, u))
           (take 10 (drop (10 * k) (rank_query pageOrder db teamOption))))
  ∧ (∀ pageOption b,
       leaderboard rankOrder pageOrder db caller teamOption pageOption = ShowBoard b →
       footer_page b = page_or_first pageOption
       ∧ footer_total b = Math_ceil_div matchingCount 10
       ∧ (10 * (footer_total b - 1) < matchingCount ≤ 10 * footer_total b)%Z
       ∧ (prev_disabled b = true ↔ (page_or_first pageOption ≤ 1)%Z)
       ∧ (next_disabled b = true ↔ (footer_total b ≤ page_or_first pageOption)%Z))
  ∧ (∀ owner action currentPage b,
       leaderboard_button rankOrder pageOrder db caller owner action teamOption currentPage
       = ShowBoard b →
       let newPage := match action with
                      | next => (currentPage + 1)%Z
                      | prev => (currentPage - 1)%Z
                      end in
       footer_page b = newPage
       ∧ footer_total b = Math_ceil_div matchingCount 10
       ∧ (prev_disabled b = true ↔ (newPage ≤ 1)%Z)
       ∧ (next_disabled b = true ↔ (footer_total b ≤ newPage)%Z))
  ∧ (length everyone = 25%nat →
       (∃ b, leaderboard rankOrder pageOrder db caller teamOption (Some 3%Z) = ShowBoard b
             ∧ footer_total b = 3%Z
             ∧ length (entries b) = 5%nat
             ∧ prev_disabled b = false
             ∧ next_disabled b = true)
       ∧ leaderboard rankOrder pageOrder db caller teamOption (Some 4%Z) = NoUsersFound).
Proof.
  intros Hpage everyone matchingCount.
  pose proof (rank_query_permutation pageOrder db teamOption Hpage) as Hperm.
  split_and!.
  - done.
  - apply population_elem_of.
  - apply exact_count_population.
  - done.
  - apply served_entries_page.
  - intros pageOption b Hb. unfold leaderboard in Hb.
    destruct (range _ _ _) as [data|]; [|done].
    case_bool_decide; [done|]. injection Hb as <-.
    apply render_board_facts.
  - intros owner action currentPage b Hb. unfold leaderboard_button in Hb.
    case_bool_decide; [done|].
    destruct (range _ _ _) as [data|]; [|done]. injection Hb as <-.
    pose proof (render_board_facts rankOrder db caller teamOption
                  (match action with
                   | next => (currentPage + 1)%Z
                   | prev => (currentPage - 1)%Z
                   end) data) as Hfacts.
    cbv zeta in Hfacts. cbv zeta. tauto.
  - intros Hcount.
    assert (length (rank_query pageOrder db teamOption) = 25%nat) as Hlen.
    { by rewrite Hperm. }
    split.
    + unfold leaderboard. change (page_or_first (Some 3%Z)) with (Z.of_nat 3).
      rewrite range_page.
      assert (length (page_rows 2 (rank_query pageOrder db teamOption)) = 5%nat) as Hfive.
      { unfold page_rows. rewrite length_take, length_drop. lia. }
      rewrite bool_decide_eq_false_2 by lia.
      eexists. split; [done|]. unfold render_board.
      cbn [footer_total entries prev_disabled next_disabled].
      rewrite length_imap, Hfive, exact_count_population.
      fold everyone. rewrite Hcount. done.
    + unfold leaderboard. change (page_or_first (Some 4%Z)) with (Z.of_nat 4).
      rewrite range_page.
      assert (length (page_rows 3 (rank_query pageOrder db teamOption)) = 0%nat) as Hnone.
      { unfold page_rows. rewrite length_take, length_drop. lia. }
      by rewrite bool_decide_eq_true_2.
Qed.

Lemma leaderboard_pagination_witness :
  length (population db25 team_all) = 25%nat
  ∧ ∃ b, leaderboard merge_order merge_order_backwards db25 "3" team_all (Some 3%Z)
         = ShowBoard b
         ∧ footer_total b = 3%Z
         ∧ length (entries b) = 5%nat
         ∧ prev_disabled b = false
         ∧ next_disabled b = true.
Proof.
  split; [reflexivity|].
  pose proof (leaderboard_pagination merge_order merge_order_backwards db25 "3" team_all
                merge_order_backwards_sound) as H.
  cbv zeta in H. destruct H as (_ & _ & _ & _ & _ & _ & _ & Hscenario).
  apply Hscenario. reflexivity.
Defined.

(** C6.  Whatever page is shown, by the command or by a button, the "Your
    Rank" field is the caller's 1-based position in the whole ranked
    sequence, the answer to the rank query, which is the population (the rows
    of the store that are not excluded and are of the team asked for) sorted
    by points: the number shown is more than the number of rows of the
    population with more points than the caller and at most the number with
    at least as many.  There is no such field exactly when no row of the
    population has the caller's id. *)
Theorem leaderboard_own_rank_is_global rankOrder pageOrder db caller teamOption :
  orders_by_points rankOrder →
  let everyone := population db teamOption in
  let ranked := rank_query rankOrder db teamOption in
  ranked ≡ₚ everyone
  ∧ (∀ u, u ∈ everyone
          ↔ u ∈ db ∧ (discord_id u ∉ EXCLUDED_USER_IDS)
            ∧ match teamOption with team_all => True | team_only t => team u = Some t end)
  ∧ (∀ (i j : nat) u v,
       (i ≤ j)%nat → ranked !! i = Some u → ranked !! j = Some v →
       (points v ≤ points u)%Z)
  ∧ (∀ pageOption b,
       leaderboard rankOrder pageOrder db caller teamOption pageOption = ShowBoard b →
       your_rank b = own_rank ranked caller)
  ∧ (∀ owner action currentPage b,
       leaderboard_button rankOrder pageOrder db caller owner action teamOption currentPage
       = ShowBoard b →
       your_rank b = own_rank ranked caller)
  ∧ (own_rank ranked caller = None ↔ ∀ u, u ∈ everyone → discord_id u ≠ caller)
  ∧ (∀ r u,
       own_rank ranked caller = Some (r, u) →
       u ∈ everyone ∧ discord_id u = caller
       ∧ ranked !! Z.to_nat (r - 1) = Some u
       ∧ (count_above everyone u < r ≤ count_not_below everyone u)%Z
       ∧ (r ≤ Z.of_nat (length everyone))%Z
       ∧ ∀ (j : nat) v, ranked !! j = Some v → (Z.of_nat j < r - 1)%Z →
                        discord_id v ≠ caller).
Proof.
  intros Hrank everyone ranked.
  pose proof (rank_query_permutation rankOrder db teamOption Hrank) as Hperm.
  split_and!.
  - done.
  - apply population_elem_of.
  - intros i j u v Hij Hi Hj.
    apply (StronglySorted_lookup_le points_desc ranked i j u v); [|done..].
    by apply rank_query_sorted.
  - intros pageOption b Hb. unfold leaderboard in Hb.
    destruct (range _ _ _) as [data|]; [|done].
    case_bool_decide; [done|]. injection Hb as <-.
    apply render_board_your_rank.
  - intros owner action currentPage b Hb. unfold leaderboard_button in Hb.
    case_bool_decide; [done|].
    destruct (range _ _ _) as [data|]; [|done]. injection Hb as <-.
    apply render_board_your_rank.
  - rewrite own_rank_None. split; intros H u Hu; apply H.
    + unfold ranked. by rewrite Hperm.
    + unfold ranked in Hu. by rewrite Hperm in Hu.
  - intros r u Hown. apply own_rank_Some in Hown as (Hr & Hu & Hid & Hfirst).
    pose proof (rank_query_position rankOrder db teamOption _ u Hrank Hu) as Hpos.
    pose proof (lookup_lt_Some _ _ _ Hu) as Hlt.
    fold ranked in Hlt. unfold ranked in Hlt. rewrite Hperm in Hlt. fold everyone in Hlt.
    assert (u ∈ everyone) as Hin.
    { apply list_elem_of_lookup_2 in Hu. unfold ranked in Hu. by rewrite Hperm in Hu. }
    fold everyone in Hpos.
    split; [done|]. split; [done|]. split; [done|]. split; [lia|]. split; [lia|done].
Qed.

Lemma leaderboard_own_rank_is_global_witness :
  ∃ b, leaderboard merge_order merge_order_backwards db25 "3" team_all (Some 3%Z)
       = ShowBoard b
       ∧ your_rank b = own_rank (rank_query merge_order db25 team_all) "3".
Proof.
  destruct (leaderboard merge_order merge_order_backwards db25 "3" team_all (Some 3%Z))
    as [| | |b] eqn:Hb; [discriminate Hb..|].
  exists b. split; [reflexivity|].
  pose proof (leaderboard_own_rank_is_global merge_order merge_order_backwards db25 "3"
                team_all merge_order_sound) as H.
  cbv zeta in H. destruct H as (_ & _ & _ & Hcmd & _). apply (Hcmd (Some 3%Z)). exact Hb.
Defined.

(** ** CSV Formatter *)

Lemma member_has_or member BASE WINNER :
  member_has member BASE || member_has member WINNER
  = bool_decide (BASE ∈ default (∅ : gset string) member
                 ∨ WINNER ∈ default (∅ : gset string) member).
Proof.
  destruct member as [roles|]; simpl.
  - by rewrite bool_decide_or.
  - rewrite bool_decide_eq_false_2; [done|]. intros [H|H]; by apply not_elem_of_empty in H.
Qed.

Lemma csv_row_spec_line includeId membersMap u :
  csv_row includeId membersMap u = spec_line includeId (resolved_flags membersMap) u.
Proof.
  unfold csv_row, spec_line, resolved_flags, yes_no, flag_letter. rewrite !member_has_or.
  by destruct includeId.
Qed.

Lemma resolved_flag_held (membersMap : gmap string (gset string)) (id BASE WINNER : string) :
  bool_decide (BASE ∈ default (∅ : gset string) (membersMap !! id)
               ∨ WINNER ∈ default (∅ : gset string) (membersMap !! id)) = true
  ↔ ∃ roles, membersMap !! id = Some roles ∧ (BASE ∈ roles ∨ WINNER ∈ roles).
Proof.
  rewrite bool_decide_eq_true. destruct (membersMap !! id) as [roles|]; simpl.
  - split; [intros H; by exists roles|]. by intros (r & [= <-] & H).
  - split; [|by intros (r & ? & _)]. intros [H|H]; by apply not_elem_of_empty in H.
Qed.

(** C7.  [createCSV] is the header line for [includeDiscordId], a line feed,
    and the data lines joined by line feeds; the data lines are, in the order
    of the input rows, the comma-joined field values, nothing quoted or
    escaped, with for each of the three role flags the letter Y when the flag
    is set and N when it is not; a flag is set when the row's member was
    fetched and holds the role of that category or its winner variant.  For
    the single row of the spec's scenario, all flags false, the output is the
    header line, a line feed and [1,0xABC,10,N,N,N]; were the member to hold
    the whitelist role and the moolalist winner role, the line would be
    [1,0xABC,10,Y,Y,N]. *)
Theorem createCSV_format :
  (∀ gw data includeId guild,
     createCSV gw data includeId guild
     = spec_header includeId +:+ NL
       +:+ String.concat NL
             (spec_line includeId (resolved_flags (csv_members gw guild data)) <$> data))
  ∧ spec_header true = "discord_id,address,points,wl_role,ml_role,free_mint_role"
  ∧ spec_header false = "address,points,wl_role,ml_role,free_mint_role"
  ∧ (∀ flags id addr pts team,
       let u := mkUser id addr pts team in
       spec_line true flags u
       = id +:+ "," +:+ js_text addr +:+ "," +:+ pretty pts
         +:+ "," +:+ (if wl_role (flags u) then "Y" else "N")
         +:+ "," +:+ (if ml_role (flags u) then "Y" else "N")
         +:+ "," +:+ (if free_mint_role (flags u) then "Y" else "N")
       ∧ spec_line false flags u
         = js_text addr +:+ "," +:+ pretty pts
           +:+ "," +:+ (if wl_role (flags u) then "Y" else "N")
           +:+ "," +:+ (if ml_role (flags u) then "Y" else "N")
           +:+ "," +:+ (if free_mint_role (flags u) then "Y" else "N"))
  ∧ (∀ membersMap u,
       (wl_role (resolved_flags membersMap u) = true
        ↔ ∃ roles, membersMap !! discord_id u = Some roles
                   ∧ (WHITELIST_ROLE_ID ∈ roles ∨ WL_WINNER_ROLE_ID ∈ roles))
       ∧ (ml_role (resolved_flags membersMap u) = true
          ↔ ∃ roles, membersMap !! discord_id u = Some roles
                     ∧ (MOOLALIST_ROLE_ID ∈ roles ∨ ML_WINNER_ROLE_ID ∈ roles))
       ∧ (free_mint_role (resolved_flags membersMap u) = true
          ↔ ∃ roles, membersMap !! discord_id u = Some roles
                     ∧ (FREE_MINT_ROLE_ID ∈ roles ∨ FREE_MINT_WINNER_ROLE_ID ∈ roles)))
  ∧ createCSV gateway_up csv_scenario_data true csv_scenario_guild
    = "discord_id,address,points,wl_role,ml_role,free_mint_role" +:+ NL
      +:+ "1,0xABC,10,N,N,N"
  ∧ createCSV gateway_up csv_scenario_data true csv_holder_guild
    = "discord_id,address,points,wl_role,ml_role,free_mint_role" +:+ NL
      +:+ "1,0xABC,10,Y,Y,N".
Proof.
  split_and!.
  - intros gw data includeId guild. unfold createCSV.
    rewrite (list_fmap_ext (csv_row includeId (csv_members gw guild data))
               (spec_line includeId (resolved_flags (csv_members gw guild data))) data)
      by (intros; apply csv_row_spec_line).
    by destruct includeId.
  - done.
  - done.
  - intros flags id addr pts team u. unfold spec_line, flag_letter. cbn [discord_id address points].
    by destruct (wl_role (flags u)), (ml_role (flags u)), (free_mint_role (flags u)).
  - intros membersMap u. unfold resolved_flags. cbn [wl_role ml_role free_mint_role].
    split_and!; apply resolved_flag_held.
  - vm_compute. reflexivity.
  - vm_compute. reflexivity.
Qed.

(** ** /fine and /transfer *)

Lemma select_single_apply_write db id v u :
  select_single db id = Some u →
  select_single (apply_write db {| write_id := id; write_points := v |}) id
  = Some {| discord_id := discord_id u; address := address u; points := v; team := team u |}.
Proof.
  unfold select_single, apply_write. simpl.
  set (f := λ u0 : User, if decide (discord_id u0 = id)
                         then {| discord_id := discord_id u0; address := address u0;
                                 points := v; team := team u0 |} else u0).
  assert (∀ l : list User, filter (λ x, discord_id x = id) (f <$> l)
               = f <$> filter (λ x, discord_id x = id) l) as Hcomm.
  { induction l as [|x l IH]; [done|]. rewrite fmap_cons, !filter_cons.
    assert (discord_id (f x) = discord_id x) as Hfx by (unfold f; by case_decide).
    rewrite Hfx. case_decide; [|done]. by rewrite fmap_cons, IH. }
  rewrite Hcomm.
  destruct (filter _ db) as [|x [|y l]] eqn:Hf; intros Hu; simplify_eq/=.
  assert (u ∈ filter (λ x, discord_id x = id) db) as Hin by (rewrite Hf; left).
  apply list_elem_of_filter in Hin as [Hid _].
  unfold f. by rewrite decide_True.
Qed.

(** C8 (as amended).  For an admin fining a user who has a row in the store:
    when the user's points are strictly less than the amount, the command is
    rejected with a message and issues no store write, so the balance stays
    (30 stays 30 for a fine of 50); when the amount is positive and at most
    the points, the one write sets the points to points minus amount; an
    amount of zero or less is rejected with no write. *)
Theorem fine_floor db target amount u :
  select_single db target = Some u →
  let result := fine db true (Some target) (Some amount) in
  ((points u < amount)%Z →
     writes result = []
     ∧ (reply result = "The user doesn't have enough points for this fine."
        ∨ reply result = "Please provide a valid user and a positive amount.")
     ∧ balance (apply_writes db (writes result)) target = Some (points u))
  ∧ ((0 < amount ≤ points u)%Z →
       writes result = [ {| write_id := target; write_points := (points u - amount)%Z |} ]
       ∧ balance (apply_writes db (writes result)) target = Some (points u - amount)%Z)
  ∧ ((amount ≤ 0)%Z →
       writes result = []
       ∧ reply result = "Please provide a valid user and a positive amount."
       ∧ balance (apply_writes db (writes result)) target = Some (points u))
  ∧ (points u = 30%Z → amount = 50%Z →
       writes result = []
       ∧ balance (apply_writes db (writes result)) target = Some 30%Z).
Proof.
  intros Hu result.
  assert (balance db target = Some (points u)) as Hbal
    by (unfold balance; by rewrite Hu).
  assert ((amount ≤ 0)%Z →
          result = {| reply := "Please provide a valid user and a positive amount.";
                      writes := [] |}) as Hinvalid.
  { intros Hle. unfold result, fine. simpl.
    destruct (Z.eqb_spec amount 0); [done|].
    destruct (Z.leb_spec amount 0); [done|exfalso; lia]. }
  assert ((0 < amount)%Z → (points u < amount)%Z →
          result = {| reply := "The user doesn't have enough points for this fine.";
                      writes := [] |}) as Hshort.
  { intros Hpos Hlt. unfold result, fine. simpl.
    destruct (Z.eqb_spec amount 0); [exfalso; lia|].
    destruct (Z.leb_spec amount 0); [exfalso; lia|]. simpl. rewrite Hu.
    destruct (Z.ltb_spec (points u) amount); [done|exfalso; lia]. }
  assert ((points u < amount)%Z → writes result = []
          ∧ (reply result = "The user doesn't have enough points for this fine."
             ∨ reply result = "Please provide a valid user and a positive amount.")
          ∧ balance (apply_writes db (writes result)) target = Some (points u)) as Hreject.
  { intros Hlt. destruct (decide (amount ≤ 0)%Z) as [Hle|Hpos].
    - rewrite (Hinvalid Hle). simpl. auto.
    - rewrite Hshort by lia. simpl. auto. }
  split_and!.
  - done.
  - intros [Hpos Hle]. unfold result, fine. simpl.
    destruct (Z.eqb_spec amount 0); [exfalso; lia|].
    destruct (Z.leb_spec amount 0); [exfalso; lia|]. simpl. rewrite Hu.
    destruct (Z.ltb_spec (points u) amount); [exfalso; lia|]. simpl.
    split; [done|]. unfold balance.
    by rewrite (select_single_apply_write db target _ u Hu).
  - intros Hle. rewrite (Hinvalid Hle). simpl. auto.
  - intros H30 H50. destruct Hreject as (Hw & _ & Hb); [lia|]. rewrite Hb, H30. done.
Qed.

Lemma fine_floor_witness :
  select_single fine_scenario_db "u" = Some (mkUser "u" (Some "0xABC") 30 (Some bullas))
  ∧ writes (fine fine_scenario_db true (Some "u") (Some 50%Z)) = []
  ∧ balance (apply_writes fine_scenario_db
               (writes (fine fine_scenario_db true (Some "u") (Some 50%Z)))) "u"
    = Some 30%Z.
Proof.
  split; [reflexivity|].
  pose proof (fine_floor fine_scenario_db "u" 50%Z
                (mkUser "u" (Some "0xABC") 30 (Some bullas)) eq_refl) as H.
  destruct H as (_ & _ & _ & Hscenario). apply Hscenario; reflexivity.
Defined.

(** C8 as stated fails: the user has 30 points, which is not less than the
    amount -5, yet the points are not set to 30 - (-5); the command is
    rejected and the balance stays 30. *)
Lemma fine_rejects_a_negative_amount :
  (30 <? -5)%Z = false
  ∧ fine fine_scenario_db true (Some "u") (Some (-5)%Z)
    = {| reply := "Please provide a valid user and a positive amount."; writes := [] |}
  ∧ balance (apply_writes fine_scenario_db
               (writes (fine fine_scenario_db true (Some "u") (Some (-5)%Z)))) "u"
    = Some 30%Z
  ∧ balance (apply_writes fine_scenario_db
               (writes (fine fine_scenario_db true (Some "u") (Some (-5)%Z)))) "u"
    ≠ Some (30 - (-5))%Z.
Proof. vm_compute. split_and!; [done|done|done|discriminate]. Qed.

(** C9 fails on the code: a negative amount is not rejected.  The admin's
    transfer of -10 to a user goes through and issues both writes: the
    sender's points go up to 110 and the receiver's down to 40. *)
Theorem transfer_accepts_a_negative_amount :
  transfer transfer_db true "admin" (Some "v") (Some (-10)%Z)
  = {| reply := "Successfully transferred -10 points to <@v>.";
       writes := [ {| write_id := "admin"; write_points := 110 |};
                   {| write_id := "v"; write_points := 40 |} ] |}
  ∧ balance (apply_writes transfer_db
               (writes (transfer transfer_db true "admin" (Some "v") (Some (-10)%Z)))) "admin"
    = Some 110%Z
  ∧ balance (apply_writes transfer_db
               (writes (transfer transfer_db true "admin" (Some "v") (Some (-10)%Z)))) "v"
    = Some 40%Z.
Proof. vm_compute. done. Qed.

(** What does hold of [/transfer]: a missing target user, or an amount that is
    missing or zero, is rejected at once with no store write. *)
Lemma transfer_rejects_missing_input db userId targetUser amount :
  targetUser = None ∨ amount = None ∨ amount = Some 0%Z →
  transfer db true userId targetUser amount
  = {| reply := "Please provide a valid user and amount."; writes := [] |}.
Proof.
  intros [->|[->| ->]]; unfold transfer; simpl; [done|by destruct targetUser..].
Qed.

(** The sibling command does reject every non-positive amount. *)
Lemma fine_rejects_non_positive_amount db target amount :
  (amount ≤ 0)%Z →
  fine db true (Some target) (Some amount)
  = {| reply := "Please provide a valid user and a positive amount."; writes := [] |}.
Proof.
  intros Hle. unfold fine. simpl.
  destruct (Z.eqb_spec amount 0); [done|].
  destruct (Z.leb_spec amount 0); [done|exfalso; lia].
Qed.

(** * Further properties of the code *)

#[local] Set Warnings "-clear-no-such-hyp".

(** ** [updateRoles]: what it touches *)

Global Instance changed_within_preorder ids plus minus :
  PreOrder (changed_within ids plus minus).
Proof.
  split.
  - intros g. split; [done|]. intros id.
    destruct (guild_members g !! id) as [roles|]; [|done].
    split_and!; [set_solver|set_solver|done].
  - intros g1 g2 g3 [Hr12 H12] [Hr23 H23]. split; [congruence|]. intros id.
    specialize (H12 id). specialize (H23 id).
    destruct (guild_members g1 !! id) as [r1|], (guild_members g2 !! id) as [r2|],
      (guild_members g3 !! id) as [r3|]; try done.
    destruct H12 as (Ha & Hb & Hc), H23 as (Hd & He & Hf).
    split_and!; [set_solver|set_solver|].
    intros Hid. by rewrite Hf, Hc.
Qed.

Lemma grant_changed_within ids plus minus member role g :
  member ∈ ids → role ∈ plus →
  changed_within ids plus minus g (grant member role g).
Proof.
  intros Hmember Hrole. split; [done|]. intros id. unfold grant; simpl.
  destruct (decide (id = member)) as [->|Hne].
  - rewrite lookup_alter_eq. destruct (guild_members g !! member) as [roles|]; simpl; [|done].
    split_and!; [set_solver|set_solver|done].
  - rewrite lookup_alter_ne by done. destruct (guild_members g !! id) as [roles|]; [|done].
    split_and!; [set_solver|set_solver|done].
Qed.

Lemma changed_within_weaken ids ids' plus minus g g' :
  ids ⊆ ids' → changed_within ids plus minus g g' → changed_within ids' plus minus g g'.
Proof.
  intros Hsub [Hroles H]. split; [done|]. intros id. specialize (H id).
  destruct (guild_members g !! id), (guild_members g' !! id); try done.
  destruct H as (? & ? & Hout). split_and!; [done..|].
  intros Hid. apply Hout. intros Hin. apply Hid, Hsub, Hin.
Qed.

Lemma process_player_changed_within gw sim wl ml fm p :
  preserves (changed_within [discord_id p] base_roles ∅)
    (process_player gw sim wl ml fm p).
Proof.
  unfold process_player. destruct (truthy _); [|apply preserves_ret; apply _].
  apply preserves_try_catch, preserves_fetch_bind; [apply _..|].
  repeat (apply preserves_bind; [apply _| |intros _]);
    (apply preserves_threshold_block; [apply _|]); intros g;
    (apply grant_changed_within; [left|unfold base_roles; set_solver]).
Qed.

Lemma for_players_changed_within gw sim wl ml fm players :
  preserves (changed_within (discord_id <$> players) base_roles ∅)
    (for_players (process_player gw sim wl ml fm) players).
Proof.
  apply preserves_for_players; [apply _|]. intros p Hp s.
  apply (changed_within_weaken [discord_id p]).
  - intros id ->%list_elem_of_singleton. by apply list_elem_of_fmap_2.
  - apply process_player_changed_within.
Qed.

(** X1.  Whatever the gateway answers and in either mode, [updateRoles]
    leaves the guild's role cache and its set of members as they are; a
    member gains at most the three base roles (never a winner role) and loses
    none; a member whose id is not the id of a target player holds exactly
    the roles it held. *)
Theorem updateRoles_changes_only_target_base_roles gw db g teamType wl ml fm sim id :
  guild_roles (updateRoles gw db g teamType wl ml fm sim).2 = guild_roles g
  ∧ (guild_members g !! id = None →
     guild_members (updateRoles gw db g teamType wl ml fm sim).2 !! id = None)
  ∧ (∀ roles,
       guild_members g !! id = Some roles →
       ∃ roles',
         guild_members (updateRoles gw db g teamType wl ml fm sim).2 !! id = Some roles'
         ∧ roles ⊆ roles'
         ∧ roles' ⊆ roles ∪ base_roles
         ∧ (id ∉ discord_id <$> target_players db teamType → roles' = roles)).
Proof.
  assert (changed_within (discord_id <$> target_players db teamType) base_roles ∅ g
            (updateRoles gw db g teamType wl ml fm sim).2) as [Hroles Hmembers].
  { unfold updateRoles. destruct (negb (all_roles_cached g)); simpl; [reflexivity|].
    pose proof (for_players_changed_within gw sim wl ml fm (target_players db teamType)
                  {| rs_guild := g; rs_log := empty_log |}) as Hrun.
    by destruct (for_players _ _ _) as [outcome s]. }
  specialize (Hmembers id). split; [done|]. split.
  - intros Hnone. rewrite Hnone in Hmembers.
    by destruct (guild_members _ !! id).
  - intros roles Hsome. rewrite Hsome in Hmembers.
    destruct (guild_members _ !! id) as [roles'|]; [|done].
    destruct Hmembers as (Hkept & Hgain & Hout).
    exists roles'. split_and!; [done|set_solver|done|done].
Qed.

Lemma updateRoles_changes_only_target_base_roles_witness :
  guild_members scenario_guild !! "b" = Some ∅
  ∧ ∃ roles',
      guild_members
        (updateRoles gateway_up holder_db scenario_guild winning 100 200 500 false).2 !! "b"
      = Some roles'
      ∧ ∅ ⊆ roles'
      ∧ roles' ⊆ ∅ ∪ base_roles
      ∧ ("b" ∉ discord_id <$> target_players holder_db winning → roles' = ∅).
Proof.
  split; [reflexivity|].
  apply (updateRoles_changes_only_target_base_roles gateway_up holder_db scenario_guild
           winning 100 200 500 false "b"). reflexivity.
Defined.

(** X2.  A dry run issues no grant: it returns the guild it was given, and
    its result is the same whether the gateway would accept or refuse
    [roles.add] (or a batched fetch).  The members the run resolves, with
    their roles, are part of the guild it is given. *)
Theorem updateRoles_dry_run_issues_no_grant gw gw' db g teamType wl ml fm :
  (updateRoles gw db g teamType wl ml fm true).2 = g
  ∧ updateRoles gw' db g teamType wl ml fm true = updateRoles gw db g teamType wl ml fm true.
Proof.
  split; [apply updateRoles_dry_run_guild|].
  apply injective_projections.
  - destruct (all_roles_cached g) eqn:Hroles.
    + by rewrite !updateRoles_log.
    + unfold updateRoles. by rewrite Hroles.
  - by rewrite !updateRoles_dry_run_guild.
Qed.

(** ** [updateRoles]: running it again *)

Lemma changed_within_outside ids plus minus g g' id :
  changed_within ids plus minus g g' → id ∉ ids →
  guild_members g' !! id = guild_members g !! id.
Proof.
  intros [_ H] Hid. specialize (H id).
  destruct (guild_members g !! id), (guild_members g' !! id); try done.
  destruct H as (_ & _ & Hout). by rewrite Hout.
Qed.

(** After a real run over players with distinct ids, every grant accepted,
    each player's id holds what its own step left there. *)
Lemma for_players_real_lookup gw wl ml fm players s p :
  NoDup (discord_id <$> players) → grants_accepted gw players → p ∈ players →
  guild_members (rs_guild (for_players (process_player gw false wl ml fm) players s).2)
    !! discord_id p
  = expected_member wl ml fm p (rs_guild s).
Proof.
  intros Hnd Hok Hp. apply for_players_real_lookup_issued; [done| |done].
  by apply grants_accepted_issued.
Qed.

Lemma verdict_after_block c pts thr roles :
  verdict (after_block c pts thr roles) pts thr c
  = (λ _, Existing) <$> verdict roles pts thr c.
Proof.
  unfold after_block, verdict. case_bool_decide; [|done].
  destruct (decide (base_role c ∈ roles ∨ winner_role c ∈ roles)) as [Hheld|Hheld].
  - rewrite (bool_decide_eq_true_2 _ Hheld). simpl.
    by rewrite (bool_decide_eq_true_2 _ Hheld).
  - rewrite (bool_decide_eq_false_2 _ Hheld). simpl.
    rewrite bool_decide_eq_true_2; [done|]. left. set_solver.
Qed.

Lemma verdict_existing_mono c pts thr roles roles' (v : option Verdict) :
  roles ⊆ roles' →
  verdict roles pts thr c = (λ _, Existing) <$> v →
  verdict roles' pts thr c = (λ _, Existing) <$> v.
Proof.
  unfold verdict. intros Hsub. case_bool_decide; [|done].
  case_bool_decide as Hheld; destruct v; simpl; try done.
  intros _. rewrite bool_decide_eq_true_2; [done|]. set_solver.
Qed.

(** Against the reconciled roles every verdict that was "added" or "existing"
    is "existing", and a player below the threshold still has none. *)
Lemma verdict_reconciled wl ml fm pts roles c :
  verdict (reconciled_roles wl ml fm pts roles) pts (threshold_of wl ml fm c) c
  = (λ _, Existing) <$> verdict roles pts (threshold_of wl ml fm c) c.
Proof.
  unfold reconciled_roles. destruct c; simpl.
  - apply (verdict_existing_mono _ _ _ (after_block Whitelist pts wl roles)).
    + etrans; apply after_block_subseteq.
    + apply verdict_after_block.
  - apply (verdict_existing_mono _ _ _
             (after_block Moolalist pts ml (after_block Whitelist pts wl roles))).
    + apply after_block_subseteq.
    + rewrite verdict_after_block. by rewrite after_block_other.
  - rewrite verdict_after_block. by rewrite !after_block_other.
Qed.

Lemma count_verdict_after g g' thr c players :
  (∀ p, p ∈ players →
     member_verdict g' thr c p = (λ _, Existing) <$> member_verdict g thr c p) →
  count_verdict g' thr c Added players = 0
  ∧ count_verdict g' thr c Existing players
    = count_verdict g thr c Added players + count_verdict g thr c Existing players.
Proof.
  unfold count_verdict. induction players as [|p rest IH]; intros H; [done|].
  destruct IH as [IHa IHe]; [intros q Hq; apply H; by right|].
  rewrite !filter_cons. rewrite (H p) by left.
  destruct (member_verdict g thr c p) as [[]|]; simpl;
    repeat case_decide; try done; simpl; lia.
Qed.

Lemma updateRoles_changed_within gw db g teamType wl ml fm sim :
  changed_within (discord_id <$> target_players db teamType) base_roles ∅ g
    (updateRoles gw db g teamType wl ml fm sim).2.
Proof.
  unfold updateRoles. destruct (negb (all_roles_cached g)); simpl; [reflexivity|].
  pose proof (for_players_changed_within gw sim wl ml fm (target_players db teamType)
                {| rs_guild := g; rs_log := empty_log |}) as Hrun.
  by destruct (for_players _ _ _) as [outcome s].
Qed.

Lemma updateRoles_real_lookup gw db g teamType wl ml fm p :
  all_roles_cached g = true →
  NoDup (discord_id <$> target_players db teamType) →
  grants_accepted gw (target_players db teamType) →
  p ∈ target_players db teamType →
  guild_members (updateRoles gw db g teamType wl ml fm false).2 !! discord_id p
  = expected_member wl ml fm p g.
Proof.
  intros Hroles Hnd Hok Hp. unfold updateRoles. rewrite Hroles. simpl.
  pose proof (for_players_real_lookup gw wl ml fm (target_players db teamType)
                {| rs_guild := g; rs_log := empty_log |} p Hnd Hok Hp) as Hrun.
  by destruct (for_players _ _ _) as [outcome s].
Qed.

Lemma member_verdict_expected wl ml fm g g' p c :
  guild_members g' !! discord_id p = expected_member wl ml fm p g →
  member_verdict g' (threshold_of wl ml fm c) c p
  = (λ _, Existing) <$> member_verdict g (threshold_of wl ml fm c) c p.
Proof.
  intros Hg'. unfold member_verdict, expected_member in *.
  destruct (truthy (discord_id p)); [|done]. rewrite Hg'.
  destruct (guild_members g !! discord_id p) as [roles|]; simpl; [|done].
  apply verdict_reconciled.
Qed.

Lemma reconciled_roles_idemp wl ml fm pts roles :
  reconciled_roles wl ml fm pts (reconciled_roles wl ml fm pts roles)
  = reconciled_roles wl ml fm pts roles.
Proof.
  set (R := reconciled_roles wl ml fm pts roles).
  assert (∀ c, after_block c pts (threshold_of wl ml fm c) R = R) as Hfix.
  { intros c. unfold after_block, R. rewrite verdict_reconciled.
    by destruct (verdict roles pts _ c) as [[]|]. }
  pose proof (Hfix Whitelist) as Hw. pose proof (Hfix Moolalist) as Hm.
  pose proof (Hfix Freemint) as Hf. simpl in Hw, Hm, Hf.
  unfold reconciled_roles at 1. by rewrite Hw, Hm, Hf.
Qed.

Lemma all_roles_cached_same g g' :
  guild_roles g' = guild_roles g → all_roles_cached g' = all_roles_cached g.
Proof. intros H. unfold all_roles_cached. by rewrite H. Qed.

(** X3.  Run for real with every grant accepted (six roles cached, distinct
    ids), then run again on the guild as the first run left it, simulated or
    real: the second run adds nothing, counts as existing everyone the first
    run counted as added or existing, and changes no member's roles. *)
Theorem updateRoles_second_run_adds_nothing gw db g teamType wl ml fm sim :
  all_roles_cached g = true →
  NoDup (discord_id <$> target_players db teamType) →
  grants_accepted gw (target_players db teamType) →
  let first := updateRoles gw db g teamType wl ml fm false in
  let second := updateRoles gw db first.2 teamType wl ml fm sim in
  added (whitelist second.1) = 0
  ∧ added (moolalist second.1) = 0
  ∧ added (freemint second.1) = 0
  ∧ existing (whitelist second.1) = added (whitelist first.1) + existing (whitelist first.1)
  ∧ existing (moolalist second.1) = added (moolalist first.1) + existing (moolalist first.1)
  ∧ existing (freemint second.1) = added (freemint first.1) + existing (freemint first.1)
  ∧ ∀ id, guild_members second.2 !! id = guild_members first.2 !! id.
Proof.
  intros Hroles Hnd Hok first second.
  pose proof (updateRoles_changed_within gw db g teamType wl ml fm false) as Hfirst.
  fold first in Hfirst.
  assert (all_roles_cached first.2 = true) as Hroles1.
  { rewrite <- Hroles. apply all_roles_cached_same. by destruct Hfirst. }
  assert (first.1 = spec_log g wl ml fm (target_players db teamType)) as Hlog1.
  { by apply updateRoles_log. }
  assert (second.1 = spec_log first.2 wl ml fm (target_players db teamType)) as Hlog2.
  { by apply updateRoles_log. }
  assert (∀ c p, p ∈ target_players db teamType →
            member_verdict first.2 (threshold_of wl ml fm c) c p
            = (λ _, Existing) <$> member_verdict g (threshold_of wl ml fm c) c p) as Hverdict.
  { intros c p Hp. apply member_verdict_expected. by apply updateRoles_real_lookup. }
  destruct (count_verdict_after g first.2 wl Whitelist (target_players db teamType))
    as [Hwa Hwe]; [apply (Hverdict Whitelist)|].
  destruct (count_verdict_after g first.2 ml Moolalist (target_players db teamType))
    as [Hma Hme]; [apply (Hverdict Moolalist)|].
  destruct (count_verdict_after g first.2 fm Freemint (target_players db teamType))
    as [Hfa Hfe]; [apply (Hverdict Freemint)|].
  rewrite Hlog1, Hlog2. simpl.
  split_and!; [done..|].
  intros id. destruct sim.
  { subst second. by rewrite updateRoles_dry_run_guild. }
  destruct (decide (id ∈ discord_id <$> target_players db teamType)) as [Hin|Hout].
  - apply list_elem_of_fmap in Hin as (p & -> & Hp).
    unfold second. rewrite updateRoles_real_lookup by done.
    unfold first. unfold expected_member at 1.
    rewrite updateRoles_real_lookup by done. unfold expected_member.
    destruct (truthy (discord_id p)); [|done].
    destruct (guild_members g !! discord_id p) as [roles|]; simpl; [|done].
    by rewrite reconciled_roles_idemp.
  - apply (changed_within_outside (discord_id <$> target_players db teamType)
             base_roles ∅ first.2); [|done].
    apply updateRoles_changed_within.
Qed.

Lemma updateRoles_second_run_adds_nothing_witness :
  added (whitelist
           (updateRoles gateway_up scenario_db
              (updateRoles gateway_up scenario_db scenario_guild winning 100 200 500 false).2
              winning 100 200 500 false).1) = 0
  ∧ existing (whitelist
                (updateRoles gateway_up scenario_db
                   (updateRoles gateway_up scenario_db scenario_guild winning 100 200 500 false).2
                   winning 100 200 500 false).1)
    = added (whitelist
               (updateRoles gateway_up scenario_db scenario_guild winning 100 200 500 false).1)
      + existing (whitelist
                    (updateRoles gateway_up scenario_db scenario_guild winning 100 200 500 false).1).
Proof.
  pose proof (updateRoles_second_run_adds_nothing gateway_up scenario_db scenario_guild
                winning 100 200 500 false) as H.
  destruct H as (Ha & _ & _ & He & _).
  - reflexivity.
  - apply (bool_decide_unpack _). vm_compute. exact I.
  - intros p role _. reflexivity.
  - split; [exact Ha|exact He].
Defined.

(** ** [updateRoles]: a refused grant only lowers the counters *)

Global Instance counter_le_preorder : PreOrder counter_le.
Proof. split; unfold counter_le; [intros a|intros a b c]; lia. Qed.

Global Instance log_le_preorder : PreOrder log_le.
Proof.
  split.
  - intros a. unfold log_le. split_and!; reflexivity.
  - intros a b c (?&?&?) (?&?&?). unfold log_le. split_and!; etrans; done.
Qed.

Lemma tally_le v c : counter_le c (tally v c).
Proof. destruct v as [[]|]; unfold counter_le; simpl; lia. Qed.

Lemma tally_mono v c c' : counter_le c c' → counter_le (tally v c) (tally v c').
Proof. destruct v as [[]|]; unfold counter_le; simpl; lia. Qed.

(** One block, whatever the gateway answers: the log is as it was or has the
    verdict tallied; the member keeps its roles and gains at most the base
    role. *)
Lemma threshold_block_any gw p member thr c cat s roles :
  guild_members (rs_guild s) !! member = Some roles →
  ∃ o s' roles',
    threshold_block gw false p member thr (base_role c) (winner_role c) cat s = (o, s')
    ∧ (rs_log s' = rs_log s
       ∨ rs_log s' = match verdict roles (points p) thr c with
                     | Some Added => cat incr_added (rs_log s)
                     | Some Existing => cat incr_existing (rs_log s)
                     | None => rs_log s
                     end)
    ∧ guild_members (rs_guild s') !! member = Some roles'
    ∧ roles ⊆ roles'
    ∧ (∀ r, r ∈ roles' → r ∉ roles → r = base_role c).
Proof.
  intros Hm.
  destruct (add_ok gw member (base_role c)) eqn:Hok.
  - destruct (threshold_block_run gw false p member thr c cat s roles Hm)
      as (s' & roles' & E & L & M & S & N); [done|].
    exists (Returned ()), s', roles'. split_and!; [done|by right|done..].
  - unfold threshold_block, verdict.
    case_bool_decide as Hthr.
    2:{ exists (Returned ()), s, roles. split_and!; [done|by left|done|done|by intros r ? ?]. }
    unfold mbind, Run_bind, roles_cache_has. rewrite Hm. simpl.
    destruct (decide (base_role c ∈ roles)) as [Hb|Hb].
    { rewrite (bool_decide_eq_true_2 _ Hb). simpl.
      rewrite bool_decide_eq_true_2 by (by left).
      eexists _, _, roles. split_and!; [done|by right|done|done|by intros r ? ?]. }
    rewrite (bool_decide_eq_false_2 _ Hb). simpl.
    destruct (decide (winner_role c ∈ roles)) as [Hw|Hw].
    { rewrite (bool_decide_eq_true_2 _ Hw). simpl.
      rewrite bool_decide_eq_true_2 by (by right).
      eexists _, _, roles. split_and!; [done|by right|done|done|by intros r ? ?]. }
    rewrite (bool_decide_eq_false_2 _ Hw). simpl.
    unfold roles_add. rewrite Hok. simpl.
    exists Thrown, s, roles. split_and!; [done|by left|done|done|by intros r ? ?].
Qed.

Lemma on_whitelist_le v l : log_le l (on_whitelist (tally v) l).
Proof. unfold log_le; simpl. split_and!; [apply tally_le|reflexivity..]. Qed.
Lemma on_moolalist_le v l : log_le l (on_moolalist (tally v) l).
Proof. unfold log_le; simpl. split_and!; [reflexivity|apply tally_le|reflexivity]. Qed.
Lemma on_freemint_le v l : log_le l (on_freemint (tally v) l).
Proof. unfold log_le; simpl. split_and!; [reflexivity..|apply tally_le]. Qed.

Lemma on_whitelist_mono v l l' :
  log_le l l' → log_le (on_whitelist (tally v) l) (on_whitelist (tally v) l').
Proof. intros (?&?&?). unfold log_le; simpl. split_and!; [by apply tally_mono|done..]. Qed.
Lemma on_moolalist_mono v l l' :
  log_le l l' → log_le (on_moolalist (tally v) l) (on_moolalist (tally v) l').
Proof. intros (?&?&?). unfold log_le; simpl. split_and!; [done|by apply tally_mono|done]. Qed.
Lemma on_freemint_mono v l l' :
  log_le l l' → log_le (on_freemint (tally v) l) (on_freemint (tally v) l').
Proof. intros (?&?&?). unfold log_le; simpl. split_and!; [done..|by apply tally_mono]. Qed.

Lemma tallied_eq cat v l :
  (∀ f, cat f = on_whitelist f) ∨ (∀ f, cat f = on_moolalist f) ∨ (∀ f, cat f = on_freemint f) →
  match v with
  | Some Added => cat incr_added l
  | Some Existing => cat incr_existing l
  | None => l
  end = cat (tally v) l.
Proof.
  intros Hcat. destruct v as [[]|]; try done.
  destruct Hcat as [H|[H|H]]; rewrite H; by destruct l.
Qed.

Lemma spec_step_unfold g wl ml fm log p :
  spec_step g wl ml fm log p
  = on_freemint (tally (member_verdict g fm Freemint p))
      (on_moolalist (tally (member_verdict g ml Moolalist p))
         (on_whitelist (tally (member_verdict g wl Whitelist p)) log)).
Proof. done. Qed.

Lemma process_player_log_le gw wl ml fm p s :
  log_le (rs_log (process_player gw false wl ml fm p s).2)
    (spec_step (rs_guild s) wl ml fm (rs_log s) p).
Proof.
  rewrite spec_step_unfold. unfold process_player.
  destruct (truthy (discord_id p)) eqn:Hid.
  2:{ simpl. etrans; [apply on_whitelist_le|]. etrans; [apply on_moolalist_le|].
      apply on_freemint_le. }
  unfold try_catch, mbind at 1, Run_bind at 1, members_fetch.
  destruct (guild_members (rs_guild s) !! discord_id p) as [roles|] eqn:Hm.
  2:{ simpl. etrans; [apply on_whitelist_le|]. etrans; [apply on_moolalist_le|].
      apply on_freemint_le. }
  unfold member_verdict. rewrite Hid, Hm. simpl.
  set (T1 := on_whitelist (tally (verdict roles (points p) wl Whitelist)) (rs_log s)).
  set (T2 := on_moolalist (tally (verdict roles (points p) ml Moolalist)) T1).
  destruct (threshold_block_any gw p (discord_id p) wl Whitelist on_whitelist s roles Hm)
    as (o1 & s1 & r1 & E1 & L1 & M1 & S1 & N1).
  rewrite tallied_eq in L1 by auto.
  assert (log_le (rs_log s1) T1) as H1.
  { destruct L1 as [->| ->]; [apply on_whitelist_le|reflexivity]. }
  simpl in E1. unfold mbind, Run_bind. rewrite E1.
  destruct o1 as [[]|].
  2:{ simpl. etrans; [exact H1|]. etrans; [apply on_moolalist_le|]. apply on_freemint_le. }
  destruct (threshold_block_any gw p (discord_id p) ml Moolalist on_moolalist s1 r1 M1)
    as (o2 & s2 & r2 & E2 & L2 & M2 & S2 & N2).
  rewrite tallied_eq in L2 by auto.
  rewrite (verdict_stable roles r1 _ _ Moolalist) in L2; [|done|].
  2:{ intros r Hr Hnr. rewrite (N1 r Hr Hnr). by split. }
  assert (log_le (rs_log s2) T2) as H2.
  { destruct L2 as [->| ->].
    - etrans; [exact H1|]. apply on_moolalist_le.
    - by apply on_moolalist_mono. }
  simpl in E2. rewrite E2.
  destruct o2 as [[]|].
  2:{ simpl. etrans; [exact H2|]. apply on_freemint_le. }
  destruct (threshold_block_any gw p (discord_id p) fm Freemint on_freemint s2 r2 M2)
    as (o3 & s3 & r3 & E3 & L3 & M3 & S3 & N3).
  rewrite tallied_eq in L3 by auto.
  rewrite (verdict_stable roles r2 _ _ Freemint) in L3; [|set_solver|].
  2:{ intros r Hr Hnr. destruct (decide (r ∈ r1)) as [Hr1|Hr1].
      - rewrite (N1 r Hr1 Hnr). by split.
      - rewrite (N2 r Hr Hr1). by split. }
  simpl in E3. rewrite E3.
  assert (log_le (rs_log s3)
            (on_freemint (tally (verdict roles (points p) fm Freemint)) T2)) as H3.
  { destruct L3 as [->| ->].
    - etrans; [exact H2|]. apply on_freemint_le.
    - by apply on_freemint_mono. }
  by destruct o3 as [[]|].
Qed.

Lemma spec_step_mono g wl ml fm l l' p :
  log_le l l' → log_le (spec_step g wl ml fm l p) (spec_step g wl ml fm l' p).
Proof.
  intros H. rewrite !spec_step_unfold.
  by apply on_freemint_mono, on_moolalist_mono, on_whitelist_mono.
Qed.

Lemma foldl_spec_step_mono g wl ml fm players l l' :
  log_le l l' →
  log_le (foldl (spec_step g wl ml fm) l players) (foldl (spec_step g wl ml fm) l' players).
Proof.
  revert l l'. induction players as [|p rest IH]; intros l l' H; simpl; [done|].
  by apply IH, spec_step_mono.
Qed.

Lemma for_players_log_le gw wl ml fm players s :
  NoDup (discord_id <$> players) →
  log_le (rs_log (for_players (process_player gw false wl ml fm) players s).2)
    (foldl (spec_step (rs_guild s) wl ml fm) (rs_log s) players).
Proof.
  revert s. induction players as [|p rest IH]; intros s Hnd; [reflexivity|].
  apply NoDup_cons in Hnd as [Hp Hnd].
  simpl. unfold mbind, Run_bind.
  pose proof (process_player_returns gw false wl ml fm p s) as Hret.
  pose proof (process_player_log_le gw wl ml fm p s) as Hle.
  pose proof (process_player_same_off gw false wl ml fm p s) as Hoff.
  destruct (process_player gw false wl ml fm p s) as [o s1]. simpl in *. subst o.
  etrans; [by apply IH|].
  rewrite (foldl_spec_step_same (rs_guild s) (rs_guild s1)).
  - by apply foldl_spec_step_mono.
  - intros q Hq. apply Hoff. intros Heq. apply Hp. rewrite <- Heq.
    by apply list_elem_of_fmap_2.
Qed.

(** X4.  With distinct ids among the target players and whatever the gateway
    answers, no counter of the real run exceeds that counter of the dry run
    on the same store and guild: a refused grant can only lower the counts. *)
Theorem updateRoles_real_at_most_dry_run gw db g teamType wl ml fm :
  NoDup (discord_id <$> target_players db teamType) →
  log_le (updateRoles gw db g teamType wl ml fm false).1
         (updateRoles gw db g teamType wl ml fm true).1.
Proof.
  intros Hnd. unfold updateRoles.
  destruct (negb (all_roles_cached g)); simpl; [reflexivity|].
  pose proof (for_players_log_le gw wl ml fm (target_players db teamType)
                {| rs_guild := g; rs_log := empty_log |} Hnd) as Hreal.
  pose proof (for_players_log gw true wl ml fm (target_players db teamType)
                {| rs_guild := g; rs_log := empty_log |}) as Hdry.
  destruct (for_players (process_player gw false _ _ _) _ _) as [o1 s1].
  destruct (for_players (process_player gw true _ _ _) _ _) as [o2 s2].
  simpl in *. rewrite Hdry; [done|]. intros [=].
Qed.

Lemma updateRoles_real_at_most_dry_run_witness :
  log_le (updateRoles gateway_refusing holder_db holder_guild winning 100 100 500 false).1
         (updateRoles gateway_refusing holder_db holder_guild winning 100 100 500 true).1.
Proof.
  apply updateRoles_real_at_most_dry_run.
  apply (bool_decide_unpack _). vm_compute. exact I.
Defined.

(** ** /alreadywanked *)

Lemma wanked_user_paged_eq gw st id : wanked_user_paged gw st id = wanked_user gw st id.
Proof.
  unfold wanked_user_paged, wanked_user, resolve_member. by destruct (truthy id).
Qed.

Lemma foldl_wanked_user_paged gw ids st :
  foldl (wanked_user_paged gw) st ids = foldl (wanked_user gw) st ids.
Proof.
  revert st. induction ids as [|id rest IH]; intros st; simpl; [done|].
  by rewrite wanked_user_paged_eq, IH.
Qed.

Lemma wanked_user_changed_within gw st id :
  changed_within [id] {[NEW_WANKME_ROLE_ID]} ∅ st.1 (wanked_user gw st id).1.
Proof.
  unfold wanked_user. destruct (resolve_member st.1 id); [|reflexivity].
  destruct (negb _); [|reflexivity].
  destruct (add_ok gw id NEW_WANKME_ROLE_ID); [|reflexivity].
  apply grant_changed_within; [left|set_solver].
Qed.

Lemma wanked_fold_changed_within gw ids st :
  changed_within ids {[NEW_WANKME_ROLE_ID]} ∅ st.1 (foldl (wanked_user gw) st ids).1.
Proof.
  revert st. induction ids as [|id rest IH]; intros st; simpl; [reflexivity|].
  etrans.
  - apply (changed_within_weaken [id]); [|apply wanked_user_changed_within].
    intros x ->%list_elem_of_singleton. left.
  - apply (changed_within_weaken rest); [|apply IH]. intros x Hx. by right.
Qed.

Lemma changed_within_resolve ids plus minus g g' id :
  changed_within ids plus minus g g' →
  is_Some (resolve_member g' id) ↔ is_Some (resolve_member g id).
Proof.
  intros [_ H]. specialize (H id). unfold resolve_member.
  destruct (truthy id); [|done].
  destruct (guild_members g !! id), (guild_members g' !! id);
    first [done | split; eauto].
Qed.

(** How many of the ids the guild resolves. *)
Lemma wanked_fold_counts gw ids st :
  let st' := foldl (wanked_user gw) st ids in
  (addedCount st'.2 + existingCount st'.2 + errorCount st'.2
   = addedCount st.2 + existingCount st.2 + errorCount st.2 + length ids)%nat.
Proof.
  revert st. induction ids as [|id rest IH]; intros st; simpl; [lia|].
  rewrite IH. unfold wanked_user.
  destruct (resolve_member st.1 id); simpl; [|lia].
  destruct (negb _); simpl; [|lia].
  destruct (add_ok gw id NEW_WANKME_ROLE_ID); simpl; lia.
Qed.

(** Fuel enough for the batches of a chunk, and what they do: one pass over
    the rest of the chunk. *)
Lemma wanked_batches_flat gw verifiedUsers fuel i run :
  (length verifiedUsers ≤ i + 100 * fuel)%nat →
  wanked_batches fuel gw verifiedUsers i run
  = let st := foldl (wanked_user gw) (pr_guild run, pr_counts run) (drop i verifiedUsers) in
    {| pr_guild := st.1; pr_counts := st.2;
       processedTotal := processedTotal run + length (drop i verifiedUsers) |}.
Proof.
  revert i run. induction fuel as [|fuel IH]; intros i run Hfuel; simpl.
  - rewrite drop_ge by lia. simpl. destruct run; simpl. f_equal. lia.
  - case_bool_decide as Hi.
    + rewrite IH by lia. simpl.
      rewrite foldl_wanked_user_paged.
      assert (drop i verifiedUsers
              = take 100 (drop i verifiedUsers) ++ drop (i + 100) verifiedUsers)%list
        as Hsplit by (by rewrite <- drop_drop, take_drop).
      set (batch := take 100 (drop i verifiedUsers)) in *.
      set (later := drop (i + 100) verifiedUsers) in *.
      rewrite Hsplit, foldl_app, length_app, <- surjective_pairing. f_equal. lia.
    + rewrite drop_ge by lia. simpl. destruct run; simpl. f_equal. lia.
Qed.

Lemma drop_length_take {A} (k : nat) (l : list A) : drop (length (take k l)) l = drop k l.
Proof.
  rewrite length_take. destruct (decide (k ≤ length l)%nat).
  - f_equal. lia.
  - rewrite !drop_ge by lia. done.
Qed.

Lemma wanked_chunks_flat gw ordered fuel run :
  (processedTotal run ≤ length ordered)%nat →
  (length ordered - processedTotal run < fuel)%nat →
  wanked_chunks fuel gw ordered run
  = let st := foldl (wanked_user gw) (pr_guild run, pr_counts run)
                (drop (processedTotal run) ordered) in
    {| pr_guild := st.1; pr_counts := st.2; processedTotal := length ordered |}.
Proof.
  revert run. induction fuel as [|fuel IH]; intros run Hle Hfuel; [lia|].
  cbn [wanked_chunks]. cbv zeta.
  set (chunk := take 1000 (drop (processedTotal run) ordered)).
  assert (length chunk ≤ length ordered - processedTotal run)%nat as Hchunk.
  { unfold chunk. rewrite length_take, length_drop. lia. }
  assert (drop (processedTotal run) ordered
          = chunk ++ drop (processedTotal run + length chunk) ordered)%list as Hsplit.
  { rewrite <- drop_drop. unfold chunk. by rewrite drop_length_take, take_drop. }
  case_bool_decide as Hempty.
  - assert (length ordered = processedTotal run) as Hall.
    { unfold chunk in Hempty. rewrite length_take, length_drop in Hempty. lia. }
    rewrite drop_ge by lia. destruct run; simpl in *. by rewrite Hall.
  - rewrite wanked_batches_flat by lia. rewrite drop_0. cbv zeta.
    rewrite IH; cbn [processedTotal pr_guild pr_counts]; [|lia..].
    rewrite <- surjective_pairing. rewrite Hsplit. by rewrite foldl_app.
Qed.

Lemma wanked_fold_resolve gw ids st id :
  is_Some (resolve_member (foldl (wanked_user gw) st ids).1 id)
  ↔ is_Some (resolve_member st.1 id).
Proof. eapply changed_within_resolve, wanked_fold_changed_within. Qed.

Lemma count_resolved_same g g' ids :
  (∀ id, is_Some (resolve_member g' id) ↔ is_Some (resolve_member g id)) →
  count_resolved g' ids = count_resolved g ids
  ∧ count_unresolved g' ids = count_unresolved g ids.
Proof.
  intros H. unfold count_resolved, count_unresolved.
  induction ids as [|id rest [IH1 IH2]]; [done|]. rewrite !filter_cons.
  pose proof (H id). repeat case_decide; simpl; try tauto; split; congruence.
Qed.

Lemma count_resolved_cons g id rest :
  (count_resolved g (id :: rest)
   = (if decide (is_Some (resolve_member g id)) then 1 else 0) + count_resolved g rest)%nat
  ∧ (count_unresolved g (id :: rest)
     = (if decide (is_Some (resolve_member g id)) then 0 else 1) + count_unresolved g rest)%nat.
Proof.
  unfold count_resolved, count_unresolved. rewrite !filter_cons.
  repeat case_decide; try done; tauto.
Qed.

(** A first pass with every grant accepted. *)
Lemma wanked_fold_accepted gw ids st :
  (∀ id, id ∈ ids → add_ok gw id NEW_WANKME_ROLE_ID = true) →
  let st' := foldl (wanked_user gw) st ids in
  (addedCount st'.2 + existingCount st'.2
   = addedCount st.2 + existingCount st.2 + count_resolved st.1 ids)%nat
  ∧ (errorCount st'.2 = errorCount st.2 + count_unresolved st.1 ids)%nat
  ∧ ∀ id roles, id ∈ ids → resolve_member st'.1 id = Some roles →
                NEW_WANKME_ROLE_ID ∈ roles.
Proof.
  revert st. induction ids as [|id rest IH]; intros st Hok; simpl.
  { split_and!; [unfold count_resolved; simpl; lia|unfold count_unresolved; simpl; lia|].
    intros id roles Hid. by apply elem_of_nil in Hid. }
  destruct (IH (wanked_user gw st id)) as (Hsum & Herr & Hnew).
  { intros x Hx. apply Hok. by right. }
  destruct (count_resolved_cons st.1 id rest) as [Hcr Hcu].
  destruct (count_resolved_same st.1 (wanked_user gw st id).1 rest) as [Hr Hu].
  { intros x. eapply changed_within_resolve, wanked_user_changed_within. }
  rewrite Hsum, Herr, Hcr, Hcu, Hr, Hu.
  assert (add_ok gw id NEW_WANKME_ROLE_ID = true) as Hadd by (apply Hok; left).
  split_and!.
  - unfold wanked_user. destruct (resolve_member st.1 id) eqn:Hres.
    + rewrite decide_True by eauto. destruct (negb _); simpl; [rewrite Hadd; simpl|]; lia.
    + rewrite decide_False by (by intros [? ?]). simpl. lia.
  - unfold wanked_user. destruct (resolve_member st.1 id) eqn:Hres.
    + rewrite decide_True by eauto. destruct (negb _); simpl; [rewrite Hadd; simpl|]; lia.
    + rewrite decide_False by (by intros [? ?]). simpl. lia.
  - intros x roles [->|Hx]%elem_of_cons Hroles; [|by eapply Hnew].
    pose proof (wanked_fold_changed_within gw rest (wanked_user gw st id)) as [_ Hrest].
    specialize (Hrest id). unfold resolve_member in Hroles.
    destruct (truthy id) eqn:Hid; [|done]. rewrite Hroles in Hrest.
    destruct (guild_members (wanked_user gw st id).1 !! id) as [r1|] eqn:Hr1; [|done].
    destruct Hrest as (Hkept & _ & _). apply Hkept.
    cut (NEW_WANKME_ROLE_ID ∈ r1); [set_solver|].
    unfold wanked_user, resolve_member in Hr1. rewrite Hid in Hr1.
    destruct (guild_members st.1 !! id) as [r0|] eqn:Hr0; simpl in Hr1; [|congruence].
    case_bool_decide as Hheld; simpl in Hr1.
    + congruence.
    + rewrite Hadd in Hr1. unfold grant in Hr1; simpl in Hr1.
      rewrite lookup_alter_eq, Hr0 in Hr1. simpl in Hr1. set_solver.
Qed.

(** A pass over ids whose members all hold the role already. *)
Lemma wanked_fold_settled gw ids st :
  (∀ id roles, id ∈ ids → resolve_member st.1 id = Some roles →
               NEW_WANKME_ROLE_ID ∈ roles) →
  foldl (wanked_user gw) st ids
  = (st.1, {| addedCount := addedCount st.2;
              existingCount := existingCount st.2 + count_resolved st.1 ids;
              errorCount := errorCount st.2 + count_unresolved st.1 ids |}).
Proof.
  revert st. induction ids as [|id rest IH]; intros st Hheld; simpl.
  { destruct st as [g []]. unfold count_resolved, count_unresolved. simpl.
    by rewrite !Nat.add_0_r. }
  destruct (count_resolved_cons st.1 id rest) as [Hcr Hcu]. rewrite Hcr, Hcu.
  assert (wanked_user gw st id
          = (st.1, if decide (is_Some (resolve_member st.1 id))
                   then tally_existing st.2 else tally_error st.2)) as Hstep.
  { unfold wanked_user. destruct (resolve_member st.1 id) as [roles|] eqn:Hres.
    - rewrite decide_True by eauto.
      rewrite bool_decide_eq_true_2; [done|]. eapply Hheld; [left|done].
    - by rewrite decide_False by (by intros [? ?]). }
  rewrite Hstep, IH; simpl.
  - f_equal. case_decide; simpl; f_equal; lia.
  - intros x roles Hx. apply Hheld. by right.
Qed.

(** X5.  When [/alreadywanked] completes, the three counters add up to the
    number of verified users it reports: every row with an address is counted
    once, as added, existing or error; and at least the users the guild cannot
    resolve are errors. *)
Theorem alreadywanked_counts_every_user gw db g counts processed g' :
  alreadywanked gw db g true = (WankedComplete counts processed, g') →
  processed = length (filter (λ u, is_Some (address u)) db)
  ∧ (addedCount counts + existingCount counts + errorCount counts = processed)%nat
  ∧ (addedCount counts + existingCount counts ≤ count_resolved g (verified_ids db))%nat.
Proof.
  unfold alreadywanked. simpl. destruct (negb (bool_decide _)); [done|].
  intros [= <- <- <-].
  pose proof (wanked_fold_counts gw (verified_ids db) (g, no_tally)) as Hsum.
  simpl in Hsum. unfold verified_ids in *. rewrite length_fmap in *.
  split_and!; [done|lia|].
  fold (verified_ids db).
  generalize (verified_ids db). intros ids.
  cut (∀ st, let st' := foldl (wanked_user gw) st ids in
             (addedCount st'.2 + existingCount st'.2
              ≤ addedCount st.2 + existingCount st.2 + count_resolved st.1 ids)%nat).
  { intros H. apply (H (g, no_tally)). }
  induction ids as [|id rest IH]; intros st; simpl; [lia|].
  etrans; [apply IH|].
  destruct (count_resolved_cons st.1 id rest) as [Hcr _]. rewrite Hcr.
  destruct (count_resolved_same st.1 (wanked_user gw st id).1 rest) as [Hr _].
  { intros x. eapply changed_within_resolve, wanked_user_changed_within. }
  rewrite Hr. unfold wanked_user.
  destruct (resolve_member st.1 id) eqn:Hres.
  - rewrite decide_True by eauto.
    destruct (negb _); simpl; [destruct (add_ok gw id _); simpl|]; lia.
  - rewrite decide_False by (by intros [? ?]). simpl. lia.
Qed.

Lemma alreadywanked_counts_every_user_witness :
  alreadywanked gateway_up wanked_db wanked_guild true
  = (WankedComplete {| addedCount := 1; existingCount := 2; errorCount := 1 |} 4,
     (alreadywanked gateway_up wanked_db wanked_guild true).2)
  ∧ (1 + 2 + 1 = 4)%nat.
Proof.
  split; [vm_compute; reflexivity|].
  destruct (alreadywanked_counts_every_user gateway_up wanked_db wanked_guild
              {| addedCount := 1; existingCount := 2; errorCount := 1 |} 4
              (alreadywanked gateway_up wanked_db wanked_guild true).2)
    as (_ & Hsum & _); [vm_compute; reflexivity|exact Hsum].
Defined.

(** X6.  The paged revision of [/alreadywanked] (chunks of 1000 read from
    [processedTotal] on, batches of 100) ends, and what it does is one pass
    over the verified ids in ascending order: same guild, same counters, and
    [processedTotal] is the number of verified users, each processed once. *)
Theorem alreadywanked_paged_is_one_pass gw db g :
  NEW_WANKME_ROLE_ID ∈ guild_roles g →
  alreadywanked_paged gw db g true
  = (WankedComplete (foldl (wanked_user gw) (g, no_tally) (verified_ids_ordered db)).2
       (length (filter (λ u, is_Some (address u)) db)),
     (foldl (wanked_user gw) (g, no_tally) (verified_ids_ordered db)).1)
  ∧ verified_ids_ordered db ≡ₚ verified_ids db
  ∧ ∀ counts processed g',
      alreadywanked_paged gw db g true = (WankedComplete counts processed, g') →
      (addedCount counts + existingCount counts + errorCount counts = processed)%nat.
Proof.
  intros Hrole.
  assert (length (verified_ids_ordered db) = length (filter (λ u, is_Some (address u)) db))
    as Hlen.
  { unfold verified_ids_ordered. rewrite merge_sort_Permutation.
    unfold verified_ids. by rewrite length_fmap. }
  assert (alreadywanked_paged gw db g true
          = (WankedComplete (foldl (wanked_user gw) (g, no_tally) (verified_ids_ordered db)).2
               (length (filter (λ u, is_Some (address u)) db)),
             (foldl (wanked_user gw) (g, no_tally) (verified_ids_ordered db)).1)) as Hrun.
  { unfold alreadywanked_paged. rewrite (bool_decide_eq_true_2 _ Hrole).
    cbn [negb]. cbv zeta.
    rewrite wanked_chunks_flat by (cbn [processedTotal]; lia).
    cbn [processedTotal pr_guild pr_counts]. cbv zeta.
    cbn [processedTotal pr_guild pr_counts]. by rewrite drop_0, Hlen. }
  split_and!; [done|apply merge_sort_Permutation|].
  intros counts processed g'. rewrite Hrun. intros [= <- <- <-].
  pose proof (wanked_fold_counts gw (verified_ids_ordered db) (g, no_tally)) as Hsum.
  simpl in Hsum. lia.
Qed.

Lemma alreadywanked_paged_is_one_pass_witness :
  alreadywanked_paged gateway_up wanked_db wanked_guild true
  = (WankedComplete
       (foldl (wanked_user gateway_up) (wanked_guild, no_tally)
          (verified_ids_ordered wanked_db)).2
       (length (filter (λ u, is_Some (address u)) wanked_db)),
     (foldl (wanked_user gateway_up) (wanked_guild, no_tally)
        (verified_ids_ordered wanked_db)).1).
Proof.
  apply (alreadywanked_paged_is_one_pass gateway_up wanked_db wanked_guild).
  apply (bool_decide_unpack _). vm_compute. exact I.
Defined.

Lemma alreadywanked_changed_within gw db g isAdmin :
  changed_within (verified_ids db) {[NEW_WANKME_ROLE_ID]} ∅ g
    (alreadywanked gw db g isAdmin).2
  ∧ changed_within (verified_ids db) {[NEW_WANKME_ROLE_ID]} ∅ g
      (alreadywanked_paged gw db g isAdmin).2.
Proof.
  split.
  - unfold alreadywanked. destruct (negb isAdmin); [reflexivity|].
    destruct (negb (bool_decide _)); [reflexivity|]. simpl.
    apply (wanked_fold_changed_within gw (verified_ids db) (g, no_tally)).
  - unfold alreadywanked_paged. destruct (negb isAdmin); [reflexivity|].
    case_bool_decide as Hrole; cbn [negb]; [|reflexivity]. cbv zeta.
    rewrite wanked_chunks_flat by (cbn [processedTotal]; lia).
    cbn [processedTotal pr_guild pr_counts]. cbv zeta.
    cbn [processedTotal pr_guild pr_counts snd]. rewrite drop_0.
    apply (changed_within_weaken (verified_ids_ordered db)).
    + intros id Hid. unfold verified_ids_ordered in Hid.
      by rewrite merge_sort_Permutation in Hid.
    + apply (wanked_fold_changed_within gw (verified_ids_ordered db) (g, no_tally)).
Qed.


(** X8.  Run [/alreadywanked] with every grant accepted, then run it again on
    the guild as the first run left it: the second run adds nobody, reports
    as existing everyone the first run added or found, reports the same
    errors (the users the guild cannot resolve), and changes nothing. *)
Theorem alreadywanked_second_run_adds_nobody gw db g counts1 n1 g1 :
  (∀ id, id ∈ verified_ids db → add_ok gw id NEW_WANKME_ROLE_ID = true) →
  alreadywanked gw db g true = (WankedComplete counts1 n1, g1) →
  alreadywanked gw db g1 true
  = (WankedComplete {| addedCount := 0;
                       existingCount := addedCount counts1 + existingCount counts1;
                       errorCount := errorCount counts1 |} n1, g1)
  ∧ errorCount counts1 = count_unresolved g (verified_ids db).
Proof.
  intros Hok. unfold alreadywanked. simpl.
  case_bool_decide as Hrole; simpl; [|done]. intros [= <- <- <-].
  pose proof (wanked_fold_changed_within gw (verified_ids db) (g, no_tally)) as Hchanged.
  destruct (wanked_fold_accepted gw (verified_ids db) (g, no_tally) Hok)
    as (Hsum & Herr & Hnew). simpl in Hsum, Herr, Hnew.
  set (st1 := foldl (wanked_user gw) (g, no_tally) (verified_ids db)) in *.
  destruct (count_resolved_same g st1.1 (verified_ids db)) as [Hr Hu].
  { intros id. by eapply changed_within_resolve. }
  assert (guild_roles st1.1 = guild_roles g) as Hroles by (by destruct Hchanged).
  rewrite Hroles, bool_decide_eq_true_2 by done. simpl.
  rewrite (wanked_fold_settled gw (verified_ids db) (st1.1, no_tally)) by done.
  simpl. rewrite Hr, Hu. split; [|lia]. do 2 f_equal. f_equal; lia.
Qed.

Lemma alreadywanked_second_run_adds_nobody_witness :
  alreadywanked gateway_up wanked_db
    (alreadywanked gateway_up wanked_db wanked_guild true).2 true
  = (WankedComplete {| addedCount := 0; existingCount := 1 + 2; errorCount := 1 |} 4,
     (alreadywanked gateway_up wanked_db wanked_guild true).2).
Proof.
  apply (alreadywanked_second_run_adds_nobody gateway_up wanked_db wanked_guild
           {| addedCount := 1; existingCount := 2; errorCount := 1 |} 4
           (alreadywanked gateway_up wanked_db wanked_guild true).2).
  - intros id _. reflexivity.
  - vm_compute. reflexivity.
Defined.


(** ** /purgezerobalance *)

Lemma revoke_changed_within ids plus minus member role g :
  member ∈ ids → role ∈ minus →
  changed_within ids plus minus g (revoke member role g).
Proof.
  intros Hmember Hrole. split; [done|]. intros id. unfold revoke; simpl.
  destruct (decide (id = member)) as [->|Hne].
  - rewrite lookup_alter_eq. destruct (guild_members g !! member) as [roles|]; simpl; [|done].
    split_and!; [set_solver|set_solver|done].
  - rewrite lookup_alter_ne by done. destruct (guild_members g !! id) as [roles|]; [|done].
    split_and!; [set_solver|set_solver|done].
Qed.

Lemma purge_user_changed_within remove_ok st u :
  changed_within [discord_id u] ∅ {[BULL_ROLE_ID; BEAR_ROLE_ID]} st.1
    (purge_user remove_ok st u).1.
Proof.
  unfold purge_user. destruct (resolve_member st.1 (discord_id u)); [|reflexivity].
  destruct (_ && _).
  - destruct (remove_ok _ _); [|reflexivity].
    apply revoke_changed_within; [left|set_solver].
  - destruct (_ && _); [|reflexivity].
    destruct (remove_ok _ _); [|reflexivity].
    apply revoke_changed_within; [left|set_solver].
Qed.

Lemma purge_fold_changed_within remove_ok users st :
  changed_within (discord_id <$> users) ∅ {[BULL_ROLE_ID; BEAR_ROLE_ID]} st.1
    (foldl (purge_user remove_ok) st users).1.
Proof.
  revert st. induction users as [|u rest IH]; intros st; simpl; [reflexivity|].
  etrans.
  - apply (changed_within_weaken [discord_id u]); [|apply purge_user_changed_within].
    intros x ->%list_elem_of_singleton. left.
  - apply (changed_within_weaken (discord_id <$> rest)); [|apply IH].
    intros x Hx. by right.
Qed.


(** After a pass with every removal accepted, no listed user's member holds
    the role of the user's team. *)
Lemma purge_fold_accepted remove_ok users st :
  (∀ id role, remove_ok id role = true) →
  ∀ u t roles,
    u ∈ users → team u = Some t →
    resolve_member (foldl (purge_user remove_ok) st users).1 (discord_id u) = Some roles →
    team_role t ∉ roles.
Proof.
  intros Hok. revert st. induction users as [|v rest IH]; intros st u t roles Hu Ht Hres.
  { by apply elem_of_nil in Hu. }
  simpl in Hres. apply elem_of_cons in Hu as [->|Hu]; [|by eapply IH].
  pose proof (purge_fold_changed_within remove_ok rest (purge_user remove_ok st v)) as [_ Hrest].
  specialize (Hrest (discord_id v)). unfold resolve_member in Hres.
  destruct (truthy (discord_id v)) eqn:Hid; [|done]. rewrite Hres in Hrest.
  destruct (guild_members (purge_user remove_ok st v).1 !! discord_id v) as [r1|] eqn:Hr1;
    [|done].
  destruct Hrest as (_ & Hsub & _).
  cut (team_role t ∉ r1); [set_solver|].
  unfold purge_user, resolve_member in Hr1. rewrite Hid in Hr1.
  destruct (guild_members st.1 !! discord_id v) as [r0|] eqn:Hr0; [|simpl in Hr1; congruence].
  rewrite Ht, !Hok in Hr1.
  destruct t; simpl in *.
  - case_bool_decide as Hheld; simpl in Hr1.
    + rewrite lookup_alter_eq, Hr0 in Hr1. simpl in Hr1. set_solver.
    + congruence.
  - case_bool_decide as Hheld; simpl in Hr1.
    + rewrite lookup_alter_eq, Hr0 in Hr1. simpl in Hr1. set_solver.
    + congruence.
Qed.

(** A pass over users whose members hold no team role of theirs does nothing. *)
Lemma purge_fold_settled remove_ok users st :
  (∀ u t roles, u ∈ users → team u = Some t →
                resolve_member st.1 (discord_id u) = Some roles → team_role t ∉ roles) →
  foldl (purge_user remove_ok) st users = st.
Proof.
  revert st. induction users as [|u rest IH]; intros st Hnone; simpl; [done|].
  assert (purge_user remove_ok st u = st) as Hstep.
  { unfold purge_user. destruct (resolve_member st.1 (discord_id u)) as [roles|] eqn:Hres;
      [|done].
    pose proof (Hnone u bullas roles) as Hb. pose proof (Hnone u beras roles) as Hr.
    simpl in Hb, Hr.
    case_bool_decide as Hteam; simpl.
    - rewrite bool_decide_eq_false_2 by (apply Hb; [left|done..]). simpl.
      rewrite (bool_decide_eq_false_2 (team u = Some beras)) by congruence. done.
    - case_bool_decide as Hteam'; simpl; [|done].
      by rewrite bool_decide_eq_false_2 by (apply Hr; [left|done..]). }
  rewrite Hstep. apply IH. intros v t roles Hv. apply Hnone. by right.
Qed.

Lemma purgezerobalance_changed_within remove_ok db g isAdmin :
  changed_within (discord_id <$> zero_balance_users db) ∅ {[BULL_ROLE_ID; BEAR_ROLE_ID]} g
    (purgezerobalance remove_ok db g isAdmin).2.
Proof.
  unfold purgezerobalance. destruct (negb isAdmin); simpl; [reflexivity|].
  apply (purge_fold_changed_within remove_ok (zero_balance_users db) (g, 0)).
Qed.



(** X10.  After [/purgezerobalance] with every removal accepted, no member of
    a zero-balance row holds the role of the row's team; running the command
    again removes nothing and changes nothing. *)
Theorem purgezerobalance_second_run_removes_nothing remove_ok db g :
  (∀ id role, remove_ok id role = true) →
  let first := purgezerobalance remove_ok db g true in
  (∀ u t roles,
     u ∈ db → points u = 0%Z → team u = Some t →
     resolve_member first.2 (discord_id u) = Some roles →
     team_role t ∉ roles)
  ∧ purgezerobalance remove_ok db first.2 true = (Some 0, first.2).
Proof.
  intros Hok first.
  assert (∀ u t roles,
            u ∈ zero_balance_users db → team u = Some t →
            resolve_member first.2 (discord_id u) = Some roles →
            team_role t ∉ roles) as Hdone.
  { intros u t roles. apply (purge_fold_accepted remove_ok (zero_balance_users db) (g, 0) Hok). }
  split.
  - intros u t roles Hu Hzero Ht. apply Hdone; [|done].
    unfold zero_balance_users. apply list_elem_of_filter. split; [|done].
    split; [done|]. destruct t; auto.
  - unfold purgezerobalance at 1. cbn [negb]. cbv zeta.
    by rewrite (purge_fold_settled remove_ok (zero_balance_users db) (first.2, 0) Hdone).
Qed.

Lemma purgezerobalance_second_run_removes_nothing_witness :
  purgezerobalance removal_up wanked_db
    (purgezerobalance removal_up wanked_db wanked_guild true).2 true
  = (Some 0, (purgezerobalance removal_up wanked_db wanked_guild true).2).
Proof.
  apply (purgezerobalance_second_run_removes_nothing removal_up wanked_db wanked_guild).
  intros id role. reflexivity.
Defined.

(** ** Button ids: what the handler reads is what the command wrote *)

Lemma js_split_no_sep sep s : contains_char sep s = false → js_split sep s = [s].
Proof.
  induction s as [|c s IH]; simpl; [done|].
  intros [Hc Hs]%orb_false_iff. rewrite Hc. by rewrite IH.
Qed.

Lemma js_split_app sep a rest :
  contains_char sep a = false →
  js_split sep (a +:+ String sep rest) = a :: js_split sep rest.
Proof.
  induction a as [|c a IH]; simpl.
  - intros _. by rewrite Ascii.eqb_refl.
  - intros [Hc Ha]%orb_false_iff. rewrite Hc. by rewrite IH.
Qed.

Lemma digit_of_pretty_N_char d :
  (d < 10)%N → digit_of (pretty_N_char d) = Some d.
Proof.
  intros Hd.
  assert (d = 0 ∨ d = 1 ∨ d = 2 ∨ d = 3 ∨ d = 4 ∨ d = 5 ∨ d = 6 ∨ d = 7 ∨ d = 8 ∨ d = 9)%N
    as Hcases by lia.
  by repeat (destruct Hcases as [->|Hcases]); [..|subst d].
Qed.

Lemma pretty_N_char_not_sep d c :
  digit_of c = None → (d < 10)%N → Ascii.eqb (pretty_N_char d) c = false.
Proof.
  intros Hc Hd. apply Ascii.eqb_neq. intros <-.
  by rewrite digit_of_pretty_N_char in Hc.
Qed.

Lemma contains_char_pretty_N_go c x s :
  digit_of c = None → contains_char c s = false →
  contains_char c (pretty_N_go x s) = false.
Proof.
  intros Hc. revert s. induction (N.lt_wf_0 x) as [x _ IH]; intros s Hs.
  destruct (decide (x = 0)%N) as [->|Hx]; [by rewrite pretty_N_go_0|].
  rewrite pretty_N_go_step by lia. apply IH.
  - apply N.div_lt; lia.
  - simpl. rewrite pretty_N_char_not_sep; [done..|]. apply N.mod_lt. lia.
Qed.

Lemma contains_char_pretty_Z c (z : Z) :
  digit_of c = None → Ascii.eqb (Ascii.ascii_of_nat 45) c = false →
  contains_char c (pretty z) = false.
Proof.
  intros Hc Hminus.
  assert (∀ p : positive, contains_char c (pretty p) = false) as Hpos.
  { intros p. unfold pretty, pretty_positive, pretty, pretty_N.
    rewrite decide_False by done. by apply contains_char_pretty_N_go. }
  destruct z as [|p|p]; unfold pretty, pretty_Z.
  - change (Ascii.eqb (Ascii.ascii_of_nat 48) c || false = false).
    destruct (Ascii.eqb_spec (Ascii.ascii_of_nat 48) c) as [<-|]; [|done].
    by vm_compute in Hc.
  - apply Hpos.
  - change (Ascii.eqb (Ascii.ascii_of_nat 45) c || contains_char c (pretty p) = false).
    rewrite Hminus. apply Hpos.
Qed.

Lemma parse_digits_pretty_N_go x :
  (0 < x)%N →
  ∃ k, ∀ acc s,
    parse_digits acc (pretty_N_go x s) = parse_digits (Some (default 0 acc * k + x)%N) s.
Proof.
  induction (N.lt_wf_0 x) as [x _ IH]. intros Hx.
  destruct (decide (x `div` 10 = 0)%N) as [Hsmall|Hbig].
  - exists 10%N. intros acc s. rewrite pretty_N_go_step by done.
    rewrite Hsmall, pretty_N_go_0. simpl.
    rewrite digit_of_pretty_N_char by (apply N.mod_lt; lia).
    f_equal. f_equal. apply N.div_small_iff in Hsmall; [|lia].
    rewrite N.mod_small by done. by rewrite (N.mul_comm 10).
  - destruct (IH (x `div` 10)%N) as [k Hk];
      [apply N.div_lt; lia|by apply N.neq_0_lt_0|].
    exists (10 * k)%N. intros acc s. rewrite pretty_N_go_step by done.
    rewrite Hk. simpl.
    rewrite digit_of_pretty_N_char by (apply N.mod_lt; lia).
    f_equal. f_equal. pose proof (N.div_mod x 10) as Hdm.
    generalize dependent (default 0%N acc). intros a. lia.
Qed.

Lemma parse_digits_pretty_positive (p : positive) :
  parse_digits None (pretty p) = Some (N.pos p).
Proof.
  unfold pretty, pretty_positive, pretty, pretty_N. rewrite decide_False by done.
  destruct (parse_digits_pretty_N_go (N.pos p)) as [k Hk]; [lia|].
  rewrite Hk. simpl. done.
Qed.

Lemma pretty_positive_head (p : positive) :
  ∃ c rest, pretty p = String c rest ∧ digit_of c ≠ None.
Proof.
  unfold pretty, pretty_positive, pretty, pretty_N. rewrite decide_False by done.
  cut (∀ x s, (0 < x)%N → ∃ c rest, pretty_N_go x s = String c rest ∧ digit_of c ≠ None).
  { intros H. apply H. lia. }
  intros x. induction (N.lt_wf_0 x) as [x _ IH]. intros s Hx.
  rewrite pretty_N_go_step by done.
  destruct (decide (x `div` 10 = 0)%N) as [Hsmall|Hbig].
  - rewrite Hsmall, pretty_N_go_0. eexists _, _. split; [done|].
    by rewrite digit_of_pretty_N_char by (apply N.mod_lt; lia).
  - apply IH; [apply N.div_lt; lia|by apply N.neq_0_lt_0].
Qed.

(** [parseInt] reads back what the template literal printed. *)
Lemma parseInt_pretty (z : Z) : parseInt (pretty z) = Some z.
Proof.
  destruct z as [|p|p]; unfold pretty at 1, pretty_Z.
  - done.
  - destruct (pretty_positive_head p) as (c & rest & Heq & Hdigit).
    pose proof (parse_digits_pretty_positive p) as Hparse.
    unfold parseInt. rewrite Heq in *.
    destruct (Ascii.eqb_spec c (Ascii.ascii_of_nat 45)) as [->|_]; [by destruct Hdigit|].
    destruct (Ascii.eqb_spec c (Ascii.ascii_of_nat 43)) as [->|_]; [by destruct Hdigit|].
    by rewrite Hparse.
  - change (parseInt (String (Ascii.ascii_of_nat 45) (pretty p)) = Some (Z.neg p)).
    unfold parseInt. by rewrite Ascii.eqb_refl, parse_digits_pretty_positive.
Qed.

Lemma js_split_confirm_custom_id t wl ml fm :
  js_split underscore (confirm_custom_id t wl ml fm)
  = [ "confirm"; "update"; team_type_string t; pretty wl; pretty ml; pretty fm ].
Proof.
  change (js_split underscore
            ("confirm" +:+ String underscore
               ("update" +:+ String underscore
                  (team_type_string t +:+ String underscore
                     (pretty wl +:+ String underscore
                        (pretty ml +:+ String underscore (pretty fm))))))
          = [ "confirm"; "update"; team_type_string t; pretty wl; pretty ml; pretty fm ]).
  rewrite !(js_split_app underscore) by reflexivity.
  rewrite (js_split_app underscore (team_type_string t)) by (by destruct t).
  rewrite !(js_split_app underscore (pretty _))
    by (apply contains_char_pretty_Z; reflexivity).
  by rewrite js_split_no_sep by (apply contains_char_pretty_Z; reflexivity).
Qed.

(** X11.  The "Proceed with Update" button carries the arguments of the
    simulation in its id, and the handler reads the same arguments back: the
    confirmed run is [updateRoles] on the team and the three thresholds that
    were simulated, whatever integers they are.  With every grant accepted
    (six roles cached, distinct ids) it then reports the counters the
    simulation showed. *)
Theorem confirm_update_runs_what_was_simulated gw db g t wl ml fm :
  updateroles_command gw db g true t wl ml fm
  = Some ((updateRoles gw db g t wl ml fm true).1, confirm_custom_id t wl ml fm)
  ∧ confirm_update gw db g true (confirm_custom_id t wl ml fm)
    = Some (updateRoles gw db g t wl ml fm false)
  ∧ (NoDup (discord_id <$> target_players db t) →
     grants_accepted gw (target_players db t) →
     ∀ simulationLog customId,
       updateroles_command gw db g true t wl ml fm = Some (simulationLog, customId) →
       fst <$> confirm_update gw db g true customId = Some simulationLog).
Proof.
  assert (confirm_update gw db g true (confirm_custom_id t wl ml fm)
          = Some (updateRoles gw db g t wl ml fm false)) as Hconfirm.
  { unfold confirm_update. rewrite js_split_confirm_custom_id. simpl.
    rewrite !parseInt_pretty. by destruct t. }
  split_and!; [done|done|].
  intros Hnd Hok simulationLog customId [= <- <-]. rewrite Hconfirm. simpl. f_equal.
  destruct (all_roles_cached g) eqn:Hroles.
  - by rewrite !updateRoles_log.
  - unfold updateRoles. by rewrite Hroles.
Qed.

Lemma confirm_update_runs_what_was_simulated_witness :
  fst <$> confirm_update gateway_up scenario_db scenario_guild true
            (confirm_custom_id winning 100 200 500)
  = Some (updateRoles gateway_up scenario_db scenario_guild winning 100 200 500 true).1.
Proof.
  destruct (confirm_update_runs_what_was_simulated gateway_up scenario_db scenario_guild
              winning 100 200 500) as (_ & _ & Hsame).
  apply Hsame.
  - apply (bool_decide_unpack _). vm_compute. exact I.
  - intros p role _. reflexivity.
  - reflexivity.
Defined.

(** ** Leaderboard buttons *)

Lemma js_split_page_custom_id action t page :
  js_split underscore (page_custom_id action t page)
  = [ match action with prev => "prev" | next => "next" end;
      team_option_string t; pretty page ].
Proof.
  transitivity (js_split underscore
                  (match action with prev => "prev" | next => "next" end
                   +:+ String underscore
                     (team_option_string t +:+ String underscore (pretty page)))).
  { by destruct action. }
  rewrite (js_split_app underscore) by (by destruct action).
  rewrite (js_split_app underscore) by (by destruct t as [|[]]).
  by rewrite js_split_no_sep by (apply contains_char_pretty_Z; reflexivity).
Qed.

Lemma range_served (page : Z) (rows : list User) :
  (1 ≤ page)%Z →
  range ((page - 1) * itemsPerPage)%Z ((page - 1) * itemsPerPage + itemsPerPage - 1)%Z rows
  = Some (page_rows (Z.to_nat (page - 1)) rows).
Proof.
  intros Hpage. rewrite <- (range_page (Z.to_nat (page - 1)) rows).
  by replace (Z.of_nat (S (Z.to_nat (page - 1)))) with page by lia.
Qed.

Lemma range_refused (page : Z) (rows : list User) :
  (page < 1)%Z →
  range ((page - 1) * itemsPerPage)%Z ((page - 1) * itemsPerPage + itemsPerPage - 1)%Z rows
  = None.
Proof.
  intros Hpage. unfold range, itemsPerPage.
  destruct (Z.ltb_spec ((page - 1) * 10) 0); [done|exfalso; lia].
Qed.

(** What it takes for the command to show a board. *)
Lemma leaderboard_served rankOrder pageOrder db caller t pageOption b :
  orders_by_points pageOrder →
  leaderboard rankOrder pageOrder db caller t pageOption = ShowBoard b →
  (1 ≤ page_or_first pageOption)%Z
  ∧ (10 * (page_or_first pageOption - 1) < exact_count db t)%Z
  ∧ b = render_board rankOrder db caller t (page_or_first pageOption)
          (page_rows (Z.to_nat (page_or_first pageOption - 1)) (rank_query pageOrder db t)).
Proof.
  intros Hpage. unfold leaderboard. set (page := page_or_first pageOption).
  destruct (decide (1 ≤ page)%Z) as [Hpage1|Hpage1].
  - rewrite range_served by done. case_bool_decide as Hempty; [done|].
    intros [= <-]. split_and!; [done| |done].
    unfold page_rows in Hempty. rewrite length_take, length_drop in Hempty.
    pose proof (rank_query_length pageOrder db t Hpage). lia.
  - by rewrite range_refused by lia.
Qed.

Lemma leaderboard_shows rankOrder pageOrder db caller t (page : Z) :
  orders_by_points pageOrder →
  (1 ≤ page)%Z → (10 * (page - 1) < exact_count db t)%Z →
  leaderboard rankOrder pageOrder db caller t (Some page)
  = ShowBoard (render_board rankOrder db caller t page
                 (page_rows (Z.to_nat (page - 1)) (rank_query pageOrder db t)))
  ∧ page_rows (Z.to_nat (page - 1)) (rank_query pageOrder db t) ≠ [].
Proof.
  intros Horder Hpage Hcount.
  assert (length (page_rows (Z.to_nat (page - 1)) (rank_query pageOrder db t)) ≠ 0%nat) as Hlen.
  { unfold page_rows. rewrite length_take, length_drop.
    pose proof (rank_query_length pageOrder db t Horder). lia. }
  split; [|by intros Heq; rewrite Heq in Hlen].
  unfold leaderboard.
  assert (page_or_first (Some page) = page) as ->.
  { unfold page_or_first. destruct (Z.eqb_spec page 0); [exfalso; lia|done]. }
  rewrite range_served by done. by rewrite bool_decide_eq_false_2.
Qed.

Lemma leaderboard_button_shows rankOrder pageOrder db caller t action (currentPage : Z) :
  let newPage := match action with
                 | next => (currentPage + 1)%Z
                 | prev => (currentPage - 1)%Z
                 end in
  (1 ≤ newPage)%Z →
  leaderboard_button rankOrder pageOrder db caller caller action t currentPage
  = ShowBoard (render_board rankOrder db caller t newPage
                 (page_rows (Z.to_nat (newPage - 1)) (rank_query pageOrder db t))).
Proof.
  intros newPage Hpage. unfold leaderboard_button.
  rewrite bool_decide_eq_false_2 by (by intros []).
  fold newPage. by rewrite range_served.
Qed.

(** X12.  The buttons of a board lead where they say.  On a board the
    command shows for a page, an enabled "Next" (clicked by the user who ran
    the command) shows the board of the next page, an enabled "Previous" the
    board of the page before; that board has at least one entry and is the
    board the command itself shows for that page.  The id of a button reads
    back as its action, team and page; anyone else's click is refused.
    [rankOrder] and [pageOrder] are the store's answers when the command ran,
    [rankOrder'] and [pageOrder'] its answers at the click. *)
Theorem leaderboard_enabled_buttons_lead_to_a_page
    rankOrder pageOrder rankOrder' pageOrder' db caller t pageOption b :
  orders_by_points pageOrder → orders_by_points pageOrder' →
  leaderboard rankOrder pageOrder db caller t pageOption = ShowBoard b →
  (next_disabled b = false →
   ∃ b', leaderboard_click rankOrder' pageOrder' db caller caller
           (page_custom_id next t (footer_page b))
         = Some (ShowBoard b')
         ∧ leaderboard rankOrder' pageOrder' db caller t (Some (footer_page b + 1)%Z)
           = ShowBoard b'
         ∧ footer_page b' = (footer_page b + 1)%Z
         ∧ entries b' ≠ [])
  ∧ (prev_disabled b = false →
     ∃ b', leaderboard_click rankOrder' pageOrder' db caller caller
             (page_custom_id prev t (footer_page b))
           = Some (ShowBoard b')
           ∧ leaderboard rankOrder' pageOrder' db caller t (Some (footer_page b - 1)%Z)
             = ShowBoard b'
           ∧ footer_page b' = (footer_page b - 1)%Z
           ∧ entries b' ≠ [])
  ∧ (∀ owner action, owner ≠ caller →
       leaderboard_click rankOrder' pageOrder' db caller owner
         (page_custom_id action t (footer_page b))
       = Some NotYourButtons).
Proof.
  intros Horder Horder' Hb.
  apply leaderboard_served in Hb as (Hpage & Hcount & ->); [|done].
  set (page := page_or_first pageOption) in *.
  assert (∀ owner action,
            leaderboard_click rankOrder' pageOrder' db caller owner
              (page_custom_id action t page)
            = Some (leaderboard_button rankOrder' pageOrder' db caller owner action t page))
    as Hclick.
  { intros owner action. unfold leaderboard_click.
    rewrite js_split_page_custom_id, parseInt_pretty.
    by destruct action, t as [|[]]. }
  pose proof (Math_ceil_div_bounds (exact_count db t)) as Hceil.
  pose proof (render_board_facts rankOrder db caller t page
                (page_rows (Z.to_nat (page - 1)) (rank_query pageOrder db t))) as Hfacts.
  cbv zeta in Hfacts. rewrite <- exact_count_population in Hfacts.
  destruct Hfacts as (Hfp & Hft & _ & Hprev & Hnext).
  rewrite Hfp. split_and!.
  - intros Henabled.
    assert (¬ (footer_total (render_board rankOrder db caller t page
                 (page_rows (Z.to_nat (page - 1)) (rank_query pageOrder db t))) ≤ page)%Z) as Hlt.
    { intros Hle. apply Hnext in Hle. congruence. }
    rewrite Hft in Hlt.
    destruct (leaderboard_shows rankOrder' pageOrder' db caller t (page + 1))
      as [Hshow Hrows]; [done|lia|lia|].
    eexists.
    rewrite Hclick, (leaderboard_button_shows rankOrder' pageOrder' db caller t next page) by lia.
    split_and!; [done|done|done|].
    unfold render_board. cbn [entries]. intros Hnil.
    apply (f_equal length) in Hnil. rewrite length_imap in Hnil.
    by apply nil_length_inv in Hnil.
  - intros Henabled.
    assert (¬ (page ≤ 1)%Z) as Hgt.
    { intros Hle. apply Hprev in Hle. congruence. }
    destruct (leaderboard_shows rankOrder' pageOrder' db caller t (page - 1))
      as [Hshow Hrows]; [done|lia|lia|].
    eexists.
    rewrite Hclick, (leaderboard_button_shows rankOrder' pageOrder' db caller t prev page) by lia.
    split_and!; [done|done|done|].
    unfold render_board. cbn [entries]. intros Hnil.
    apply (f_equal length) in Hnil. rewrite length_imap in Hnil.
    by apply nil_length_inv in Hnil.
  - intros owner action Hne. rewrite Hclick. unfold leaderboard_button.
    by rewrite bool_decide_eq_true_2.
Qed.

Lemma leaderboard_enabled_buttons_lead_to_a_page_witness :
  ∃ b b',
    leaderboard merge_order merge_order db25 "3" team_all (Some 2%Z) = ShowBoard b
    ∧ next_disabled b = false
    ∧ leaderboard_click merge_order merge_order_backwards db25 "3" "3"
        (page_custom_id next team_all (footer_page b))
      = Some (ShowBoard b')
    ∧ leaderboard merge_order merge_order_backwards db25 "3" team_all
        (Some (footer_page b + 1)%Z) = ShowBoard b'
    ∧ footer_page b' = (footer_page b + 1)%Z
    ∧ entries b' ≠ [].
Proof.
  destruct (leaderboard merge_order merge_order db25 "3" team_all (Some 2%Z))
    as [| | |b] eqn:Hb; [discriminate Hb..|].
  destruct (leaderboard_enabled_buttons_lead_to_a_page merge_order merge_order
              merge_order merge_order_backwards db25 "3" team_all (Some 2%Z) b
              merge_order_sound merge_order_backwards_sound Hb)
    as (Hnext & _ & _).
  assert (next_disabled b = false) as Henabled.
  { vm_compute in Hb. injection Hb as <-. reflexivity. }
  destruct (Hnext Henabled) as (b' & H1 & H2 & H3 & H4).
  exists b, b'. split_and!; done.
Defined.

Lemma population_ids db t : NoDup (discord_id <$> db) → NoDup (discord_id <$> population db t).
Proof.
  intros Hnd. apply (sublist_NoDup _ (discord_id <$> db)); [done|].
  apply fmap_sublist. unfold population. apply sublist_filter.
Qed.

Lemma rank_query_ids order db t :
  orders_by_points order →
  NoDup (discord_id <$> db) → NoDup (discord_id <$> rank_query order db t).
Proof.
  intros Horder Hnd. rewrite (rank_query_permutation order db t Horder).
  by apply population_ids.
Qed.

(** With distinct ids, a row with the caller's id anywhere in the answer to
    the rank query is the caller's own rank. *)
Lemma own_rank_at order db t caller (n : nat) u :
  orders_by_points order → NoDup (discord_id <$> db) →
  rank_query order db t !! n = Some u → discord_id u = caller →
  own_rank (rank_query order db t) caller = Some ((Z.of_nat n + 1)%Z, u).
Proof.
  intros Horder Hnd Hn Hid. unfold own_rank.
  rewrite (proj2 (list_find_Some (λ u, discord_id u = caller) (rank_query order db t) n u));
    [done|].
  split_and!; [done|done|].
  intros j z Hj Hlt Hz.
  pose proof (rank_query_ids order db t Horder Hnd) as Hids.
  assert (j = n); [|lia].
  apply (NoDup_lookup (discord_id <$> rank_query order db t) j n caller Hids).
  - by rewrite list_lookup_fmap, Hj; simpl; rewrite Hz.
  - by rewrite list_lookup_fmap, Hn; simpl; rewrite Hid.
Qed.

Lemma count_not_below_split rows u :
  count_not_below rows u
  = (count_above rows u + Z.of_nat (length (filter (λ v, points v = points u) rows)))%Z.
Proof.
  unfold count_not_below, count_above. induction rows as [|v rows IH]; [done|].
  rewrite !filter_cons.
  destruct (decide (points u ≤ points v)%Z), (decide (points u < points v)%Z),
    (decide (points v = points u)); simpl length; lia.
Qed.

Lemma one_row_with_these_points rows u :
  NoDup rows → (∀ v, v ∈ rows → points v = points u → v = u) →
  (length (filter (λ v, points v = points u) rows) ≤ 1)%nat.
Proof.
  intros Hnd Hone.
  pose proof (NoDup_filter (λ v, points v = points u) rows Hnd) as Hnd'.
  assert (∀ v, v ∈ filter (λ v, points v = points u) rows → v = u) as Hall.
  { intros v [Hv Hin]%list_elem_of_filter. by apply Hone. }
  destruct (filter _ rows) as [|a [|c rest]]; simpl; [lia|lia|].
  exfalso. apply NoDup_cons in Hnd' as [Hnotin _]. apply Hnotin.
  rewrite (Hall a) by left. rewrite (Hall c) by (right; left). left.
Qed.

(** X13.  With distinct ids in the store, when the caller's own row is on
    the page shown, the "Your Rank" field shows that row, and the number in
    front of the row on the page and the number in the field both come after
    the rows of the population with more points than the caller and among
    those with at least as many.  The two numbers are the same when no other
    row of the population has the caller's points, and when the store gave
    the page query the order it gave the rank query; with a tie they may
    differ, the two queries being ordered by points only. *)
Theorem leaderboard_own_line_near_own_rank rankOrder pageOrder db caller t pageOption b pos u :
  orders_by_points rankOrder → orders_by_points pageOrder →
  NoDup (discord_id <$> db) →
  leaderboard rankOrder pageOrder db caller t pageOption = ShowBoard b →
  (pos, u) ∈ entries b → discord_id u = caller →
  let everyone := population db t in
  ∃ r, your_rank b = Some (r, u)
       ∧ (count_above everyone u < pos ≤ count_not_below everyone u)%Z
       ∧ (count_above everyone u < r ≤ count_not_below everyone u)%Z
       ∧ ((∀ v, v ∈ everyone → points v = points u → v = u) → r = pos)
       ∧ (pageOrder everyone = rankOrder everyone → r = pos).
Proof.
  intros Hrank Hpage Hnd Hb Hentry Hid everyone.
  apply leaderboard_served in Hb as (Hpage1 & _ & ->); [|done].
  rewrite render_board_your_rank.
  unfold render_board in Hentry. cbn [entries] in Hentry.
  apply elem_of_lookup_imap in Hentry as (i & y & [= -> ->] & Hi).
  unfold page_rows in Hi.
  apply lookup_take_Some in Hi as [Hi _]. rewrite lookup_drop in Hi.
  set (n := (10 * Z.to_nat (page_or_first pageOption - 1) + i)%nat) in *.
  assert (((page_or_first pageOption - 1) * itemsPerPage + Z.of_nat i + 1 = Z.of_nat n + 1)%Z)
    as Hpos by (unfold itemsPerPage, n; lia).
  rewrite Hpos. clear Hpos.
  pose proof (rank_query_position pageOrder db t n y Hpage Hi) as Hbounds.
  assert (y ∈ rank_query rankOrder db t) as Hin.
  { rewrite (rank_query_permutation rankOrder db t Hrank).
    rewrite <- (rank_query_permutation pageOrder db t Hpage).
    by eapply list_elem_of_lookup_2. }
  apply list_elem_of_lookup in Hin as [m Hm].
  pose proof (rank_query_position rankOrder db t m y Hrank Hm) as Hbounds'.
  exists (Z.of_nat m + 1)%Z.
  split; [by apply own_rank_at|]. split; [done|]. split; [done|]. split.
  - intros Hone.
    pose proof (count_not_below_split everyone y) as Hsplit.
    pose proof (one_row_with_these_points everyone y) as Hle.
    fold everyone in Hbounds, Hbounds'.
    assert (NoDup everyone) as Hnd'.
    { apply (NoDup_fmap_1 discord_id). by apply population_ids. }
    specialize (Hle Hnd' Hone). lia.
  - intros Hsame.
    assert (rank_query pageOrder db t = rank_query rankOrder db t) as Heq.
    { unfold rank_query. rewrite filters_population. exact Hsame. }
    rewrite Heq in Hi.
    pose proof (rank_query_ids rankOrder db t Hrank Hnd) as Hids.
    assert (m = n); [|lia].
    apply (NoDup_lookup (discord_id <$> rank_query rankOrder db t) m n (discord_id y) Hids).
    + by rewrite list_lookup_fmap, Hm.
    + by rewrite list_lookup_fmap, Hi.
Qed.

Lemma leaderboard_own_line_near_own_rank_witness :
  ∃ b, leaderboard merge_order merge_order_backwards ladder_db "11" team_all (Some 2%Z)
       = ShowBoard b
       ∧ your_rank b = Some (12%Z, mkUser "11" None 89 (Some bullas)).
Proof.
  destruct (leaderboard merge_order merge_order_backwards ladder_db "11" team_all (Some 2%Z))
    as [| | |b] eqn:Hb; [discriminate Hb..|].
  exists b. split; [reflexivity|].
  destruct (leaderboard_own_line_near_own_rank merge_order merge_order_backwards ladder_db
              "11" team_all (Some 2%Z) b 12%Z (mkUser "11" None 89 (Some bullas)))
    as (r & Hrank & _ & _ & Hone & _).
  - apply merge_order_sound.
  - apply merge_order_backwards_sound.
  - apply (bool_decide_unpack _). vm_compute. exact I.
  - exact Hb.
  - vm_compute in Hb. injection Hb as <-. cbn [entries]. right. left.
  - reflexivity.
  - rewrite Hrank. do 2 f_equal. apply Hone.
    intros v Hv Hpoints.
    apply (NoDup_points_tie_free (population ladder_db team_all)); [|done| |done].
    + apply (bool_decide_unpack _). vm_compute. exact I.
    + apply (list_elem_of_lookup_2 _ 11). reflexivity.
Defined.

(** ** Who is an admin *)

Lemma hasAdminRole_spec member :
  hasAdminRole member = true
  ↔ ∃ roles role, member = Some roles ∧ role ∈ roles ∧ role ∈ ADMIN_ROLE_IDS.
Proof.
  unfold hasAdminRole. destruct member as [roles|].
  - rewrite bool_decide_eq_true, Exists_exists. split.
    + intros (role & Hrole%elem_of_elements & Hadmin). by exists roles, role.
    + intros (? & role & [= <-] & Hrole & Hadmin). exists role.
      by rewrite elem_of_elements.
  - split; [done|]. by intros (? & ? & ? & _).
Qed.

Lemma changed_within_admin ids plus minus g g' id :
  changed_within ids plus minus g g' →
  (∀ role, role ∈ ADMIN_ROLE_IDS → (role ∉ plus) ∧ (role ∉ minus)) →
  hasAdminRole (guild_members g' !! id) = hasAdminRole (guild_members g !! id).
Proof.
  intros [_ H] Hadmin. specialize (H id).
  destruct (guild_members g !! id) as [roles|] eqn:Hg,
    (guild_members g' !! id) as [roles'|] eqn:Hg'; try done.
  destruct H as (Hkept & Hgain & _).
  apply eq_true_iff_eq. rewrite !hasAdminRole_spec. split.
  - intros (? & role & [= <-] & Hrole & Ha). exists roles, role.
    split_and!; [done| |done]. destruct (Hadmin role Ha). set_solver.
  - intros (? & role & [= <-] & Hrole & Ha). exists roles', role.
    split_and!; [done| |done]. destruct (Hadmin role Ha). set_solver.
Qed.

Lemma admin_roles_apart role :
  role ∈ ADMIN_ROLE_IDS →
  (role ∉ base_roles) ∧ role ≠ NEW_WANKME_ROLE_ID
  ∧ role ≠ BULL_ROLE_ID ∧ role ≠ BEAR_ROLE_ID.
Proof.
  unfold ADMIN_ROLE_IDS, base_roles. rewrite !elem_of_cons, elem_of_nil.
  intros [->|[->|[->|[->|[]]]]]; split_and!; try done; set_solver.
Qed.

(** X14.  None of the bulk role commands changes who is an admin: after
    [updateRoles], [/alreadywanked] (either revision) or [/purgezerobalance],
    whatever the gateway answers, [hasAdminRole] gives for every member what
    it gave before. *)
Theorem bulk_commands_keep_admins gw remove_ok db g id :
  (∀ teamType wl ml fm sim,
     hasAdminRole (guild_members (updateRoles gw db g teamType wl ml fm sim).2 !! id)
     = hasAdminRole (guild_members g !! id))
  ∧ (∀ isAdmin,
       hasAdminRole (guild_members (alreadywanked gw db g isAdmin).2 !! id)
       = hasAdminRole (guild_members g !! id))
  ∧ (∀ isAdmin,
       hasAdminRole (guild_members (alreadywanked_paged gw db g isAdmin).2 !! id)
       = hasAdminRole (guild_members g !! id))
  ∧ (∀ isAdmin,
       hasAdminRole (guild_members (purgezerobalance remove_ok db g isAdmin).2 !! id)
       = hasAdminRole (guild_members g !! id)).
Proof.
  split_and!.
  - intros. eapply changed_within_admin; [apply updateRoles_changed_within|].
    intros role Ha. destruct (admin_roles_apart role Ha) as (? & _). set_solver.
  - intros isAdmin.
    destruct (alreadywanked_changed_within gw db g isAdmin) as [H _].
    eapply changed_within_admin; [exact H|].
    intros role Ha. destruct (admin_roles_apart role Ha) as (_ & ? & _). set_solver.
  - intros isAdmin.
    destruct (alreadywanked_changed_within gw db g isAdmin) as [_ H].
    eapply changed_within_admin; [exact H|].
    intros role Ha. destruct (admin_roles_apart role Ha) as (_ & ? & _). set_solver.
  - intros isAdmin.
    eapply changed_within_admin; [apply purgezerobalance_changed_within|].
    intros role Ha. destruct (admin_roles_apart role Ha) as (_ & _ & ? & ?). set_solver.
Qed.

(** ** /transfer and /fine: what happens to the points *)

Lemma filter_apply_write db w id :
  filter (λ u, discord_id u = id) (apply_write db w)
  = (λ u, if decide (discord_id u = write_id w)
          then {| discord_id := discord_id u; address := address u;
                  points := write_points w; team := team u |}
          else u) <$> filter (λ u, discord_id u = id) db.
Proof.
  unfold apply_write. induction db as [|x db IH]; [done|].
  rewrite fmap_cons, !filter_cons.
  assert (discord_id (if decide (discord_id x = write_id w)
                      then {| discord_id := discord_id x; address := address x;
                              points := write_points w; team := team x |}
                      else x) = discord_id x) as -> by (by case_decide).
  case_decide; [|done]. by rewrite fmap_cons, IH.
Qed.

Lemma select_single_apply_write_ne db w id :
  id ≠ write_id w → select_single (apply_write db w) id = select_single db id.
Proof.
  intros Hne. unfold select_single. rewrite filter_apply_write.
  assert (∀ l : list User,
            Forall (λ u, discord_id u = id) l →
            (λ u, if decide (discord_id u = write_id w)
                  then {| discord_id := discord_id u; address := address u;
                          points := write_points w; team := team u |}
                  else u) <$> l = l) as Hsame.
  { induction 1 as [|x l Hx _ IH]; [done|]. rewrite fmap_cons, IH.
    by rewrite decide_False by congruence. }
  rewrite Hsame; [done|]. apply Forall_forall. by intros x [? _]%list_elem_of_filter.
Qed.

Lemma total_points_apply_write db id v u :
  select_single db id = Some u →
  total_points (apply_write db {| write_id := id; write_points := v |})
  = (total_points db - points u + v)%Z.
Proof.
  unfold select_single. intros Hu.
  assert (∀ l : list User,
            total_points (apply_write l {| write_id := id; write_points := v |})
            = (total_points l
               + foldr (λ x acc, (v - points x + acc)%Z) 0%Z
                   (filter (λ x, discord_id x = id) l))%Z) as Hgen.
  { induction l as [|x l IH]; [done|].
    change (apply_write (x :: l) {| write_id := id; write_points := v |})
      with ((if decide (discord_id x = id)
             then {| discord_id := discord_id x; address := address x;
                     points := v; team := team x |}
             else x) :: apply_write l {| write_id := id; write_points := v |}).
    rewrite filter_cons.
    change (total_points (?y :: ?k)) with (points y + total_points k)%Z.
    rewrite IH. case_decide; simpl; lia. }
  rewrite Hgen. destruct (filter _ db) as [|x [|y l]]; simplify_eq/=. lia.
Qed.

Lemma transfer_accepted db userId target amount s r :
  amount ≠ 0%Z →
  select_single db userId = Some s → select_single db target = Some r →
  (amount ≤ points s)%Z →
  writes (transfer db true userId (Some target) (Some amount))
  = [ {| write_id := userId; write_points := (points s - amount)%Z |};
      {| write_id := target; write_points := (points r + amount)%Z |} ].
Proof.
  intros Hamount Hs Hr Hle. unfold transfer. simpl.
  destruct (Z.eqb_spec amount 0); [done|]. rewrite Hs.
  destruct (Z.ltb_spec (points s) amount); [exfalso; lia|]. by rewrite Hr.
Qed.

(** X15.  A transfer that goes through between two different users, each with
    one row, moves the amount: the sender's balance goes down by it, the
    receiver's up by it, every other balance stays, and so does the total of
    all points in the store. *)
Theorem transfer_moves_the_amount db userId target amount s r :
  userId ≠ target → amount ≠ 0%Z →
  select_single db userId = Some s → select_single db target = Some r →
  (amount ≤ points s)%Z →
  let after := apply_writes db (writes (transfer db true userId (Some target) (Some amount))) in
  balance after userId = Some (points s - amount)%Z
  ∧ balance after target = Some (points r + amount)%Z
  ∧ (∀ id, id ≠ userId → id ≠ target → balance after id = balance db id)
  ∧ total_points after = total_points db.
Proof.
  intros Hne Hamount Hs Hr Hle after. unfold after.
  rewrite (transfer_accepted db userId target amount s r) by done.
  unfold apply_writes, balance. simpl.
  set (w1 := {| write_id := userId; write_points := (points s - amount)%Z |}).
  set (w2 := {| write_id := target; write_points := (points r + amount)%Z |}).
  assert (select_single (apply_write db w1) target = Some r) as Hr1.
  { by rewrite select_single_apply_write_ne. }
  split_and!.
  - rewrite select_single_apply_write_ne by done.
    unfold w1. by rewrite (select_single_apply_write db userId _ s).
  - unfold w2. by rewrite (select_single_apply_write _ target _ r).
  - intros id Hid1 Hid2. by rewrite !select_single_apply_write_ne.
  - unfold w2. rewrite (total_points_apply_write _ target _ r) by done.
    unfold w1. rewrite (total_points_apply_write db userId _ s) by done. lia.
Qed.

Lemma transfer_moves_the_amount_witness :
  balance (apply_writes transfer_db
             (writes (transfer transfer_db true "admin" (Some "v") (Some 30%Z)))) "admin"
  = Some (100 - 30)%Z
  ∧ total_points (apply_writes transfer_db
                    (writes (transfer transfer_db true "admin" (Some "v") (Some 30%Z))))
    = total_points transfer_db.
Proof.
  destruct (transfer_moves_the_amount transfer_db "admin" "v" 30
              (mkUser "admin" None 100 (Some bullas)) (mkUser "v" None 50 (Some beras)))
    as (Hsender & _ & _ & Htotal); [done|done|reflexivity|reflexivity|simpl; lia|].
  split; [exact Hsender|exact Htotal].
Defined.

(** X16.  A transfer to oneself is not refused: both writes go to the same
    row, the second one last, so the balance ends at points plus amount and
    the total of the store grows by the amount. *)
Theorem transfer_to_oneself_adds_the_amount db userId amount s :
  amount ≠ 0%Z → select_single db userId = Some s → (amount ≤ points s)%Z →
  let after := apply_writes db (writes (transfer db true userId (Some userId) (Some amount))) in
  balance after userId = Some (points s + amount)%Z
  ∧ total_points after = (total_points db + amount)%Z.
Proof.
  intros Hamount Hs Hle after. unfold after.
  rewrite (transfer_accepted db userId userId amount s s) by done.
  unfold apply_writes, balance. simpl.
  pose proof (select_single_apply_write db userId (points s - amount)%Z s Hs) as Hs1.
  split.
  - by rewrite (select_single_apply_write _ userId _ _ Hs1).
  - rewrite (total_points_apply_write _ userId _ _ Hs1). simpl.
    rewrite (total_points_apply_write db userId _ s) by done. lia.
Qed.

Lemma transfer_to_oneself_adds_the_amount_witness :
  balance (apply_writes transfer_db
             (writes (transfer transfer_db true "admin" (Some "admin") (Some 30%Z)))) "admin"
  = Some (100 + 30)%Z.
Proof.
  destruct (transfer_to_oneself_adds_the_amount transfer_db "admin" 30
              (mkUser "admin" None 100 (Some bullas)))
    as (Hbalance & _); [done|reflexivity|simpl; lia|exact Hbalance].
Defined.

(** X17.  Whoever calls [/fine] with whatever arguments: it writes at most
    once, to the row of the target user, a balance that is not negative and
    is lower than the one it read; no other user's balance changes and the
    total of the store never grows. *)
Theorem fine_only_lowers_the_target db isAdmin targetUser amount :
  let result := fine db isAdmin targetUser amount in
  (writes result = []
   ∨ ∃ target u v,
       targetUser = Some target ∧ select_single db target = Some u
       ∧ writes result = [ {| write_id := target; write_points := v |} ]
       ∧ (0 ≤ v < points u)%Z)
  ∧ (∀ id, targetUser ≠ Some id →
       balance (apply_writes db (writes result)) id = balance db id)
  ∧ (total_points (apply_writes db (writes result)) ≤ total_points db)%Z.
Proof.
  intros result.
  assert (writes result = []
          ∨ ∃ target u v,
              targetUser = Some target ∧ select_single db target = Some u
              ∧ writes result = [ {| write_id := target; write_points := v |} ]
              ∧ (0 ≤ v < points u)%Z) as Hshape.
  { unfold result, fine. destruct (negb isAdmin); [by left|].
    destruct targetUser as [target|]; [|by left].
    destruct (falsy_amount amount || _) eqn:Hbad; [by left|].
    apply orb_false_iff in Hbad as [_ Hpos]. apply Z.leb_gt in Hpos.
    destruct (select_single db target) as [u|] eqn:Hu; [|by left].
    destruct (Z.ltb_spec (points u) (amount_value amount)); [by left|].
    right. exists target, u, (points u - amount_value amount)%Z.
    split_and!; [done|done|done|lia|lia]. }
  split; [done|].
  destruct Hshape as [->|(target & u & v & -> & Hu & -> & Hv)].
  - split; [done|]. simpl. lia.
  - unfold apply_writes, balance. simpl. split.
    + intros id Hid. rewrite select_single_apply_write_ne; [done|]. simpl. congruence.
    + rewrite (total_points_apply_write db target v u Hu). lia.
Qed.

Lemma fine_only_lowers_the_target_witness :
  balance (apply_writes transfer_db
             (writes (fine transfer_db true (Some "v") (Some 10%Z)))) "admin"
  = balance transfer_db "admin"
  ∧ (total_points (apply_writes transfer_db
                     (writes (fine transfer_db true (Some "v") (Some 10%Z))))
     ≤ total_points transfer_db)%Z.
Proof.
  destruct (fine_only_lowers_the_target transfer_db true (Some "v") (Some 10%Z))
    as (_ & Hothers & Htotal).
  split; [|exact Htotal]. apply Hothers. discriminate.
Defined.

(** ** [getTopPlayers] and the snapshot's team files *)



(** ** [createCSV]: the batched fetch *)

Lemma fetch_batch_lookup gw guild m batch id :
  fetch_batch gw guild m batch !! id
  = if batch_ok gw batch && bool_decide (id ∈ batch)
    then match guild_members guild !! id with
         | Some roles => Some roles
         | None => m !! id
         end
    else m !! id.
Proof.
  unfold fetch_batch. destruct (batch_ok gw batch); simpl; [|done].
  revert m. induction batch as [|x batch IH]; intros m; [done|].
  simpl. rewrite IH. destruct (decide (id = x)) as [->|Hne].
  - rewrite (bool_decide_eq_true_2 (x ∈ x :: batch)) by left.
    destruct (guild_members guild !! x) as [roles|] eqn:Hx.
    + rewrite lookup_insert_eq. by destruct (bool_decide _).
    + by destruct (bool_decide _).
  - assert (bool_decide (id ∈ x :: batch) = bool_decide (id ∈ batch)) as ->.
    { apply bool_decide_ext. rewrite elem_of_cons. naive_solver. }
    destruct (guild_members guild !! x); [|done].
    by rewrite lookup_insert_ne.
Qed.

Lemma fetch_batch_sound gw guild m batch :
  (∀ id roles, m !! id = Some roles → guild_members guild !! id = Some roles) →
  ∀ id roles,
    fetch_batch gw guild m batch !! id = Some roles →
    guild_members guild !! id = Some roles.
Proof.
  intros Hm id roles. rewrite fetch_batch_lookup.
  destruct (_ && _); [|apply Hm].
  destruct (guild_members guild !! id) eqn:Hg; [done|].
  intros H. apply Hm in H. congruence.
Qed.

(** The map only ever holds members as the guild has them. *)
Lemma fetch_batches_sound gw guild fuel m ids :
  (∀ id roles, m !! id = Some roles → guild_members guild !! id = Some roles) →
  ∀ id roles,
    fetch_batches fuel gw guild m ids !! id = Some roles →
    guild_members guild !! id = Some roles.
Proof.
  revert m ids. induction fuel as [|fuel IH]; intros m ids Hm id roles; simpl.
  { destruct ids; apply Hm. }
  destruct ids as [|x ids]; [apply Hm|].
  apply IH. by apply fetch_batch_sound.
Qed.

Lemma fetch_batches_keys gw guild fuel m ids id :
  is_Some (fetch_batches fuel gw guild m ids !! id) → is_Some (m !! id) ∨ id ∈ ids.
Proof.
  revert m ids. induction fuel as [|fuel IH]; intros m ids; simpl.
  { destruct ids; auto. }
  destruct ids as [|x ids]; [auto|].
  intros [H|H]%IH.
  - rewrite fetch_batch_lookup in H.
    destruct (batch_ok gw _ && bool_decide _) eqn:Hb; [|auto].
    apply andb_true_iff in Hb as [_ Hin%bool_decide_eq_true].
    right. by apply (subseteq_take 50 (x :: ids)).
  - right. by apply (subseteq_drop 50 (x :: ids)).
Qed.

(** With every batch answered and fuel for every id, each id is fetched. *)
Lemma fetch_batches_complete gw guild fuel m ids id :
  (∀ batch, batch_ok gw batch = true) → (length ids ≤ fuel)%nat →
  (∀ id roles, m !! id = Some roles → guild_members guild !! id = Some roles) →
  id ∈ ids →
  fetch_batches fuel gw guild m ids !! id = guild_members guild !! id.
Proof.
  intros Hok. revert m ids.
  assert (∀ fuel m ids,
            (∀ id roles, m !! id = Some roles → guild_members guild !! id = Some roles) →
            m !! id = guild_members guild !! id →
            fetch_batches fuel gw guild m ids !! id = guild_members guild !! id) as Hkeep.
  { induction fuel0 as [|fuel0 IH]; intros m ids Hm Hid; simpl.
    { by destruct ids. }
    destruct ids as [|x ids]; [done|]. apply IH.
    - by apply fetch_batch_sound.
    - rewrite fetch_batch_lookup. destruct (_ && _); [|done].
      by destruct (guild_members guild !! id). }
  induction fuel as [|fuel IH]; intros m ids Hlen Hm Hin.
  { destruct ids; [by apply elem_of_nil in Hin|simpl in Hlen; lia]. }
  destruct ids as [|x ids]; [by apply elem_of_nil in Hin|].
  cbn [fetch_batches].
  assert (∀ id' roles', fetch_batch gw guild m (take 50 (x :: ids)) !! id' = Some roles' →
                        guild_members guild !! id' = Some roles') as Hm'.
  { by apply fetch_batch_sound. }
  destruct (decide (id ∈ take 50 (x :: ids))) as [Hhead|Hhead].
  - apply Hkeep; [done|]. rewrite fetch_batch_lookup, Hok.
    rewrite bool_decide_eq_true_2 by done. simpl.
    destruct (guild_members guild !! id) eqn:Hg; [done|].
    destruct (m !! id) eqn:Hmid; [|done]. apply Hm in Hmid. congruence.
  - apply IH; [rewrite length_drop; simpl in *; lia|done|].
    rewrite <- (take_drop 50 (x :: ids)) in Hin.
    by apply elem_of_app in Hin as [?|?].
Qed.

(** X19.  The member map [createCSV] builds in batches of 50 holds only ids of
    the data, each with the roles the guild has for it, whatever batches fail;
    and when every batch is answered, it holds every member of the guild
    named by a row, so each row's three flags are those of the guild. *)
Theorem createCSV_fetches_every_member gw guild data :
  (∀ id roles,
     csv_members gw guild data !! id = Some roles →
     guild_members guild !! id = Some roles ∧ id ∈ discord_id <$> data)
  ∧ ((∀ batch, batch_ok gw batch = true) →
     ∀ u, u ∈ data → truthy (discord_id u) = true →
          csv_members gw guild data !! discord_id u = guild_members guild !! discord_id u).
Proof.
  unfold csv_members. split.
  - intros id roles Hid. split.
    + eapply fetch_batches_sound; [|exact Hid]. intros ? ?. by rewrite lookup_empty.
    + destruct (fetch_batches_keys gw guild _ ∅ _ id (mk_is_Some _ _ Hid)) as [H|H].
      * by apply is_Some_None in H.
      * by apply list_elem_of_filter in H as [_ ?].
  - intros Hok u Hu Hid.
    apply fetch_batches_complete; [done|done|intros ? ?; by rewrite lookup_empty|].
    apply list_elem_of_filter. split; [done|]. by apply list_elem_of_fmap_2.
Qed.

Lemma createCSV_fetches_every_member_witness :
  csv_members gateway_up wanked_guild wanked_db !! "3"
  = guild_members wanked_guild !! "3".
Proof.
  destruct (createCSV_fetches_every_member gateway_up wanked_guild wanked_db) as [_ Hall].
  apply (Hall (λ _, eq_refl) (mkUser "3" (Some "0xC") 0 (Some beras))).
  - apply list_elem_of_lookup. exists 2%nat. reflexivity.
  - reflexivity.
Defined.

(** ** [maskAddress] *)

Lemma string_length_list (s : string) :
  String.length s = length (String.list_ascii_of_string s).
Proof. induction s as [|c s IH]; simpl; [done|by rewrite IH]. Qed.

Lemma list_ascii_of_string_app (a b : string) :
  String.list_ascii_of_string (a +:+ b)
  = (String.list_ascii_of_string a ++ String.list_ascii_of_string b)%list.
Proof. induction a as [|c a IH]; simpl; [done|by rewrite IH]. Qed.

Lemma maskAddress_chars (address : string) :
  (8 ≤ String.length address)%nat →
  String.list_ascii_of_string (maskAddress address)
  = (take 6 (String.list_ascii_of_string address)
     ++ String.list_ascii_of_string "..."
     ++ drop (length (String.list_ascii_of_string address) - 4)
             (String.list_ascii_of_string address))%list.
Proof.
  intros Hlen. unfold maskAddress.
  rewrite bool_decide_eq_false_2 by lia.
  unfold slice_head, slice_tail.
  by rewrite !list_ascii_of_string_app, !String.list_ascii_of_string_of_list_ascii.
Qed.

Lemma maskAddress_long (address : string) :
  (8 ≤ String.length address)%nat →
  String.length (maskAddress address) = 13%nat
  ∧ slice_head 6 (maskAddress address) = slice_head 6 address
  ∧ slice_tail 4 (maskAddress address) = slice_tail 4 address.
Proof.
  intros Hlen. pose proof (maskAddress_chars address Hlen) as Hchars.
  pose proof Hlen as Hlen'. rewrite string_length_list in Hlen'.
  set (l := String.list_ascii_of_string address) in *.
  assert (length (take 6 l) = 6%nat) as Htake by (rewrite length_take; lia).
  assert (length (drop (length l - 4) l) = 4%nat) as Hdrop by (rewrite length_drop; lia).
  assert (length (String.list_ascii_of_string (maskAddress address)) = 13%nat) as H13.
  { rewrite Hchars, !length_app, Htake, Hdrop. reflexivity. }
  split_and!.
  - by rewrite string_length_list.
  - unfold slice_head. fold l. f_equal. rewrite Hchars.
    by rewrite take_app_length'.
  - unfold slice_tail. fold l. f_equal. rewrite H13, Hchars.
    rewrite (assoc_L (++)). apply drop_app_length'.
    rewrite length_app, Htake. reflexivity.
Qed.

(** X20.  [maskAddress] on an address of eight characters or more: the result
    has thirteen characters, begins with the first six characters of the
    address and ends with its last four. *)
Theorem maskAddress_keeps_six_and_four (address : string) :
  (8 ≤ String.length address)%nat →
  String.length (maskAddress address) = 13%nat
  ∧ maskAddress address = slice_head 6 address +:+ "..." +:+ slice_tail 4 address
  ∧ String.length (slice_head 6 address) = 6%nat
  ∧ String.length (slice_tail 4 address) = 4%nat
  ∧ slice_head 6 (maskAddress address) = slice_head 6 address
  ∧ slice_tail 4 (maskAddress address) = slice_tail 4 address.
Proof.
  intros Hlen. destruct (maskAddress_long address Hlen) as (H13 & Hhead & Htail).
  pose proof Hlen as Hlen'. rewrite string_length_list in Hlen'.
  split_and!; [done| |..|done|done].
  - unfold maskAddress. by rewrite bool_decide_eq_false_2 by lia.
  - unfold slice_head.
    rewrite string_length_list, String.list_ascii_of_string_of_list_ascii, length_take. lia.
  - unfold slice_tail.
    rewrite string_length_list, String.list_ascii_of_string_of_list_ascii, length_drop. lia.
Qed.

Lemma maskAddress_keeps_six_and_four_witness :
  String.length (maskAddress "0x1234567890abcdef") = 13%nat
  ∧ maskAddress "0x1234567890abcdef" = "0x1234...cdef".
Proof.
  destruct (maskAddress_keeps_six_and_four "0x1234567890abcdef") as (H13 & Heq & _).
  - simpl. lia.
  - split; [exact H13|]. rewrite Heq. reflexivity.
Defined.

(** X21.  Masking is idempotent: a masked address, or an address too short
    to be masked, passes through [maskAddress] unchanged. *)
Theorem maskAddress_idempotent (address : string) :
  maskAddress (maskAddress address) = maskAddress address.
Proof.
  destruct (decide (String.length address < 8)%nat) as [Hshort|Hlong].
  - unfold maskAddress at 2. rewrite bool_decide_eq_true_2 by done.
    unfold maskAddress. by rewrite bool_decide_eq_true_2 by done.
  - assert (8 ≤ String.length address)%nat as Hlen by lia.
    destruct (maskAddress_long address Hlen) as (H13 & Hhead & Htail).
    unfold maskAddress at 1. rewrite bool_decide_eq_false_2 by lia.
    rewrite Hhead, Htail. unfold maskAddress.
    by rewrite bool_decide_eq_false_2 by lia.
Qed.

(** ** /updatewhitelistminimum *)

(** X22.  Whatever commands are sent, by whomever and with whatever argument,
    [WHITELIST_MINIMUM] stays positive: it is the initial 100 or a positive
    value an admin has submitted. *)
Theorem whitelist_minimum_stays_positive (commands : list (bool * option Z)) :
  (0 < whitelist_minimum_after commands)%Z
  ∧ (whitelist_minimum_after commands = 100%Z
     ∨ (true, Some (whitelist_minimum_after commands)) ∈ commands).
Proof.
  unfold whitelist_minimum_after.
  induction commands as [|[isAdmin minimum] commands IH] using rev_ind.
  - simpl. split; [lia|by left].
  - rewrite foldl_app. cbn [foldl fst snd].
    set (current := foldl _ 100%Z commands) in *.
    destruct IH as [Hpos Hfrom].
    unfold updatewhitelistminimum.
    destruct isAdmin; cbn [negb].
    + destruct (falsy_amount minimum || _) eqn:Hbad; cbn [snd].
      * split; [done|]. destruct Hfrom as [?|?]; [by left|right].
        apply elem_of_app. by left.
      * apply orb_false_iff in Hbad as [Hfalsy Hle]. apply Z.leb_gt in Hle.
        split; [done|]. right. apply elem_of_app. right.
        destruct minimum as [v|]; [|done]. cbn [amount_value default].
        apply list_elem_of_singleton. done.
    + cbn [snd]. split; [done|]. destruct Hfrom as [?|?]; [by left|right].
      apply elem_of_app. by left.
Qed.

(** ** /wankme and /updatewallet *)

(** X23.  For one user and one state of the store exactly one of /wankme and
    /updatewallet issues a link token, /wankme for a user without a row and
    /updatewallet for a user with one; the token is unused, carries the
    caller's id and is appended to the tokens there were.  The timer of
    /wankme issues none. *)
Theorem link_token_from_exactly_one_command gw remove_ok url db polls tokens g userId uuid :
  let fresh := {| token := uuid; token_discord_id := userId; used := false |} in
  let linking := (wankme gw remove_ok url db polls tokens g userId uuid).1.2 in
  let updating := (updatewallet url db tokens userId uuid).2 in
  match select_single db userId with
  | None => linking = (tokens ++ [fresh])%list ∧ updating = tokens
  | Some _ => linking = tokens ∧ updating = (tokens ++ [fresh])%list
  end.
Proof.
  intros fresh linking updating. unfold linking, updating, wankme, updatewallet.
  destruct (select_single db userId) as [userData|]; [|done].
  split; [|done].
  destruct (guild_members g !! userId) as [roles|]; [|done].
  destruct (_ && _); [|done]. by destruct (add_ok gw userId NEW_WANKME_ROLE_ID).
Qed.

Lemma verified_roles_changed_within gw remove_ok g userId :
  changed_within [userId] {[NEW_WANKME_ROLE_ID]} {[MOOTARD_ROLE_ID]} g
    (verified_roles gw remove_ok g userId).
Proof.
  unfold verified_roles.
  destruct (guild_members g !! userId); [|reflexivity].
  assert (∀ g1, changed_within [userId] {[NEW_WANKME_ROLE_ID]} {[MOOTARD_ROLE_ID]} g g1 →
            changed_within [userId] {[NEW_WANKME_ROLE_ID]} {[MOOTARD_ROLE_ID]} g
              (if bool_decide (MOOTARD_ROLE_ID ∈ guild_roles g1)
                  && holds_role g1 userId MOOTARD_ROLE_ID
               then if remove_ok userId MOOTARD_ROLE_ID
                    then revoke userId MOOTARD_ROLE_ID g1 else g1
               else g1)) as Hremove.
  { intros g1 H1. destruct (_ && _); [|done].
    destruct (remove_ok userId MOOTARD_ROLE_ID); [|done].
    etrans; [exact H1|]. apply revoke_changed_within; set_solver. }
  destruct (_ && _).
  - destruct (add_ok gw userId NEW_WANKME_ROLE_ID); [|reflexivity].
    apply Hremove. apply grant_changed_within; set_solver.
  - apply Hremove. reflexivity.
Qed.

Lemma wankme_poll_changed_within gw remove_ok polls g userId :
  changed_within [userId] {[NEW_WANKME_ROLE_ID]} {[MOOTARD_ROLE_ID]} g
    (wankme_poll gw remove_ok polls g userId).
Proof.
  induction polls as [|db later IH]; simpl; [reflexivity|].
  destruct (select_single db userId); [apply verified_roles_changed_within|done].
Qed.

Lemma wankme_poll_never_linked gw remove_ok polls g userId :
  (∀ later, later ∈ polls → select_single later userId = None) →
  wankme_poll gw remove_ok polls g userId = g.
Proof.
  induction polls as [|db later IH]; intros Hnone; simpl; [done|].
  rewrite (Hnone db) by left. apply IH. intros l Hl. apply Hnone. by right.
Qed.

Lemma wankme_poll_linked gw remove_ok polls g userId :
  (∃ later, later ∈ polls ∧ is_Some (select_single later userId)) →
  wankme_poll gw remove_ok polls g userId = verified_roles gw remove_ok g userId.
Proof.
  induction polls as [|db later IH]; intros (l & Hl & Hsome); simpl.
  { by apply elem_of_nil in Hl. }
  destruct (select_single db userId) eqn:Hdb; [done|].
  apply IH. apply elem_of_cons in Hl as [->|Hl]; [|by exists l].
  rewrite Hdb in Hsome. by destruct Hsome.
Qed.

Lemma grant_lookup member role g roles :
  guild_members g !! member = Some roles →
  guild_members (grant member role g) !! member = Some ({[role]} ∪ roles).
Proof. intros Hm. unfold grant. cbn [guild_members]. by rewrite lookup_alter_eq, Hm. Qed.

Lemma revoke_lookup member role g roles :
  guild_members g !! member = Some roles →
  guild_members (revoke member role g) !! member = Some (roles ∖ {[role]}).
Proof. intros Hm. unfold revoke. cbn [guild_members]. by rewrite lookup_alter_eq, Hm. Qed.

Lemma verified_roles_accepted gw remove_ok g userId roles :
  add_ok gw userId NEW_WANKME_ROLE_ID = true →
  remove_ok userId MOOTARD_ROLE_ID = true →
  NEW_WANKME_ROLE_ID ∈ guild_roles g → MOOTARD_ROLE_ID ∈ guild_roles g →
  guild_members g !! userId = Some roles →
  guild_members (verified_roles gw remove_ok g userId) !! userId
  = Some (({[NEW_WANKME_ROLE_ID]} ∪ roles) ∖ {[MOOTARD_ROLE_ID]}).
Proof.
  intros Hadd Hremove Hnew Hmoo Hm. unfold verified_roles.
  rewrite Hm, Hadd, Hremove.
  set (added := if bool_decide (NEW_WANKME_ROLE_ID ∈ guild_roles g)
                   && negb (holds_role g userId NEW_WANKME_ROLE_ID)
                then Some (grant userId NEW_WANKME_ROLE_ID g) else Some g).
  assert (∃ g1, added = Some g1 ∧ guild_roles g1 = guild_roles g
                ∧ guild_members g1 !! userId = Some ({[NEW_WANKME_ROLE_ID]} ∪ roles))
    as (g1 & -> & Hroles1 & Hm1).
  { unfold added, holds_role. rewrite Hm. cbn [default].
    destruct (decide (NEW_WANKME_ROLE_ID ∈ roles)) as [Hhas|Hhas].
    - rewrite (bool_decide_eq_true_2 _ Hhas), andb_false_r.
      exists g. split_and!; [done|done|]. rewrite Hm. f_equal. set_solver.
    - rewrite (bool_decide_eq_true_2 _ Hnew), (bool_decide_eq_false_2 _ Hhas).
      exists (grant userId NEW_WANKME_ROLE_ID g).
      split_and!; [done|done|by apply grant_lookup]. }
  unfold holds_role. rewrite Hroles1, Hm1, (bool_decide_eq_true_2 _ Hmoo). cbn [default andb].
  case_bool_decide as Hheld.
  - by apply revoke_lookup.
  - rewrite Hm1. f_equal. set_solver.
Qed.

(** X24.  /wankme, its timer included, changes the guild at the caller only:
    it grants nothing but the new role and takes away nothing but the
    unverified role.  For a caller with a row nothing is taken away, and a
    "restored" reply means the caller holds the new role.  For a caller
    without a row the guild stays as it is when no read of the timer finds
    the row; when one does, both roles being cached and the gateway accepting
    the grant and the removal, the caller ends with the new role added and
    the unverified role gone. *)
Theorem wankme_changes_the_callers_two_roles gw remove_ok url db polls tokens g userId uuid :
  let result := wankme gw remove_ok url db polls tokens g userId uuid in
  changed_within [userId] {[NEW_WANKME_ROLE_ID]} {[MOOTARD_ROLE_ID]} g result.2
  ∧ (is_Some (select_single db userId) →
     changed_within [userId] {[NEW_WANKME_ROLE_ID]} ∅ g result.2)
  ∧ (result.1.1 = RoleRestored →
     ∃ roles, guild_members result.2 !! userId = Some roles ∧ NEW_WANKME_ROLE_ID ∈ roles)
  ∧ (select_single db userId = None →
     (∀ later, later ∈ polls → select_single later userId = None) →
     result.2 = g)
  ∧ (select_single db userId = None →
     (∃ later, later ∈ polls ∧ is_Some (select_single later userId)) →
     add_ok gw userId NEW_WANKME_ROLE_ID = true →
     remove_ok userId MOOTARD_ROLE_ID = true →
     NEW_WANKME_ROLE_ID ∈ guild_roles g → MOOTARD_ROLE_ID ∈ guild_roles g →
     ∀ roles, guild_members g !! userId = Some roles →
       guild_members result.2 !! userId
       = Some (({[NEW_WANKME_ROLE_ID]} ∪ roles) ∖ {[MOOTARD_ROLE_ID]})).
Proof.
  intros result.
  assert (is_Some (select_single db userId) →
          changed_within [userId] {[NEW_WANKME_ROLE_ID]} ∅ g result.2
          ∧ (result.1.1 = RoleRestored →
             ∃ roles, guild_members result.2 !! userId = Some roles
                      ∧ NEW_WANKME_ROLE_ID ∈ roles)) as Hlinked.
  { intros [userData Hrow]. unfold result, wankme. rewrite Hrow.
    destruct (guild_members g !! userId) as [roles|] eqn:Hroles.
    2:{ cbn [fst snd]. split; [reflexivity|done]. }
    destruct (_ && _) eqn:Hcond.
    2:{ cbn [fst snd]. split; [reflexivity|done]. }
    destruct (add_ok gw userId NEW_WANKME_ROLE_ID).
    2:{ cbn [fst snd]. split; [reflexivity|done]. }
    cbn [fst snd]. split.
    - apply grant_changed_within; set_solver.
    - intros _. unfold grant. cbn [guild_members].
      rewrite lookup_alter_eq, Hroles. eexists. split; [done|]. set_solver. }
  assert (select_single db userId = None →
          result = (LinkSent (url +:+ "/game?token=" +:+ uuid +:+ "&discord=" +:+ userId),
                    (tokens ++ [ {| token := uuid; token_discord_id := userId;
                                    used := false |} ])%list,
                    wankme_poll gw remove_ok polls g userId)) as Hunlinked.
  { intros Hrow. unfold result, wankme. by rewrite Hrow. }
  split_and!.
  - destruct (select_single db userId) as [userData|] eqn:Hrow.
    + destruct Hlinked as [Hframe _]; [done|].
      destruct Hframe as [Hroles Hmembers]. split; [done|]. intros id.
      specialize (Hmembers id).
      destruct (guild_members g !! id), (guild_members result.2 !! id); try done.
      destruct Hmembers as (? & ? & ?). split_and!; [set_solver|done|done].
    + rewrite Hunlinked by done. cbn [snd]. apply wankme_poll_changed_within.
  - intros Hsome. by destruct (Hlinked Hsome).
  - intros Hreply. destruct (select_single db userId) as [userData|] eqn:Hrow.
    + destruct Hlinked as [_ Hrestored]; [done|]. by apply Hrestored.
    + rewrite Hunlinked in Hreply by done. discriminate Hreply.
  - intros Hrow Hnever. rewrite Hunlinked by done. cbn [snd].
    by apply wankme_poll_never_linked.
  - intros Hrow Hfound Hadd Hremove Hnew Hmoo roles Hm.
    rewrite Hunlinked by done. cbn [snd].
    rewrite wankme_poll_linked by done. by apply verified_roles_accepted.
Qed.

Lemma wankme_changes_the_callers_two_roles_witness :
  guild_members
    (wankme gateway_up removal_up "https://site" [] [ []; newcomer_linked_db ] []
       newcomer_guild "n" "t1").2 !! "n"
  = Some (({[NEW_WANKME_ROLE_ID]} ∪ {[MOOTARD_ROLE_ID]}) ∖ {[MOOTARD_ROLE_ID]}).
Proof.
  pose proof (wankme_changes_the_callers_two_roles gateway_up removal_up "https://site" []
                [ []; newcomer_linked_db ] [] newcomer_guild "n" "t1") as H.
  cbv zeta in H. destruct H as (_ & _ & _ & _ & Hverified).
  apply Hverified.
  - reflexivity.
  - exists newcomer_linked_db. split; [right; left|]. by eexists.
  - reflexivity.
  - reflexivity.
  - apply (bool_decide_unpack _). vm_compute. exact I.
  - apply (bool_decide_unpack _). vm_compute. exact I.
  - reflexivity.
Defined.
